(** * pyrad.flow.flow_control: the dataset processing flow

    A shallow embedding of [pyrad/flow/flow_control.py].  The Python
    module drives every dataset through three passes (initialisation,
    one pass per radar volume, post-processing), resolves the master
    data type that acts as the clock of the run, and merges the fields a
    dataset produces into the radar volume shared by the datasets of one
    time step.

    Conventions of the embedding:
    - Python objects held by the configuration are terms of [value];
      dictionaries keep their insertion order (association lists with
      unique keys);
    - exceptions are the [Raise] results of [result]; nothing in the
      module catches them;
    - the module mutates one shared object, the configuration dictionary
      [cfg]: [dscfg] is the very object [cfg[dataset]] and [prdcfg] the
      object [cfg[dataset]['products'][product]], so both are modelled as
      paths into the configuration held by the [world];
    - calls of the imported functions are calls of the fields of the
      class [Imports]; the calls of dataset transforms and of product
      generators are recorded in the [world], together with the messages
      the module itself passes to [warn]; what a product generator passes
      to [warn] is recorded with its call;
    - [print] is not modelled. *)

From stdpp Require Import base tactics option list sorting strings gmap fin_maps fin_sets.
From Stdlib Require Import ZArith Ascii.

Local Open Scope Z_scope.
Local Open Scope string_scope.

(** ** Exceptions and results *)

Inductive exn :=
| KeyError (key : string)
| IndexError
| TypeError
| ValueError
| AttributeError (name : string)
| Exception (msg : string)
| Failure (tag : string).

Inductive result (A : Type) :=
| Ok (a : A)
| Raise (e : exn).
Arguments Ok {A} a.
Arguments Raise {A} e.

Definition is_ok {A} (r : result A) : bool :=
  match r with Ok _ => true | Raise _ => false end.

Module Res.
Definition bind {A B} (f : A → result B) (r : result A) : result B :=
  match r with Ok a => f a | Raise e => Raise e end.

Definition of_option {A} (e : exn) (o : option A) : result A :=
  match o with Some a => Ok a | None => Raise e end.

(** A [for] loop that threads an accumulator and stops at the first
    exception. *)
Fixpoint for_fold {A S} (body : S → A → result S) (l : list A) (s : S) : result S :=
  match l with
  | [] => Ok s
  | x :: l' => bind (for_fold body l') (body s x)
  end.
End Res.

#[global] Instance result_ret : MRet result := @Ok.
#[global] Instance result_bind : MBind result := @Res.bind.

(** ** Python values of the configuration *)

Definition time := Z.

#[warnings="-register-all"]
Inductive value :=
| VNone
| VInt (z : Z)
| VStr (s : string)
| VTime (t : time)
| VList (l : list string)
| VDict (d : list (string * value))
| VObj (handle : nat).

Module Dict.
Definition t := list (string * value).

Fixpoint get (k : string) (d : t) : option value :=
  match d with
  | [] => None
  | (k', v) :: d' => if String.eqb k k' then Some v else get k d'
  end.

(** [d[k] = v] and [d.update({k: v})]: an existing key keeps its place,
    a new key goes last. *)
Fixpoint set (k : string) (v : value) (d : t) : t :=
  match d with
  | [] => [(k, v)]
  | (k', v') :: d' =>
      if String.eqb k k' then (k, v) :: d' else (k', v') :: set k v d'
  end.

Definition mem (k : string) (d : t) : bool :=
  match get k d with Some _ => true | None => false end.

Definition keys (d : t) : list string := d.*1.
End Dict.

Definition time_value (t : option time) : value :=
  match t with Some t => VTime t | None => VNone end.

(** Truth value of an object, as tested by [if not make_global]. *)
Definition truthy (v : value) : bool :=
  match v with
  | VNone => false
  | VInt z => negb (Z.eqb z 0)
  | VStr s => negb (String.eqb s "")
  | VTime _ => true
  | VList l => match l with [] => false | _ => true end
  | VDict d => match d with [] => false | _ => true end
  | VObj _ => true
  end.

Fixpoint is_substring (s t : string) : bool :=
  String.prefix s t ||
  match t with
  | EmptyString => false
  | String _ t' => is_substring s t'
  end.

Fixpoint chars (s : string) : list string :=
  match s with
  | EmptyString => []
  | String c s' => String c EmptyString :: chars s'
  end.

(** [v[k]] for a string subscript. *)
Definition getitem (v : value) (k : string) : result value :=
  match v with
  | VDict d => Res.of_option (KeyError k) (Dict.get k d)
  | _ => Raise TypeError
  end.

(** [v[k] = x]. *)
Definition setitem (v : value) (k : string) (x : value) : result value :=
  match v with
  | VDict d => Ok (VDict (Dict.set k x d))
  | _ => Raise TypeError
  end.

(** [v.update({k: x})]: only dictionaries have the method. *)
Definition update (v : value) (k : string) (x : value) : result value :=
  match v with
  | VDict d => Ok (VDict (Dict.set k x d))
  | _ => Raise (AttributeError "update")
  end.

(** [k in v]. *)
Definition contains (k : string) (v : value) : result bool :=
  match v with
  | VDict d => Ok (Dict.mem k d)
  | VList l => Ok (bool_decide (k ∈ l))
  | VStr s => Ok (is_substring k s)
  | _ => Raise TypeError
  end.

(** The strings a [for] loop over [v] yields. *)
Definition iter (v : value) : result (list string) :=
  match v with
  | VList l => Ok l
  | VDict d => Ok (Dict.keys d)
  | VStr s => Ok (chars s)
  | _ => Raise TypeError
  end.

(** [v[0]] where [v] is a list of strings or a string. *)
Definition first (v : value) : result string :=
  match v with
  | VList l => Res.of_option IndexError (head l)
  | VStr s => Res.of_option IndexError (head (chars s))
  | VDict _ => Raise (KeyError "0")
  | _ => Raise TypeError
  end.

(** A value used as a key of the configuration, whose keys are strings. *)
Definition as_key (v : value) : result string :=
  match v with
  | VStr s => Ok s
  | VList _ | VDict _ => Raise TypeError
  | _ => Raise (KeyError "")
  end.

(** Apply [f] to the object reached from [v] by the subscripts [path] and
    store the outcome back: in-place mutation of a nested object. *)
Fixpoint at_path (path : list string) (f : value → result value) (v : value) : result value :=
  match path with
  | [] => f v
  | k :: path' =>
      x ← getitem v k;
      x' ← at_path path' f x;
      setitem v k x'
  end.

Fixpoint lookup_path (path : list string) (v : value) : result value :=
  match path with
  | [] => Ok v
  | k :: path' => x ← getitem v k; lookup_path path' x
  end.

(** ** Radar volumes *)

(** A field dictionary of a radar object: the shape of its ['data'] array,
    if it has one, and its content. *)
Record Field := mkField {
  f_shape : option (nat * nat);
  f_data : Z
}.

Record Radar := mkRadar {
  nrays : nat;
  ngates : nat;
  fields : gmap string Field
}.

(** [radar.add_field(field_name, dic, replace_existing)]: the method of the
    radar object refuses a name that exists unless [replace_existing], a
    dictionary without ['data'], and data that are not of the shape of the
    volume; otherwise it stores the dictionary under the name. *)
Definition add_field (radar : Radar) (field_name : string) (dic : Field)
    (replace_existing : bool) : result Radar :=
  if bool_decide (is_Some (fields radar !! field_name)) && negb replace_existing
  then Raise ValueError
  else match f_shape dic with
       | None => Raise (KeyError "data")
       | Some shape =>
           if bool_decide (shape = (nrays radar, ngates radar))
           then Ok (mkRadar (nrays radar) (ngates radar)
                       (<[field_name := dic]> (fields radar)))
           else Raise ValueError
       end.

(** ** Imported functions *)

(** A dataset transform [proc_func(proc_status, dscfg, radar=radar)]: it
    returns a new dataset or [None], or raises, and may write to the
    dataset configuration dictionary it is given (the second component is
    the dictionary after the call).  It reads the radar object; what a
    dataset adds to the radar object goes through [_add_dataset]. *)
Definition transform : Type :=
  Z → value → option Radar → result (option Radar) * value.

(** A product generator [prod_func(new_dataset, prdcfg)]: it returns or
    raises, and may call [warn] on the way (the second component holds
    the messages, oldest first). *)
Definition generator : Type := Radar → value → result unit * list string.

(** What [flow_control] imports from the rest of the package and from
    Python: [pyrad.io], [pyrad.proc], [pyrad.prod] and the builtins [int]
    and [list].  [list] applied to a set enumerates every element once,
    in an order that is the interpreter's. *)
Class Imports := {
  read_config : value → value → result value;
  get_data : time → list string → value → result (option Radar);
  get_datetime : string → option string → result time;
  get_file_list :
    string → option string → time → time → value → result (list string);
  get_dataset_fields : string → result (string * string);
  get_datatype_fields :
    string → result (string * string * option string * option string);
  get_process_type : value → result (string * string);
  get_product_type : string → result string;
  proc : string → option transform;
  prod : string → option generator;
  int : value → result Z;
  set_to_list : gset string → list string;
  set_to_list_elements : ∀ s, set_to_list s ≡ₚ elements s
}.

(** ** The state of a run *)

(** One call of a dataset transform: the dataset whose configuration is
    passed, the name of the function, and the arguments and outcome. *)
Record call := mkCall {
  c_dataset : string;
  c_func : string;
  c_status : Z;
  c_dscfg : value;
  c_radar : option Radar;
  c_result : result (option Radar)
}.

(** One call of a product generator, with the messages it passed to
    [warn]. *)
Record gen_call := mkGenCall {
  g_func : string;
  g_dataset : Radar;
  g_prdcfg : value;
  g_warnings : list string
}.

Record world := mkWorld {
  cfg : value;               (* the configuration dictionary *)
  dscfg : gset string;       (* keys of the dictionary [dscfg] of [main];
                                key [d] is bound to the object [cfg[d]] *)
  calls : list call;         (* transform calls, oldest first *)
  generated : list gen_call; (* product generator calls, oldest first *)
  warnings : list string     (* messages the module passes to [warn] *)
}.

Definition world0 : world := mkWorld VNone ∅ [] [] [].

Definition M (A : Type) : Type := world → result A * world.

#[global] Instance M_ret : MRet M := λ A a w, (Ok a, w).
#[global] Instance M_bind : MBind M := λ A B f m w,
  match m w with
  | (Ok a, w') => f a w'
  | (Raise e, w') => (Raise e, w')
  end.

Module Run.
Definition lift {A} (r : result A) : M A := λ w, (r, w).

Definition raise {A} (e : exn) : M A := lift (Raise e).

Definition read_cfg : M value := λ w, (Ok (cfg w), w).

Definition write_cfg (c : value) : M unit := λ w,
  (Ok (), mkWorld c (dscfg w) (calls w) (generated w) (warnings w)).

(** Mutation of the configuration dictionary (or of an object in it). *)
Definition mutate (f : value → result value) : M unit :=
  c ← read_cfg; c' ← lift (f c); write_cfg c'.

Definition warn (msg : string) : M unit := λ w,
  (Ok (), mkWorld (cfg w) (dscfg w) (calls w) (generated w) (warnings w ++ [msg])).

Definition log_call (c : call) : M unit := λ w,
  (Ok (), mkWorld (cfg w) (dscfg w) (calls w ++ [c]) (generated w) (warnings w)).

Definition log_generated (g : gen_call) : M unit := λ w,
  (Ok (), mkWorld (cfg w) (dscfg w) (calls w) (generated w ++ [g]) (warnings w)).

(** [dscfg.update({dataset: cfg[dataset]})] and [dscfg[dataset]]. *)
Definition bind_dscfg (dataset : string) : M unit := λ w,
  (Ok (), mkWorld (cfg w) ({[dataset]} ∪ dscfg w) (calls w) (generated w) (warnings w)).

Definition deref_dscfg (dataset : string) : M unit := λ w,
  (if bool_decide (dataset ∈ dscfg w) then Ok () else Raise (KeyError dataset), w).

(** The object reached from [cfg] by [path]. *)
Definition item (path : list string) : M value :=
  c ← read_cfg; lift (lookup_path path c).

(** [obj.update({k: arg})] for the object [obj] at [path]: the method is
    looked up before the argument is evaluated. *)
Definition update_at (path : list string) (k : string) (arg : M value) : M unit :=
  obj ← item path;
  lift (update obj k VNone);;
  x ← arg;
  mutate (at_path path (λ obj, update obj k x)).

(** [obj[k] = x] for the object [obj] at [path]. *)
Definition setitem_at (path : list string) (k : string) (x : value) : M unit :=
  mutate (at_path path (λ obj, setitem obj k x)).

(** [k in obj] for the object at [path]. *)
Definition contains_at (path : list string) (k : string) : M bool :=
  obj ← item path; lift (contains k obj).

(** A [for] loop whose body threads a local variable. *)
Fixpoint for_acc {A S} (body : S → A → M S) (l : list A) (s : S) : M S :=
  match l with
  | [] => mret s
  | x :: l' => s' ← body s x; for_acc body l' s'
  end.

Definition for_each {A} (body : A → M unit) (l : list A) : M unit :=
  for_acc (λ _ x, body x) l ().
End Run.

(** ** The functions of [flow_control] *)

Section flow_control.
Context `{Imports}.
Import Run.

(** [if k not in cfg: cfg.update({k: x})] *)
Definition fill_default (k : string) (x : value) : M unit :=
  b ← contains_at [] k;
  if negb b then update_at [] k (mret x) else mret ().

Definition read_config_into (k : string) : M unit :=
  file ← item [k];
  c ← read_cfg;
  c' ← lift (read_config file c);
  write_cfg c'.

Definition _create_cfg_dict (cfgfile : string) : M unit :=
  write_cfg (VDict [("configFile", VStr cfgfile)]);;
  read_config_into "configFile";;
  read_config_into "locationConfigFile";;
  read_config_into "productConfigFile";;
  fill_default "cosmopath" VNone;;
  fill_default "dempath" VNone;;
  fill_default "smnpath" VNone;;
  fill_default "disdropath" VNone;;
  fill_default "solarfluxpath" VNone;;
  fill_default "loadbasepath" VNone;;
  fill_default "loadname" VNone;;
  fill_default "RadarName" VNone;;
  fill_default "RadarRes" VNone;;
  fill_default "mflossh" VNone;;
  fill_default "mflossv" VNone;;
  fill_default "radconsth" VNone;;
  fill_default "radconstv" VNone;;
  fill_default "AntennaGain" VNone;;
  fill_default "attg" VNone;;
  b ← contains_at [] "ScanPeriod";
  (if negb b then
     warn ("WARNING: Scan period not specified." ++ "Assumed default value 5 min");;
     update_at [] "ScanPeriod" (mret (VInt 5))
   else mret ());;
  b ← contains_at [] "CosmoRunFreq";
  (if negb b then
     warn ("WARNING: COSMO run frequency not specified." ++ "Assumed default value 3h");;
     update_at [] "CosmoRunFreq" (mret (VInt 3))
   else mret ());;
  b ← contains_at [] "CosmoForecasted";
  (if negb b then
     warn ("WARNING: Hours forecasted by COSMO not specified." ++
           "Assumed default value 7h (including analysis)");;
     update_at [] "CosmoForecasted" (mret (VInt 7))
   else mret ()).

(** [datacfg.update({k: cfg[k]})] and [datacfg.update({k: int(cfg[k])})]
    on the fresh dictionary [datacfg]. *)
Definition copy_key (cfg : value) (k : string) (datacfg : Dict.t) : result Dict.t :=
  v ← getitem cfg k; Ok (Dict.set k v datacfg).

Definition copy_int (cfg : value) (k : string) (datacfg : Dict.t) : result Dict.t :=
  v ← getitem cfg k; z ← int v; Ok (Dict.set k (VInt z) datacfg).

Definition _create_datacfg_dict (cfg : value) : result value :=
  datacfg ← copy_key cfg "datapath" [];
  datacfg ← copy_key cfg "ScanList" datacfg;
  datacfg ← copy_key cfg "cosmopath" datacfg;
  datacfg ← copy_key cfg "dempath" datacfg;
  datacfg ← copy_key cfg "loadbasepath" datacfg;
  datacfg ← copy_key cfg "loadname" datacfg;
  datacfg ← copy_key cfg "RadarName" datacfg;
  datacfg ← copy_key cfg "RadarRes" datacfg;
  datacfg ← copy_int cfg "ScanPeriod" datacfg;
  datacfg ← copy_int cfg "CosmoRunFreq" datacfg;
  datacfg ← copy_int cfg "CosmoForecasted" datacfg;
  Ok (VDict datacfg).

(** [dscfg = cfg[dataset]] is an alias: every [dscfg.update] below writes
    into the configuration dictionary itself. *)
Definition _create_dscfg_dict (dataset : string) : M unit :=
  let dscfg := [dataset] in
  item dscfg;;
  update_at dscfg "configpath" (item ["configpath"]);;
  update_at dscfg "solarfluxpath" (item ["solarfluxpath"]);;
  update_at dscfg "mflossh" (item ["mflossh"]);;
  update_at dscfg "mflossv" (item ["mflossv"]);;
  update_at dscfg "radconsth" (item ["radconsth"]);;
  update_at dscfg "radconstv" (item ["radconstv"]);;
  update_at dscfg "AntennaGain" (item ["AntennaGain"]);;
  update_at dscfg "attg" (item ["attg"]);;
  update_at dscfg "basepath" (item ["saveimgbasepath"]);;
  update_at dscfg "procname" (item ["name"]);;
  update_at dscfg "dsname" (mret (VStr dataset));;
  update_at dscfg "timeinfo" (mret VNone);;
  update_at dscfg "initialized" (mret (VInt 0));;
  update_at dscfg "global_data" (mret VNone);;
  b ← contains_at dscfg "MAKE_GLOBAL";
  if negb b then update_at dscfg "MAKE_GLOBAL" (mret (VInt 0)) else mret ().

(** If [k in cfg] the product configuration receives [cfg[k]]. *)
Definition update_if_present (prdcfg : list string) (k : string) : M unit :=
  contains_at [] k ≫= λ b : bool,
  if b then update_at prdcfg k (item [k]) else mret ().

(** [prdcfg = cfg[dataset]['products'][product]] is an alias as well. *)
Definition _create_prdcfg_dict (dataset product : string) (voltime : option time) : M unit :=
  let prdcfg := [dataset; "products"; product] in
  item prdcfg;;
  update_at prdcfg "procname" (item ["name"]);;
  update_at prdcfg "basepath" (item ["saveimgbasepath"]);;
  update_at prdcfg "smnpath" (item ["smnpath"]);;
  update_at prdcfg "disdropath" (item ["disdropath"]);;
  update_at prdcfg "ScanPeriod" (item ["ScanPeriod"]);;
  update_at prdcfg "imgformat" (item ["imgformat"]);;
  update_at prdcfg "convertformat" (item ["convertformat"]);;
  update_if_present prdcfg "ppiImageConfig";;
  update_if_present prdcfg "rhiImageConfig";;
  update_if_present prdcfg "sunhitsImageConfig";;
  update_at prdcfg "dsname" (mret (VStr dataset));;
  update_at prdcfg "dstype" (item [dataset; "type"]);;
  update_at prdcfg "prdname" (mret (VStr product));;
  match voltime with
  | Some t => update_at prdcfg "timeinfo" (mret (VTime t))
  | None => mret ()
  end.

(** [datatypesdescr.add(d)] unless the data group of [d] is ['PROC']. *)
Definition add_unless_proc (datatypesdescr : gset string) (d : string) : result (gset string) :=
  '(datagroup, _, _, _) ← get_datatype_fields d;
  if negb (String.eqb datagroup "PROC") then Ok ({[d]} ∪ datatypesdescr)
  else Ok datatypesdescr.

Definition datatype_set (cfg : value) : result (gset string) :=
  dataSetList ← getitem cfg "dataSetList" ≫= iter;
  Res.for_fold (λ (datatypesdescr : gset string) (datasetdescr : string),
    '(proclevel, dataset) ← get_dataset_fields datasetdescr;
    ds ← getitem cfg dataset;
    contains "datatype" ds ≫= λ b : bool,
    if b then
      datatype ← getitem ds "datatype";
      match datatype with
      | VStr d => add_unless_proc datatypesdescr d
      | _ => l ← iter datatype; Res.for_fold add_unless_proc l datatypesdescr
      end
    else Ok datatypesdescr) dataSetList ∅.

(** [list(datatypesdescr)]: the elements of the set in the order the
    interpreter enumerates them. *)
Definition _get_datatype_list (cfg : value) : result (list string) :=
  datatypesdescr ← datatype_set cfg;
  Ok (set_to_list datatypesdescr).

Definition _get_datasets_list (cfg : value) : result (gmap string (list string)) :=
  dataSetList ← getitem cfg "dataSetList" ≫= iter;
  Res.for_fold (λ (dataset_levels : gmap string (list string)) (datasetdescr : string),
    '(proclevel, dataset) ← get_dataset_fields datasetdescr;
    match dataset_levels !! proclevel with
    | Some l => Ok (<[proclevel := (l ++ [dataset])%list]> dataset_levels)
    | None => Ok (<[proclevel := [dataset]]> dataset_levels)
    end) dataSetList {["l0" := []]}.

(** First loop of [_get_masterfile_list]: the first descriptor whose
    data group is none of the four auxiliary groups. *)
Fixpoint first_radar_datatype (datatypesdescr : list string) : result (option string) :=
  match datatypesdescr with
  | [] => Ok None
  | datatypedescr :: rest =>
      '(datagroup, _, _, _) ← get_datatype_fields datatypedescr;
      if negb (String.eqb datagroup "COSMO") && negb (String.eqb datagroup "RAD4ALPCOSMO")
         && negb (String.eqb datagroup "DEM") && negb (String.eqb datagroup "RAD4ALPDEM")
      then Ok (Some datatypedescr)
      else first_radar_datatype rest
  end.

(** Second loop: "if data type is not radar use dBZ as reference". *)
Fixpoint reference_datatype (datatypesdescr : list string) : result (option string) :=
  match datatypesdescr with
  | [] => Ok None
  | datatypedescr :: rest =>
      '(datagroup, _, _, _) ← get_datatype_fields datatypedescr;
      if String.eqb datagroup "COSMO" then Ok (Some "RAINBOW:dBZ")
      else if String.eqb datagroup "RAD4ALPCOSMO" then Ok (Some "RAD4ALP:dBZ")
      else if String.eqb datagroup "DEM" then Ok (Some "RAINBOW:dBZ")
      else if String.eqb datagroup "RAD4ALPDEM" then Ok (Some "RAD4ALP:dBZ")
      else reference_datatype rest
  end.

Definition masterdatatype (datatypesdescr : list string) : result (option string) :=
  masterdatatypedescr ← first_radar_datatype datatypesdescr;
  match masterdatatypedescr with
  | None => reference_datatype datatypesdescr
  | Some _ => Ok masterdatatypedescr
  end.

Definition _get_masterfile_list (masterscan : string) (datatypesdescr : list string)
    (starttime endtime : time) (datacfg : value) : result (list string * option string) :=
  masterdatatypedescr ← masterdatatype datatypesdescr;
  masterfilelist ← get_file_list masterscan masterdatatypedescr starttime endtime datacfg;
  Ok (masterfilelist, masterdatatypedescr).

(** The loop of [_add_dataset] over [new_dataset.fields]. *)
Definition add_fields (new_dataset radar : Radar) : result Radar :=
  map_fold (λ field dic acc, radar ← acc; add_field radar field dic true)
    (Ok radar) (fields new_dataset).

(** Returns the value the Python function returns and the radar object
    after the call. *)
Definition _add_dataset (new_dataset : Radar) (radar : option Radar) (make_global : value)
    : result (option Z * option Radar) :=
  match radar with
  | None => Ok (None, None)
  | Some radar =>
      if negb (truthy make_global) then Ok (None, Some radar)
      else radar' ← add_fields new_dataset radar; Ok (Some 0, Some radar')
  end.

(** [proc_func(proc_status, dscfg, radar=radar)] where [dscfg] is the
    object [cfg[dataset]]: what the transform writes to its argument is
    written to the configuration dictionary. *)
Definition call_proc (dataset proc_func_name : string) (proc_func : transform)
    (proc_status : Z) (radar : option Radar) : M (option Radar) :=
  dscfg ← item [dataset];
  let '(new_dataset, dscfg') := proc_func proc_status dscfg radar in
  mutate (at_path [dataset] (λ _, Ok dscfg'));;
  log_call (mkCall dataset proc_func_name proc_status dscfg radar new_dataset);;
  lift new_dataset.

Definition call_prod (prod_func_name : string) (prod_func : generator)
    (new_dataset : Radar) (prdcfg : list string) : M unit :=
  prdcfg ← item prdcfg;
  let '(result, messages) := prod_func new_dataset prdcfg in
  log_generated (mkGenCall prod_func_name new_dataset prdcfg messages);;
  lift result.

(** The argument [dscfg] is the object [cfg[dataset]]; the result is the
    returned value together with the radar object after the call. *)
Definition _process_dataset (dataset : string) (proc_status : Z)
    (radar : option Radar) (voltime : option time) : M (option Z * option Radar) :=
  let dscfg := [dataset] in
  setitem_at dscfg "timeinfo" (time_value voltime);;
  '(proc_func_name, dsformat) ← item [dataset; "type"] ≫= λ ty, lift (get_process_type ty);
  proc_func ← lift (Res.of_option (AttributeError proc_func_name) (proc proc_func_name));
  new_dataset ← call_proc dataset proc_func_name proc_func proc_status radar;
  match new_dataset with
  | None => mret (None, radar)
  | Some new_dataset =>
      make_global ← item [dataset; "MAKE_GLOBAL"];
      '(_, radar) ← lift (_add_dataset new_dataset radar make_global);
      contains_at dscfg "products" ≫= λ b : bool,
      (if b then
         products ← item [dataset; "products"] ≫= λ p, lift (iter p);
         for_each (λ product,
           dsname ← item [dataset; "dsname"] ≫= λ n, lift (as_key n);
           _create_prdcfg_dict dsname product voltime;;
           prod_func_name ← lift (get_product_type dsformat);
           prod_func ← lift (Res.of_option (AttributeError prod_func_name)
                               (prod prod_func_name));
           call_prod prod_func_name prod_func new_dataset [dsname; "products"; product])
           products
       else mret ());;
      mret (Some 0, radar)
  end.

(** [sorted(dataset_levels)]: the keys in increasing order of strings. *)
Definition sorted (dataset_levels : gmap string (list string)) : list string :=
  merge_sort String.le (map_to_list dataset_levels).*1.

Definition datasets_of (dataset_levels : gmap string (list string)) (level : string)
    : list string :=
  default [] (dataset_levels !! level).

(** "initial processing of the datasets" *)
Definition init_datasets (dataset_levels : gmap string (list string)) : M unit :=
  for_each (λ level,
    for_each (λ dataset,
      _create_dscfg_dict dataset;;
      bind_dscfg dataset;;
      deref_dscfg dataset;;
      _process_dataset dataset 0 None None;;
      mret ()) (datasets_of dataset_levels level)) (sorted dataset_levels).

(** "process all data sets" of one radar volume; the radar object is
    shared by the datasets of the volume. *)
Definition process_datasets (dataset_levels : gmap string (list string))
    (radar : option Radar) (voltime : time) : M (option Radar) :=
  for_acc (λ radar level,
    for_acc (λ radar dataset,
      deref_dscfg dataset;;
      '(_, radar) ← _process_dataset dataset 1 radar (Some voltime);
      mret radar) (datasets_of dataset_levels level) radar)
    (sorted dataset_levels) radar.

(** One turn of the loop over the master files. *)
Definition process_file (dataset_levels : gmap string (list string))
    (datatypesdescr : list string) (datacfg : value)
    (masterdatatypedescr : option string) (masterfile : string) : M (option time) :=
  voltime ← lift (get_datetime masterfile masterdatatypedescr);
  radar ← lift (get_data voltime datatypesdescr datacfg);
  process_datasets dataset_levels radar voltime;;
  mret (Some voltime).

(** "process all data files in file list"; the loop leaves the last
    [voltime] behind. *)
Definition process_files (dataset_levels : gmap string (list string))
    (datatypesdescr : list string) (datacfg : value)
    (masterdatatypedescr : option string) (masterfilelist : list string)
    : M (option time) :=
  for_acc (λ _ masterfile,
    process_file dataset_levels datatypesdescr datacfg masterdatatypedescr masterfile)
    masterfilelist None.

(** "post-processing of the datasets" *)
Definition postprocess_datasets (dataset_levels : gmap string (list string))
    (voltime : option time) : M unit :=
  for_each (λ level,
    for_each (λ dataset,
      deref_dscfg dataset;;
      _process_dataset dataset 2 None voltime;;
      mret ()) (datasets_of dataset_levels level)) (sorted dataset_levels).

(** What [main] computes before it looks at the number of volumes. *)
Record plan := mkPlan {
  p_datacfg : value;
  p_datatypesdescr : list string;
  p_dataset_levels : gmap string (list string);
  p_masterfilelist : list string;
  p_masterdatatypedescr : option string
}.

Definition main_plan (cfgfile : string) (starttime endtime : time) : M plan :=
  _create_cfg_dict cfgfile;;
  datacfg ← read_cfg ≫= λ c, lift (_create_datacfg_dict c);
  datatypesdescr ← read_cfg ≫= λ c, lift (_get_datatype_list c);
  dataset_levels ← read_cfg ≫= λ c, lift (_get_datasets_list c);
  masterscan ← item ["ScanList"] ≫= λ l, lift (first l);
  '(masterfilelist, masterdatatypedescr) ←
    lift (_get_masterfile_list masterscan datatypesdescr starttime endtime datacfg);
  mret (mkPlan datacfg datatypesdescr dataset_levels masterfilelist masterdatatypedescr).

(** The message of the exception raised when there is no volume; the
    concatenation fails when the master data type is [None]. *)
Definition no_volume_error (masterdatatypedescr : option string) : M exn :=
  masterscan ← item ["ScanList"] ≫= λ l, lift (first l);
  match masterdatatypedescr with
  | Some d =>
      mret (Exception
        ("ERROR: Could not find any volume within the specified times " ++
         " for master scan " ++ masterscan ++ " and master data type " ++ d))
  | None => mret TypeError
  end.

Definition main_run (p : plan) : M unit :=
  let nvolumes := length (p_masterfilelist p) in
  if bool_decide (nvolumes = 0%nat) then
    no_volume_error (p_masterdatatypedescr p) ≫= raise
  else
    init_datasets (p_dataset_levels p);;
    voltime ← process_files (p_dataset_levels p) (p_datatypesdescr p) (p_datacfg p)
                (p_masterdatatypedescr p) (p_masterfilelist p);
    postprocess_datasets (p_dataset_levels p) voltime.

Definition main (cfgfile : string) (starttime endtime : time) : M unit :=
  main_plan cfgfile starttime endtime ≫= main_run.
End flow_control.

(** ** Descriptor parsers and a concrete environment *)

Module Descr.
(** [split_at c s]: the parts of [s] before and after the first [c]. *)
Fixpoint split_at (c : ascii) (s : string) : option (string * string) :=
  match s with
  | EmptyString => None
  | String a s' =>
      if Ascii.eqb a c then Some (EmptyString, s')
      else match split_at c s' with
           | Some (x, y) => Some (String a x, y)
           | None => None
           end
  end.

(** Modelled from the spec: [get_dataset_fields] of [pyrad.io.io_aux] is
    not among the sources.  A descriptor ["<level>:<stageName>"] yields
    the level token and the name (["l2:myStage"] is level 2, name
    ["myStage"]); a descriptor that declares no level is of level 0.
    The level is the token itself: [flow_control] keys its level
    dictionary by strings, its level 0 being ['l0']. *)
Definition get_dataset_fields (datasetdescr : string) : result (string * string) :=
  match split_at ":"%char datasetdescr with
  | Some (proclevel, dataset) => Ok (proclevel, dataset)
  | None => Ok ("l0", datasetdescr)
  end.

(** Modelled from the spec: [get_datatype_fields] of [pyrad.io.io_aux] is
    not among the sources.  A descriptor ["<category>:<field>"] with an
    optional suffix [",sourceStage,sourceProduct"]; parsing fails when
    the delimiter structure is absent. *)
Definition get_datatype_fields (datatypedescr : string)
    : result (string * string * option string * option string) :=
  match split_at ":"%char datatypedescr with
  | None => Raise (Failure "MalformedDescriptor")
  | Some (datagroup, rest) =>
      match split_at ","%char rest with
      | None => Ok (datagroup, rest, None, None)
      | Some (datatype, rest') =>
          match split_at ","%char rest' with
          | None => Raise (Failure "MalformedDescriptor")
          | Some (dataset, product) => Ok (datagroup, datatype, Some dataset, Some product)
          end
      end
  end.
End Descr.

Module Sample.
(** [read_config] for a file system [fs] of already parsed files: the
    entries of the file are written into the dictionary. *)
Definition read_config (fs : list (string * Dict.t)) (file cfg : value) : result value :=
  match file, cfg with
  | VStr f, VDict d =>
      match (list_to_map fs : gmap string Dict.t) !! f with
      | Some entries => Ok (VDict (foldl (λ d kv, Dict.set kv.1 kv.2 d) d entries))
      | None => Raise (Failure "IOError")
      end
  | _, _ => Raise TypeError
  end.

Definition int (v : value) : result Z :=
  match v with
  | VInt z => Ok z
  | VStr _ => Raise ValueError
  | _ => Raise TypeError
  end.

(** Master files are named by their time stamp. *)
Definition get_datetime (masterfile : string) (_ : option string) : result time :=
  match masterfile with
  | "vol1" => Ok 1
  | "vol2" => Ok 2
  | "vol3" => Ok 3
  | _ => Raise ValueError
  end.

(** The dataset type is the name of its transform; every dataset is a
    volume. *)
Definition get_process_type (ty : value) : result (string * string) :=
  match ty with
  | VStr name => Ok (name, "VOL")
  | _ => Raise TypeError
  end.

Definition get_product_type (dsformat : string) : result string :=
  Ok "generate_vol_products".

(** A generator that knows the product type ['PPI_IMAGE'] and warns of
    any other. *)
Definition generate (_ : Radar) (prdcfg : value) : result unit * list string :=
  match getitem prdcfg "type" with
  | Ok (VStr ty) =>
      if String.eqb ty "PPI_IMAGE" then (Ok (), [])
      else (Ok (), [" Unsupported product type: " ++ ty])
  | Ok _ => (Raise TypeError, [])
  | Raise e => (Raise e, [])
  end.

Definition prod (name : string) : option generator :=
  if String.eqb name "generate_vol_products" then Some generate else None.

Definition imports (fs : list (string * Dict.t)) (proc : string → option transform)
    (get_data : time → result (option Radar)) (masterfilelist : list string) : Imports :=
  Build_Imports (read_config fs) (λ voltime _ _, get_data voltime) get_datetime
    (λ _ _ _ _ _, Ok masterfilelist) Descr.get_dataset_fields Descr.get_datatype_fields
    get_process_type get_product_type proc prod int
    elements (λ s, Permutation_refl (elements s)).

(** The three configuration files of a run with the datasets
    [dataSetList]; [datasets] are their sections. *)
Definition files (dataSetList : list string) (datasets : Dict.t) : list (string * Dict.t) :=
  [("main.cfg",
    [("name", VStr "run"); ("datapath", VStr "/data/"); ("configpath", VStr "/cfg/");
     ("saveimgbasepath", VStr "/img/"); ("ScanList", VList ["scan0"]);
     ("locationConfigFile", VStr "loc.cfg"); ("productConfigFile", VStr "prod.cfg");
     ("imgformat", VStr "png"); ("convertformat", VNone);
     ("dataSetList", VList dataSetList)]);
   ("loc.cfg", [("RadarName", VStr "R")]);
   ("prod.cfg", datasets)].

Definition empty_volume : Radar := mkRadar 1 1 ∅.

Definition field_of (z : Z) : Field := mkField (Some (1%nat, 1%nat)) z.

(** A transform that yields one field [name] of content [z] while a
    volume is processed, and nothing otherwise. *)
Definition emit (name : string) (z : Z) : transform := λ proc_status dscfg radar,
  if Z.eqb proc_status 1
  then (Ok (Some (mkRadar 1 1 {[name := field_of z]})), dscfg)
  else (Ok None, dscfg).

Definition failing : transform := λ proc_status dscfg radar,
  if Z.eqb proc_status 1 then (Raise (Failure "transform"), dscfg)
  else (Ok None, dscfg).

(** A transform whose field has not the shape of the volume. *)
Definition misshapen : transform := λ proc_status dscfg radar,
  if Z.eqb proc_status 1
  then (Ok (Some (mkRadar 2 2 {["dBZ" := mkField (Some (2%nat, 2%nat)) 4]})), dscfg)
  else (Ok None, dscfg).

(** A transform that sets ['MAKE_GLOBAL'] in the dataset configuration
    it is given. *)
Definition self_global : transform := λ proc_status dscfg radar,
  match dscfg with
  | VDict d =>
      if Z.eqb proc_status 1
      then (Ok (Some (mkRadar 1 1 {["dBZ" := field_of 3]})),
            VDict (Dict.set "MAKE_GLOBAL" (VInt 1) d))
      else (Ok None, dscfg)
  | _ => (Raise TypeError, dscfg)
  end.

Definition procs (name : string) : option transform :=
  match name with
  | "A" => Some (emit "dBZ" 1)
  | "B" => Some (emit "dBZ" 2)
  | "FAIL" => Some failing
  | "MISSHAPEN" => Some misshapen
  | "SELF_GLOBAL" => Some self_global
  | _ => None
  end.

Definition dataset_section (ty datatype : string) (make_global : option Z) : value :=
  VDict ([("type", VStr ty); ("datatype", VStr datatype)] ++
         match make_global with Some z => [("MAKE_GLOBAL", VInt z)] | None => [] end).
End Sample.

(** ** Sample runs *)

Module Runs.
Import Sample.

Definition always_volume : time → result (option Radar) := λ _, Ok (Some empty_volume).

(** Two datasets of level 0: the transform of the first raises while a
    volume is processed. *)
Definition failing_first : Imports :=
  imports
    (files ["l0:f"; "l0:a"]
       [("f", dataset_section "FAIL" "RAINBOW:dBZ" None);
        ("a", dataset_section "A" "RAINBOW:dBZ" None)])
    procs always_volume ["vol1"; "vol2"].




(** A dataset of level 2 and a dataset of level 10. *)
Definition levels_2_10 : Imports :=
  imports
    (files ["l2:a"; "l10:b"]
       [("a", dataset_section "A" "RAINBOW:dBZ" None);
        ("b", dataset_section "B" "RAINBOW:dBZ" None)])
    procs always_volume ["vol1"].

(** Two datasets of level 0 that both make their field [dBZ] global,
    and three volumes. *)
Definition two_global : Imports :=
  imports
    (files ["l0:a"; "l0:b"]
       [("a", dataset_section "A" "RAINBOW:dBZ" (Some 1));
        ("b", dataset_section "B" "RAINBOW:dBZ" (Some 1))])
    procs always_volume ["vol1"; "vol2"; "vol3"].

(** One dataset with one product. *)
Definition with_product : Imports :=
  imports
    (files ["l0:a"]
       [("a", VDict [("type", VStr "A"); ("datatype", VStr "RAINBOW:dBZ");
                     ("products", VDict [("p1", VDict [("type", VStr "PPI_IMAGE")])])])])
    procs always_volume ["vol1"].

(** A dataset that requires no data type. *)
Definition no_datatype : Imports :=
  imports (files ["l0:a"] [("a", VDict [("type", VStr "A")])])
    procs always_volume ["vol1"].

(** A dataset that is declared at two levels. *)
Definition declared_twice : Imports :=
  imports (files ["l0:a"; "l1:a"] [("a", dataset_section "A" "RAINBOW:dBZ" None)])
    procs always_volume ["vol1"].

(** A dataset that is made global and whose field has not the shape of
    the volume. *)
Definition misshapen_global : Imports :=
  imports (files ["l0:m"] [("m", dataset_section "MISSHAPEN" "RAINBOW:dBZ" (Some 1))])
    procs always_volume ["vol1"].

(** A dataset without ['MAKE_GLOBAL'] whose transform sets it, followed
    by a dataset that reads the volume. *)
Definition self_global : Imports :=
  imports
    (files ["l0:g"; "l0:a"]
       [("g", dataset_section "SELF_GLOBAL" "RAINBOW:dBZ" None);
        ("a", dataset_section "A" "RAINBOW:dBZ" None)])
    procs always_volume ["vol1"].

(** No volume in the period. *)
Definition no_volume : Imports :=
  imports (files ["l0:a"] [("a", dataset_section "A" "RAINBOW:dBZ" None)])
    procs always_volume [].

Definition run (E : Imports) : result unit * world := @main E "main.cfg" 0 10 world0.

(** The plan of the run and the world in which it is carried out. *)
Definition plan_of (E : Imports) : plan :=
  match (@main_plan E "main.cfg" 0 10 world0).1 with
  | Ok p => p
  | Raise _ => mkPlan VNone [] ∅ [] None
  end.

Definition planned (E : Imports) : world := (@main_plan E "main.cfg" 0 10 world0).2.

(** The world after the initialisation pass, and the pass over a volume
    from there. *)
Definition initialised (E : Imports) : world :=
  (@init_datasets E (p_dataset_levels (plan_of E)) (planned E)).2.

Definition after_volume (E : Imports) : result (option Radar) * world :=
  @process_datasets E (p_dataset_levels (plan_of E)) (Some Sample.empty_volume) 1
    (initialised E).

(** The world after the configuration files are read. *)
Definition configured (E : Imports) : world := (@_create_cfg_dict E "main.cfg" world0).2.

Definition default_warnings : list string :=
  ["WARNING: Scan period not specified.Assumed default value 5 min";
   "WARNING: COSMO run frequency not specified.Assumed default value 3h";
   "WARNING: Hours forecasted by COSMO not specified.Assumed default value 7h (including analysis)"].

(** Two datasets that read the same category and field from different
    sources, a dataset that reads a field of the group ['PROC'] and a
    dataset that repeats a descriptor. *)
Definition sources_cfg : value :=
  VDict [("dataSetList", VList ["l0:a"; "l1:b"; "l1:c"]);
         ("a", VDict [("datatype", VStr "CFRADIAL:dBZ,a,p1")]);
         ("b", VDict [("datatype", VList ["CFRADIAL:dBZ,b,p2"; "PROC:dBZ"; "RAINBOW:dBZ"])]);
         ("c", VDict [("datatype", VStr "RAINBOW:dBZ")])].

(** The level dictionary of [sources_cfg]. *)
Definition sources_levels : gmap string (list string) :=
  {["l0" := ["a"]; "l1" := ["b"; "c"]]}.

(** The worlds of the run with a product: after the plan, after the
    dataset configuration is built, and after the product configuration
    is built or the dataset is processed from there. *)
Definition product_planned : world := planned with_product.
Definition product_dscfg : world := (_create_dscfg_dict "a" product_planned).2.
Definition product_prdcfg : world :=
  (_create_prdcfg_dict "a" "p1" (Some 7) product_dscfg).2.
Definition product_processed : world :=
  (@_process_dataset with_product "a" 0 None (Some 7) product_dscfg).2.
Definition product_volume : world :=
  (@_process_dataset with_product "a" 1 (Some Sample.empty_volume) (Some 7)
     product_dscfg).2.
End Runs.

(** * Specification vocabulary *)

Local Open Scope list_scope.

Definition set_cfg (c : value) (w : world) : world :=
  mkWorld c (dscfg w) (calls w) (generated w) (warnings w).

(** A computation preserves a relation between the world before and
    after it; used for "writes no call", "writes no warning" and for the
    parts of the configuration a function leaves alone. *)
Definition preserves (R : relation world) {A} (m : M A) : Prop := ∀ w, R w (m w).2.

Definition same_calls : relation world := λ w w', calls w' = calls w.
Definition same_warnings : relation world := λ w w', warnings w' = warnings w.

(** The entries of the configuration under the keys outside [keys] are
    the same. *)
Definition same_outside (keys : list string) : relation world := λ w w',
  ∀ k, k ∉ keys → getitem (cfg w') k = getitem (cfg w) k.

(** The object of the configuration reached by [path] is the same. *)
Definition same_item (path : list string) : relation world := λ w w',
  lookup_path path (cfg w') = lookup_path path (cfg w).

(** A call is identified by the processing status and the dataset. *)
Definition key (c : call) : Z * string := (c_status c, c_dataset c).

(** [traced m sched]: [m] appends calls to the log; they are the calls
    [sched] when [m] returns, and a prefix of them when it raises. *)
Definition traced {A} (m : M A) (sched : list (Z * string)) : Prop :=
  ∀ w, ∃ evs, calls (m w).2 = calls w ++ evs ∧
    if is_ok (m w).1 then key <$> evs = sched else key <$> evs `prefix_of` sched.


Definition all_ok (l : list call) : Prop := Forall (λ c, is_ok (c_result c)) l.

(** A call that raised is the last call, and the computation raised the
    same exception. *)
Definition sound {A} (r : result A) (l : list call) : Prop :=
  ∀ i c e, l !! i = Some c → c_result c = Raise e → r = Raise e ∧ S i = length l.

Definition safe {A} (m : M A) : Prop :=
  ∀ w, all_ok (calls w) → sound (m w).1 (calls (m w).2).

(** The datasets in the order in which every pass visits them. *)
Definition visit_order (dataset_levels : gmap string (list string)) : list string :=
  sorted dataset_levels ≫= datasets_of dataset_levels.

Definition pass (st : Z) (dataset_levels : gmap string (list string)) : list (Z * string) :=
  pair st <$> visit_order dataset_levels.

(** All the calls of a run that reaches the post-processing. *)
Definition schedule (dl : gmap string (list string)) (files : list string)
    : list (Z * string) :=
  pass 0 dl ++ (files ≫= λ _, pass 1 dl) ++ pass 2 dl.

(** How often a dataset is listed, and how often it is called. *)
Definition occurrences (dataset : string) (l : list string) : nat :=
  length (filter (dataset =.) l).

Definition ncalls (st : Z) (dataset : string) (l : list call) : nat :=
  length (filter ((st, dataset) =.) (key <$> l)).

Definition ncalls_of (dataset : string) (l : list call) : nat :=
  length (filter (λ k, k.2 = dataset) (key <$> l)).

(** The message of the exception [main] raises when there is no volume. *)
Definition no_volume_message (masterscan masterdatatypedescr : string) : string :=
  "ERROR: Could not find any volume within the specified times " ++
  " for master scan " ++ masterscan ++ " and master data type " ++ masterdatatypedescr.

(** The radar object takes every field of the new dataset: each has data
    of the shape of the volume. *)
Definition accepts (radar new_dataset : Radar) : Prop :=
  ∀ name dic, fields new_dataset !! name = Some dic →
    f_shape dic = Some (nrays radar, ngates radar).

(** [group_of d g]: [get_datatype_fields] finds the data group [g] in the
    descriptor [d]. *)
Definition group_of `{Imports} (d g : string) : Prop :=
  ∃ datatype dataset product, get_datatype_fields d = Ok (g, datatype, dataset, product).

(** The groups of data that are not radar data. *)
Definition auxiliary (g : string) : bool :=
  bool_decide (g ∈ ["COSMO"; "RAD4ALPCOSMO"; "DEM"; "RAD4ALPDEM"]).

Definition family_default (g : string) : string :=
  if bool_decide (g ∈ ["COSMO"; "DEM"]) then "RAINBOW:dBZ" else "RAD4ALP:dBZ".

(** The master data type in the words of the specification: the first
    descriptor whose group is not auxiliary; failing that, the default of
    the family of the first descriptor; there is no third case that
    raises: without any descriptor the master data type is [None]. *)
Definition spec_masterdatatype (datatypesdescr groups : list string) : option string :=
  match head (filter (λ dg, auxiliary dg.2 = false) (zip datatypesdescr groups)) with
  | Some (d, _) => Some d
  | None => family_default <$> head groups
  end.

(** [nonproc d]: the data group of the descriptor [d] is not ['PROC']. *)
Definition nonproc `{Imports} (d : string) : Prop := ∃ g, group_of d g ∧ g ≠ "PROC".

(** The dataset of the descriptor [datasetdescr] lists the data type [d]
    under ['datatype'], alone or in a list. *)
Definition declared_by `{Imports} (cfg : value) (datasetdescr d : string) : Prop :=
  ∃ proclevel dataset ds datatype,
    get_dataset_fields datasetdescr = Ok (proclevel, dataset) ∧
    getitem cfg dataset = Ok ds ∧
    getitem ds "datatype" = Ok datatype ∧
    match datatype with
    | VStr s => d = s
    | _ => ∃ l, iter datatype = Ok l ∧ d ∈ l
    end.

(** The data types the configuration requires from outside: declared by a
    dataset of [dataSetList] and not of the group ['PROC']. *)
Definition required `{Imports} (cfg : value) (d : string) : Prop :=
  ∃ dataSetList datasetdescr,
    getitem cfg "dataSetList" ≫= iter = Ok dataSetList ∧
    datasetdescr ∈ dataSetList ∧ declared_by cfg datasetdescr d ∧ nonproc d.

(** [parses dataSetList parsed]: the level and the name that
    [get_dataset_fields] finds in each dataset descriptor. *)
Definition parses `{Imports} (dataSetList : list string) (parsed : list (string * string))
    : Prop :=
  Forall2 (λ datasetdescr p, get_dataset_fields datasetdescr = Ok p) dataSetList parsed.

(** The datasets declared with the level [level], in the order of their
    declaration. *)
Definition declared_at (level : string) (parsed : list (string * string)) : list string :=
  (filter (λ p, p.1 = level) parsed).*2.

(** One turn of the loop of [_get_datasets_list] on a parsed descriptor. *)
Definition add_dataset_level (dataset_levels : gmap string (list string))
    (p : string * string) : gmap string (list string) :=
  <[p.1 := datasets_of dataset_levels p.1 ++ [p.2]]> dataset_levels.

(** The key of the level [n] for a level below ten: ['l'] and the digit. *)
Definition level_key (n : nat) : string :=
  String "l" (String (ascii_of_nat (48 + n)) EmptyString).

(** [each_call P m]: every transform call [m] makes satisfies [P]. *)
Definition each_call {A} (P : call → Prop) (m : M A) : Prop :=
  ∀ w, ∃ evs, calls (m w).2 = calls w ++ evs ∧ Forall P evs.

(** [dscfg['timeinfo']] as the transform of the call finds it. *)
Definition c_timeinfo (c : call) : result value := getitem (c_dscfg c) "timeinfo".

(** What a call of a run looks like: the dataset is one of the level
    dictionary; an initialisation has neither radar object nor time; a
    volume is processed at the time of its master file; the
    post-processing has no radar object and the time of the last master
    file. *)
Definition run_call `{Imports} (p : plan) (c : call) : Prop :=
  c_dataset c ∈ visit_order (p_dataset_levels p) ∧
  ((c_status c = 0 ∧ c_radar c = None ∧ c_timeinfo c = Ok VNone) ∨
   (c_status c = 1 ∧
    ∃ masterfile t, masterfile ∈ p_masterfilelist p ∧
      get_datetime masterfile (p_masterdatatypedescr p) = Ok t ∧
      c_timeinfo c = Ok (VTime t)) ∨
   (c_status c = 2 ∧ c_radar c = None ∧
    ∃ masterfile t, last (p_masterfilelist p) = Some masterfile ∧
      get_datetime masterfile (p_masterdatatypedescr p) = Ok t ∧
      c_timeinfo c = Ok (VTime t))).

(** The configuration as the three files give it: [read_config] is called
    on the main file, then on the files the configuration read so far
    names under ['locationConfigFile'] and ['productConfigFile']. *)
Definition read_configs `{Imports} (cfgfile : string) : result value :=
  let cfg := VDict [("configFile", VStr cfgfile)] in
  cfg ← (file ← getitem cfg "configFile"; read_config file cfg);
  cfg ← (file ← getitem cfg "locationConfigFile"; read_config file cfg);
  file ← getitem cfg "productConfigFile"; read_config file cfg.

(** The keys [_create_cfg_dict] fills in and their defaults. *)
Definition cfg_defaults : list (string * value) :=
  [("cosmopath", VNone); ("dempath", VNone); ("smnpath", VNone); ("disdropath", VNone);
   ("solarfluxpath", VNone); ("loadbasepath", VNone); ("loadname", VNone);
   ("RadarName", VNone); ("RadarRes", VNone); ("mflossh", VNone); ("mflossv", VNone);
   ("radconsth", VNone); ("radconstv", VNone); ("AntennaGain", VNone); ("attg", VNone);
   ("ScanPeriod", VInt 5); ("CosmoRunFreq", VInt 3); ("CosmoForecasted", VInt 7)].

(** The defaults that are announced by a warning. *)
Definition default_messages : list (string * string) :=
  [("ScanPeriod", "WARNING: Scan period not specified.Assumed default value 5 min");
   ("CosmoRunFreq", "WARNING: COSMO run frequency not specified.Assumed default value 3h");
   ("CosmoForecasted",
    "WARNING: Hours forecasted by COSMO not specified.Assumed default value 7h (including analysis)")].

(** [k not in c]. *)
Definition is_missing (k : string) (c : value) : bool :=
  match contains k c with Ok false => true | _ => false end.

(** [if k not in c: c.update({k: x})] as a function of the value of [c]. *)
Definition with_default (c : value) (kx : string * value) : result value :=
  contains kx.1 c ≫= λ b : bool, if b then Ok c else update c kx.1 kx.2.

(** The keys [_create_datacfg_dict] copies as they are, and those it
    converts with [int]. *)
Definition datacfg_copied : list string :=
  ["datapath"; "ScanList"; "cosmopath"; "dempath"; "loadbasepath"; "loadname";
   "RadarName"; "RadarRes"].

Definition datacfg_periods : list string :=
  ["ScanPeriod"; "CosmoRunFreq"; "CosmoForecasted"].

(** The entries [_create_dscfg_dict] copies from the configuration into
    the dataset configuration: the key written and the key read. *)
Definition dscfg_copies : list (string * string) :=
  [("configpath", "configpath"); ("solarfluxpath", "solarfluxpath");
   ("mflossh", "mflossh"); ("mflossv", "mflossv"); ("radconsth", "radconsth");
   ("radconstv", "radconstv"); ("AntennaGain", "AntennaGain"); ("attg", "attg");
   ("basepath", "saveimgbasepath"); ("procname", "name")].

(** All the keys [_create_dscfg_dict] may write. *)
Definition dscfg_written : list string :=
  dscfg_copies.*1 ++ ["dsname"; "timeinfo"; "initialized"; "global_data"; "MAKE_GLOBAL"].

(** The entries [_create_prdcfg_dict] copies from the configuration into
    the product configuration (the key written and the key read), and
    those it copies when the configuration has them. *)
Definition prdcfg_copies : list (string * string) :=
  [("procname", "name"); ("basepath", "saveimgbasepath"); ("smnpath", "smnpath");
   ("disdropath", "disdropath"); ("ScanPeriod", "ScanPeriod");
   ("imgformat", "imgformat"); ("convertformat", "convertformat")].

Definition prdcfg_optional : list string :=
  ["ppiImageConfig"; "rhiImageConfig"; "sunhitsImageConfig"].

(** The conjunction of two relations between worlds. *)
Definition both (R1 R2 : relation world) : relation world := λ w w', R1 w w' ∧ R2 w w'.

Definition same_generated : relation world := λ w w', generated w' = generated w.

(** What a call of a product generator looks like, for the product
    [product] of a dataset of format [dsformat] whose transform returned
    [new_dataset]: the generator is the one [get_product_type] names, it
    gets the new dataset, and a product configuration that carries the
    name of the product and, when there is one, the volume time. *)
Definition product_call `{Imports} (new_dataset : Radar) (dsformat : string)
    (voltime : option time) (g : gen_call) (product : string) : Prop :=
  g_dataset g = new_dataset ∧
  get_product_type dsformat = Ok (g_func g) ∧
  is_Some (prod (g_func g)) ∧
  getitem (g_prdcfg g) "prdname" = Ok (VStr product) ∧
  (∀ t, voltime = Some t → getitem (g_prdcfg g) "timeinfo" = Ok (VTime t)).

(** The products of a dataset configuration, in the order of the
    dictionary; none when it has no entry ['products']. *)
Definition products_of (dscfg : value) (products : list string) : Prop :=
  (contains "products" dscfg = Ok false ∧ products = []) ∨
  (contains "products" dscfg = Ok true ∧ getitem dscfg "products" ≫= iter = Ok products).

(** The radar object after some datasets were merged into it: none if
    there was none; otherwise a volume of the same shape that has every
    field it had. *)
Definition extends (radar radar' : option Radar) : Prop :=
  match radar, radar' with
  | None, None => True
  | Some r, Some r' =>
      nrays r' = nrays r ∧ ngates r' = ngates r ∧ dom (fields r) ⊆ dom (fields r')
  | _, _ => False
  end.


(** [succeeds I m]: from a world in which [I] holds, [m] returns and [I]
    holds afterwards. *)
Definition succeeds (I : world → Prop) {A} (m : M A) : Prop :=
  ∀ w, I w → ∃ a w', m w = (Ok a, w') ∧ I w'.

(** The configuration has what is needed to build a dictionary at [path]
    from the entries [srcs]: a dictionary at [path], and the entries. *)
Definition ready (path : list string) (srcs : list (list string)) (w : world) : Prop :=
  (∃ d, lookup_path path (cfg w) = Ok (VDict d)) ∧
  ∀ src, src ∈ srcs → is_ok (lookup_path src (cfg w)) = true.

(** An entry that an update at [path] cannot remove: a key of the
    configuration itself, or an entry beside the second step of [path]. *)
Definition beside (path src : list string) : Prop :=
  match path, src with
  | _ :: _, [_] => True
  | a :: b :: _, [a'; b'] => a = a' ∧ b ≠ b'
  | _, _ => False
  end.

(** The call [c] is an invocation of the transform of its dataset: the
    function that [get_process_type] names for the type of the dataset,
    applied to the status, the dataset configuration and the radar object
    of the call. *)
Definition invoked `{Imports} (c : call) : Prop :=
  ∃ f ty dsformat,
    getitem (c_dscfg c) "type" = Ok ty ∧
    get_process_type ty = Ok (c_func c, dsformat) ∧
    proc (c_func c) = Some f ∧
    c_result c = (f (c_status c) (c_dscfg c) (c_radar c)).1.

(** The dataset configuration as the transform of the call left it. *)
Definition dscfg_after `{Imports} (c : call) : value :=
  match proc (c_func c) with
  | Some f => (f (c_status c) (c_dscfg c) (c_radar c)).2
  | None => c_dscfg c
  end.

(** The fields a call gives to the radar volume: those of the dataset the
    transform returned, when ['MAKE_GLOBAL'] is true in the dataset
    configuration after the transform call; none otherwise. *)
Definition merged_fields `{Imports} (c : call) : gmap string Field :=
  match c_result c, getitem (dscfg_after c) "MAKE_GLOBAL" with
  | Ok (Some new_dataset), Ok make_global =>
      if truthy make_global then fields new_dataset else ∅
  | _, _ => ∅
  end.

(** The radar object after the calls [evs]: without a volume there is
    none; otherwise the volume with the fields of the calls written over
    its own, a later call over an earlier one. *)
Definition volume_after `{Imports} (radar : option Radar) (evs : list call) : option Radar :=
  (λ r, mkRadar (nrays r) (ngates r)
          (foldl (λ acc c, merged_fields c ∪ acc) (fields r) evs)) <$> radar.

(** The calls [evs] of a pass take the radar object from [radar] to
    [radar']: each is an invocation of a transform, each gets the volume
    as the calls before it left it, and [radar'] is the volume after all
    of them. *)
Definition threads `{Imports} (radar : option Radar) (evs : list call)
    (radar' : option Radar) : Prop :=
  Forall invoked evs ∧
  (∀ i c, evs !! i = Some c → c_radar c = volume_after radar (take i evs)) ∧
  radar' = volume_after radar evs.



(** * Properties *)

(** ** Dictionaries *)

Module DictFacts.
Lemma get_set_eq k v d : Dict.get k (Dict.set k v d) = Some v.
Proof.
  induction d as [|[k' v'] d IH]; simpl.
  - by rewrite String.eqb_refl.
  - destruct (String.eqb k k') eqn:E; simpl.
    + by rewrite String.eqb_refl.
    + by rewrite E.
Qed.

Lemma get_set_ne k k' v d : k ≠ k' → Dict.get k' (Dict.set k v d) = Dict.get k' d.
Proof.
  intros Hne. induction d as [|[k0 v0] d IH]; simpl.
  - destruct (String.eqb k' k) eqn:E; [|done].
    apply String.eqb_eq in E. congruence.
  - destruct (String.eqb k k0) eqn:E; simpl.
    + apply String.eqb_eq in E as <-.
      destruct (String.eqb k' k) eqn:E'; [|done].
      apply String.eqb_eq in E'. congruence.
    + by rewrite IH.
Qed.

End DictFacts.

(** ** Reasoning about runs *)

Lemma bind_run {A B} (m : M A) (f : A → M B) w :
  (m ≫= f) w = match m w with
               | (Ok a, w') => f a w'
               | (Raise e, w') => (Raise e, w')
               end.
Proof. reflexivity. Qed.

Lemma bind_ok_inv {A B} (m : M A) (f : A → M B) w b w' :
  (m ≫= f) w = (Ok b, w') → ∃ a w1, m w = (Ok a, w1) ∧ f a w1 = (Ok b, w').
Proof. rewrite bind_run. destruct (m w) as [[a|e] w1]; [eauto | done]. Qed.


Section preserves.
Context (R : relation world) `{!PreOrder R}.

Lemma preserves_ret {A} (a : A) : preserves R (mret a).
Proof. intros w. simpl. reflexivity. Qed.

Lemma preserves_lift {A} (r : result A) : preserves R (Run.lift r).
Proof. intros w. simpl. reflexivity. Qed.

Lemma preserves_raise {A} e : preserves R (@Run.raise A e).
Proof. intros w. simpl. reflexivity. Qed.

Lemma preserves_read_cfg : preserves R Run.read_cfg.
Proof. intros w. simpl. reflexivity. Qed.

Lemma preserves_deref dataset : preserves R (Run.deref_dscfg dataset).
Proof. intros w. simpl. reflexivity. Qed.

Lemma preserves_bind {A B} (m : M A) (f : A → M B) :
  preserves R m → (∀ a, preserves R (f a)) → preserves R (m ≫= f).
Proof.
  intros Hm Hf w. rewrite bind_run. specialize (Hm w).
  destruct (m w) as [[a|e] w1]; simpl in *; [|done].
  etrans; [done|]. apply Hf.
Qed.

Lemma preserves_for_acc {A S} (body : S → A → M S) l s :
  (∀ s x, preserves R (body s x)) → preserves R (Run.for_acc body l s).
Proof.
  intros Hb. revert s. induction l as [|x l IH]; intros s; simpl.
  - apply preserves_ret.
  - apply preserves_bind; [apply Hb | intros; apply IH].
Qed.

Lemma preserves_for_each {A} (body : A → M unit) l :
  (∀ x, preserves R (body x)) → preserves R (Run.for_each body l).
Proof. intros Hb. apply preserves_for_acc. intros _. apply Hb. Qed.

Lemma preserves_item path : preserves R (Run.item path).
Proof.
  apply preserves_bind; [apply preserves_read_cfg | intros; apply preserves_lift].
Qed.

Lemma preserves_contains_at path k : preserves R (Run.contains_at path k).
Proof.
  apply preserves_bind; [apply preserves_item | intros; apply preserves_lift].
Qed.
End preserves.

(** Structural steps of a proof of [preserves]; what remains are the
    primitives that write to the world. *)
Ltac preserves_step :=
  lazymatch goal with
  | |- preserves _ (mret _) => apply preserves_ret; try apply _
  | |- preserves _ (Run.lift _) => apply preserves_lift; try apply _
  | |- preserves _ (Run.raise _) => apply preserves_raise; try apply _
  | |- preserves _ Run.read_cfg => apply preserves_read_cfg; try apply _
  | |- preserves _ (Run.deref_dscfg _) => apply preserves_deref; try apply _
  | |- preserves _ (Run.item _) => apply preserves_item; try apply _
  | |- preserves _ (Run.contains_at _ _) => apply preserves_contains_at; try apply _
  | |- preserves _ (Run.for_acc _ _ _) => apply preserves_for_acc; [try apply _ | intros ??]
  | |- preserves _ (Run.for_each _ _) => apply preserves_for_each; [try apply _ | intros ?]
  | |- preserves _ (_ ≫= _) => apply preserves_bind; [try apply _ | | intros ?]
  | |- preserves _ (match ?x with _ => _ end) => destruct x
  end.

#[global] Instance same_calls_po : PreOrder same_calls.
Proof. split; [done | intros x y z; unfold same_calls; congruence]. Qed.
#[global] Instance same_warnings_po : PreOrder same_warnings.
Proof. split; [done | intros x y z; unfold same_warnings; congruence]. Qed.
#[global] Instance same_outside_po keys : PreOrder (same_outside keys).
Proof.
  split; [done|]. intros x y z Hxy Hyz k Hk. rewrite (Hyz k Hk). by apply Hxy.
Qed.
#[global] Instance eq_world_po : PreOrder (@eq world).
Proof. split; [done | intros x y z; congruence]. Qed.

Create HintDb run discriminated.

Section primitives.
Lemma calls_write_cfg c : preserves same_calls (Run.write_cfg c).
Proof. done. Qed.
Lemma calls_warn msg : preserves same_calls (Run.warn msg).
Proof. done. Qed.
Lemma calls_log_generated g : preserves same_calls (Run.log_generated g).
Proof. done. Qed.
Lemma calls_bind_dscfg d : preserves same_calls (Run.bind_dscfg d).
Proof. done. Qed.

Lemma warnings_write_cfg c : preserves same_warnings (Run.write_cfg c).
Proof. done. Qed.
Lemma warnings_log_call c : preserves same_warnings (Run.log_call c).
Proof. done. Qed.
Lemma warnings_log_generated g : preserves same_warnings (Run.log_generated g).
Proof. done. Qed.
Lemma warnings_bind_dscfg d : preserves same_warnings (Run.bind_dscfg d).
Proof. done. Qed.

Lemma outside_warn keys msg : preserves (same_outside keys) (Run.warn msg).
Proof. done. Qed.
Lemma outside_log_call keys c : preserves (same_outside keys) (Run.log_call c).
Proof. done. Qed.
Lemma outside_log_generated keys g : preserves (same_outside keys) (Run.log_generated g).
Proof. done. Qed.
Lemma outside_bind_dscfg keys d : preserves (same_outside keys) (Run.bind_dscfg d).
Proof. done. Qed.
End primitives.

#[global] Hint Resolve calls_write_cfg calls_warn calls_log_generated calls_bind_dscfg
  warnings_write_cfg warnings_log_call warnings_log_generated warnings_bind_dscfg
  outside_warn outside_log_call outside_log_generated outside_bind_dscfg : run.

Ltac solve_preserves := repeat preserves_step; auto with run.

Section derived.
Context (R : relation world) `{!PreOrder R}.
Context (Hwrite : ∀ c, preserves R (Run.write_cfg c)).

Lemma preserves_mutate f : preserves R (Run.mutate f).
Proof using All. unfold Run.mutate. solve_preserves. Qed.

Lemma preserves_setitem_at path k x : preserves R (Run.setitem_at path k x).
Proof using All. apply preserves_mutate. Qed.

Lemma preserves_update_at path k arg :
  preserves R arg → preserves R (Run.update_at path k arg).
Proof using All.
  intros. unfold Run.update_at. solve_preserves. apply preserves_mutate.
Qed.
End derived.

Lemma at_path_outside ds path f c c' k :
  at_path (ds :: path) f c = Ok c' → k ≠ ds → getitem c' k = getitem c k.
Proof.
  simpl. destruct c as [| | | | |d|]; try done. simpl.
  destruct (Dict.get ds d) as [x|]; [|done]. simpl.
  destruct (at_path path f x) as [x'|]; [|done]. simpl.
  intros [= <-] Hne. simpl. by rewrite DictFacts.get_set_ne.
Qed.

Lemma outside_mutate keys ds path f :
  ds ∈ keys → preserves (same_outside keys) (Run.mutate (at_path (ds :: path) f)).
Proof.
  intros Hds w k Hk. unfold Run.mutate. rewrite !bind_run. cbn [Run.read_cfg Run.lift].
  destruct (at_path (ds :: path) f (cfg w)) as [c'|] eqn:E; [|done].
  cbn. eapply at_path_outside; [done|]. intros ->. done.
Qed.

Lemma outside_setitem_at keys ds path k x :
  ds ∈ keys → preserves (same_outside keys) (Run.setitem_at (ds :: path) k x).
Proof. apply outside_mutate. Qed.

Lemma outside_update_at keys ds path k arg :
  ds ∈ keys → preserves (same_outside keys) arg →
  preserves (same_outside keys) (Run.update_at (ds :: path) k arg).
Proof.
  intros. unfold Run.update_at. solve_preserves. by apply outside_mutate.
Qed.

Ltac preserves_write :=
  lazymatch goal with
  | |- preserves _ (Run.update_at _ _ _) =>
      first [ apply preserves_update_at; [try apply _ | solve [auto with run] | ]
            | apply outside_update_at; [set_solver | ] ]
  | |- preserves _ (Run.setitem_at _ _ _) =>
      first [ apply preserves_setitem_at; [try apply _ | solve [auto with run] ]
            | apply outside_setitem_at; set_solver ]
  | |- preserves _ (Run.mutate _) =>
      first [ apply preserves_mutate; [try apply _ | solve [auto with run] ]
            | apply outside_mutate; set_solver ]
  end.

Ltac solve_writes := repeat first [preserves_step | preserves_write]; auto with run.

Section flow_preserves.
Context `{Imports}.

Lemma create_cfg_dict_calls cfgfile : preserves same_calls (_create_cfg_dict cfgfile).
Proof. unfold _create_cfg_dict, fill_default, read_config_into. solve_writes. Qed.

Lemma create_dscfg_dict_calls dataset : preserves same_calls (_create_dscfg_dict dataset).
Proof. unfold _create_dscfg_dict. solve_writes. Qed.

Lemma create_dscfg_dict_warnings dataset :
  preserves same_warnings (_create_dscfg_dict dataset).
Proof. unfold _create_dscfg_dict. solve_writes. Qed.

Lemma create_dscfg_dict_outside dataset :
  preserves (same_outside [dataset]) (_create_dscfg_dict dataset).
Proof. unfold _create_dscfg_dict. solve_writes. Qed.

Lemma create_prdcfg_dict_calls dataset product voltime :
  preserves same_calls (_create_prdcfg_dict dataset product voltime).
Proof. unfold _create_prdcfg_dict, update_if_present. solve_writes. Qed.

Lemma create_prdcfg_dict_warnings dataset product voltime :
  preserves same_warnings (_create_prdcfg_dict dataset product voltime).
Proof. unfold _create_prdcfg_dict, update_if_present. solve_writes. Qed.

Lemma create_prdcfg_dict_outside dataset product voltime :
  preserves (same_outside [dataset]) (_create_prdcfg_dict dataset product voltime).
Proof. unfold _create_prdcfg_dict, update_if_present. solve_writes. Qed.

Lemma call_prod_calls name f nd prdcfg : preserves same_calls (call_prod name f nd prdcfg).
Proof. unfold call_prod. solve_writes. Qed.

Lemma call_prod_warnings name f nd prdcfg :
  preserves same_warnings (call_prod name f nd prdcfg).
Proof. unfold call_prod. solve_writes. Qed.

Lemma call_proc_warnings dataset name f st radar :
  preserves same_warnings (call_proc dataset name f st radar).
Proof. unfold call_proc. solve_writes. Qed.

Lemma main_plan_calls cfgfile starttime endtime :
  preserves same_calls (main_plan cfgfile starttime endtime).
Proof.
  unfold main_plan. solve_writes. apply create_cfg_dict_calls.
Qed.

Lemma no_volume_error_eq md : preserves eq (no_volume_error md).
Proof. unfold no_volume_error. solve_writes. Qed.

Lemma process_dataset_warnings dataset st radar voltime :
  preserves same_warnings (_process_dataset dataset st radar voltime).
Proof.
  unfold _process_dataset. solve_writes;
    auto using call_proc_warnings, create_prdcfg_dict_warnings, call_prod_warnings.
Qed.

Lemma main_run_warnings p : preserves same_warnings (main_run p).
Proof.
  unfold main_run, init_datasets, process_files, process_file, process_datasets,
    postprocess_datasets.
  case_bool_decide; solve_writes;
    auto using process_dataset_warnings, create_dscfg_dict_warnings, no_volume_error_eq.
  intros w. pose proof (no_volume_error_eq (p_masterdatatypedescr p) w) as <-. done.
Qed.
End flow_preserves.

(** ** The transform calls of a computation *)

Section tracing.
Lemma traced_quiet {A} (m : M A) : preserves same_calls m → traced m [].
Proof.
  intros Hm w. exists []. rewrite (Hm w), app_nil_r. split; [done|].
  by destruct (is_ok _).
Qed.

Lemma traced_bind {A B} (m : M A) (f : A → M B) s1 s2 :
  traced m s1 → (∀ a, traced (f a) s2) → traced (m ≫= f) (s1 ++ s2).
Proof.
  intros Hm Hf w. rewrite bind_run. destruct (Hm w) as (evs1 & E1 & K1).
  destruct (m w) as [[a|e] w1]; simpl in *.
  - destruct (Hf a w1) as (evs2 & E2 & K2). exists (evs1 ++ evs2).
    rewrite E2, E1, (assoc_L (++)). split; [done|]. rewrite fmap_app, K1.
    destruct (is_ok _); [by rewrite K2 | by apply prefix_app].
  - exists evs1. split; [done|]. by apply prefix_app_r.
Qed.

Lemma traced_for_acc {A S} (body : S → A → M S) (g : A → list (Z * string)) l s :
  (∀ s x, traced (body s x) (g x)) → traced (Run.for_acc body l s) (l ≫= g).
Proof.
  intros Hb. revert s. induction l as [|x l IH]; intros s; simpl.
  - apply traced_quiet. intros w. done.
  - apply traced_bind; [apply Hb | intros; apply IH].
Qed.

Lemma traced_for_each {A} (body : A → M unit) (g : A → list (Z * string)) l :
  (∀ x, traced (body x) (g x)) → traced (Run.for_each body l) (l ≫= g).
Proof. intros Hb. apply traced_for_acc. intros _. apply Hb. Qed.



Lemma safe_quiet {A} (m : M A) : preserves same_calls m → safe m.
Proof.
  intros Hm w Hw i c e Hi He. rewrite (Hm w) in Hi.
  eapply Forall_lookup_1 in Hw; [|done]. by rewrite He in Hw.
Qed.

Lemma sound_ok {A} (a : A) l : sound (Ok a) l → all_ok l.
Proof.
  intros Hs. apply Forall_lookup_2. intros i c Hi.
  destruct (c_result c) as [|e] eqn:E; [done|]. by destruct (Hs i c e Hi E).
Qed.

Lemma safe_bind {A B} (m : M A) (f : A → M B) :
  safe m → (∀ a, safe (f a)) → safe (m ≫= f).
Proof.
  intros Hm Hf w Hw. rewrite bind_run. specialize (Hm w Hw).
  destruct (m w) as [[a|e] w1]; simpl in *.
  - apply Hf. by eapply sound_ok.
  - intros i c e' Hi He. by destruct (Hm i c e' Hi He) as [[= ->] ?].
Qed.

Lemma safe_for_acc {A S} (body : S → A → M S) l s :
  (∀ s x, safe (body s x)) → safe (Run.for_acc body l s).
Proof.
  intros Hb. revert s. induction l as [|x l IH]; intros s; simpl.
  - apply safe_quiet. intros w. done.
  - apply safe_bind; [apply Hb | intros; apply IH].
Qed.

Lemma safe_for_each {A} (body : A → M unit) l :
  (∀ x, safe (body x)) → safe (Run.for_each body l).
Proof. intros Hb. apply safe_for_acc. intros _. apply Hb. Qed.
End tracing.

Lemma item_run path w : Run.item path w = (lookup_path path (cfg w), w).
Proof. reflexivity. Qed.

Lemma mutate_run f w :
  Run.mutate f w = match f (cfg w) with
                   | Ok c' => (Ok (), set_cfg c' w)
                   | Raise e => (Raise e, w)
                   end.
Proof. unfold Run.mutate. rewrite !bind_run. simpl. by destruct (f (cfg w)). Qed.

Section tracing_flow.
Context `{Imports}.

Lemma traced_bind_quiet {A B} (m : M A) (f : A → M B) s :
  preserves same_calls m → (∀ a, traced (f a) s) → traced (m ≫= f) s.
Proof. intros Hm Hf. apply (traced_bind m f [] s); [by apply traced_quiet | done]. Qed.

Lemma traced_bind_then_quiet {A B} (m : M A) (f : A → M B) s :
  traced m s → (∀ a, preserves same_calls (f a)) → traced (m ≫= f) s.
Proof.
  intros Hm Hf. rewrite <-(app_nil_r s).
  apply traced_bind; [done | intros; by apply traced_quiet].
Qed.

Lemma call_proc_run dataset name f st radar w :
  call_proc dataset name f st radar w =
    match lookup_path [dataset] (cfg w) with
    | Raise e => (Raise e, w)
    | Ok d =>
        match at_path [dataset] (λ _, Ok (f st d radar).2) (cfg w) with
        | Raise e => (Raise e, w)
        | Ok c' =>
            ((f st d radar).1,
             mkWorld c' (dscfg w)
               (calls w ++ [mkCall dataset name st d radar (f st d radar).1])
               (generated w) (warnings w))
        end
    end.
Proof.
  unfold call_proc. rewrite bind_run, item_run.
  destruct (lookup_path [dataset] (cfg w)) as [d|e]; [|done].
  destruct (f st d radar) as [nd d']. rewrite bind_run, mutate_run. cbn [fst snd].
  destruct (at_path [dataset] _ (cfg w)) as [c'|e]; [|done].
  by destruct nd.
Qed.

Lemma call_proc_traced dataset name f st radar :
  traced (call_proc dataset name f st radar) [(st, dataset)].
Proof.
  intros w. rewrite call_proc_run.
  destruct (lookup_path [dataset] (cfg w)) as [d|e]; cbn [fst snd].
  2: { exists []. rewrite app_nil_r. split; [done|]. apply prefix_nil. }
  destruct (at_path [dataset] _ (cfg w)) as [c'|e]; cbn [fst snd calls].
  2: { exists []. rewrite app_nil_r. split; [done|]. apply prefix_nil. }
  eexists [_]. split; [done|]. simpl. by destruct (is_ok _).
Qed.

Lemma call_proc_safe dataset name f st radar :
  safe (call_proc dataset name f st radar).
Proof.
  intros w Hw. rewrite call_proc_run.
  destruct (lookup_path [dataset] (cfg w)) as [d|e]; cbn [fst snd].
  2: { by apply (safe_quiet (Run.raise e)). }
  destruct (at_path [dataset] _ (cfg w)) as [c'|e]; cbn [fst snd calls].
  2: { by apply (safe_quiet (Run.raise e)). }
  intros i c e Hi He. rewrite length_app. simpl.
  destruct (decide (i < length (calls w))%nat) as [Hlt|Hge].
  - rewrite lookup_app_l in Hi by done.
    eapply Forall_lookup_1 in Hw; [|done]. by rewrite He in Hw.
  - rewrite lookup_app_r in Hi by lia.
    destruct (i - length (calls w))%nat as [|n] eqn:En; [|by destruct n].
    simpl in Hi. injection Hi as <-. simpl in He. split; [done | lia].
Qed.
End tracing_flow.

Section process_dataset_calls.
Context `{Imports}.

Lemma safe_bind_quiet {A B} (m : M A) (f : A → M B) :
  preserves same_calls m → (∀ a, safe (f a)) → safe (m ≫= f).
Proof. intros Hm Hf. apply safe_bind; [by apply safe_quiet | done]. Qed.

Lemma safe_bind_then_quiet {A B} (m : M A) (f : A → M B) :
  safe m → (∀ a, preserves same_calls (f a)) → safe (m ≫= f).
Proof. intros Hm Hf. apply safe_bind; [done | intros; by apply safe_quiet]. Qed.

(** What follows the transform call in [_process_dataset] calls no
    transform. *)
Lemma after_call_quiet dataset (voltime : option time) (dsformat : string)
    (radar : option Radar) (new_dataset : option Radar) :
  preserves same_calls
    (match new_dataset with
     | None => mret (None, radar)
     | Some new_dataset =>
         make_global ← Run.item [dataset; "MAKE_GLOBAL"];
         '(_, radar) ← Run.lift (_add_dataset new_dataset radar make_global);
         Run.contains_at [dataset] "products" ≫= λ b : bool,
         (if b then
            products ← Run.item [dataset; "products"] ≫= λ p, Run.lift (iter p);
            Run.for_each (λ product,
              dsname ← Run.item [dataset; "dsname"] ≫= λ n, Run.lift (as_key n);
              _create_prdcfg_dict dsname product voltime;;
              prod_func_name ← Run.lift (get_product_type dsformat);
              prod_func ← Run.lift (Res.of_option (AttributeError prod_func_name)
                                      (prod prod_func_name));
              call_prod prod_func_name prod_func new_dataset [dsname; "products"; product])
              products
          else mret ());;
         mret (Some 0, radar)
     end : M (option Z * option Radar)).
Proof.
  solve_writes; auto using create_prdcfg_dict_calls, call_prod_calls.
Qed.

Lemma process_dataset_traced dataset st radar voltime :
  traced (_process_dataset dataset st radar voltime) [(st, dataset)].
Proof.
  unfold _process_dataset.
  apply traced_bind_quiet; [solve_writes | intros _].
  apply traced_bind_quiet; [solve_writes | intros [name dsformat]].
  apply traced_bind_quiet; [solve_writes | intros f].
  apply traced_bind_then_quiet; [apply call_proc_traced | intros nd].
  apply after_call_quiet.
Qed.

Lemma process_dataset_safe dataset st radar voltime :
  safe (_process_dataset dataset st radar voltime).
Proof.
  unfold _process_dataset.
  apply safe_bind_quiet; [solve_writes | intros _].
  apply safe_bind_quiet; [solve_writes | intros [name dsformat]].
  apply safe_bind_quiet; [solve_writes | intros f].
  apply safe_bind_then_quiet; [apply call_proc_safe | intros nd].
  apply after_call_quiet.
Qed.

Lemma pass_bind st dl :
  pass st dl = sorted dl ≫= λ level, datasets_of dl level ≫= λ dataset, [(st, dataset)].
Proof.
  unfold pass, visit_order. generalize (sorted dl). intros l.
  induction l as [|x l IH]; [done|]. rewrite !bind_cons, fmap_app, IH. by f_equal.
Qed.

Lemma init_datasets_traced dl : traced (init_datasets dl) (pass 0 dl).
Proof.
  rewrite pass_bind. unfold init_datasets.
  apply traced_for_each. intros level. apply traced_for_each. intros dataset.
  apply traced_bind_quiet; [apply create_dscfg_dict_calls | intros _].
  apply traced_bind_quiet; [solve_writes | intros _].
  apply traced_bind_quiet; [solve_writes | intros _].
  apply traced_bind_then_quiet; [apply process_dataset_traced | intros; solve_writes].
Qed.

Lemma process_datasets_traced dl radar voltime :
  traced (process_datasets dl radar voltime) (pass 1 dl).
Proof.
  rewrite pass_bind. unfold process_datasets.
  apply traced_for_acc. intros r level. apply traced_for_acc. intros r' dataset.
  apply traced_bind_quiet; [solve_writes | intros _].
  apply traced_bind_then_quiet; [apply process_dataset_traced | intros []; solve_writes].
Qed.

Lemma postprocess_datasets_traced dl voltime :
  traced (postprocess_datasets dl voltime) (pass 2 dl).
Proof.
  rewrite pass_bind. unfold postprocess_datasets.
  apply traced_for_each. intros level. apply traced_for_each. intros dataset.
  apply traced_bind_quiet; [solve_writes | intros _].
  apply traced_bind_then_quiet; [apply process_dataset_traced | intros; solve_writes].
Qed.

Lemma process_file_traced dl dtd datacfg md masterfile :
  traced (process_file dl dtd datacfg md masterfile) (pass 1 dl).
Proof.
  unfold process_file.
  apply traced_bind_quiet; [solve_writes | intros voltime].
  apply traced_bind_quiet; [solve_writes | intros radar].
  apply traced_bind_then_quiet; [apply process_datasets_traced | intros; solve_writes].
Qed.

Lemma process_files_traced dl dtd datacfg md files :
  traced (process_files dl dtd datacfg md files) (files ≫= λ _, pass 1 dl).
Proof.
  apply traced_for_acc. intros. apply process_file_traced.
Qed.

Lemma main_run_traced p :
  traced (main_run p) (schedule (p_dataset_levels p) (p_masterfilelist p)).
Proof.
  unfold main_run, schedule. case_bool_decide as Hn.
  - intros w. rewrite bind_run.
    pose proof (no_volume_error_eq (p_masterdatatypedescr p) w) as Hw.
    destruct (no_volume_error _ w) as [[e|e] w1]; simpl in *; subst w1;
      exists []; rewrite app_nil_r; (split; [done | apply prefix_nil]).
  - apply traced_bind; [apply init_datasets_traced | intros _].
    apply traced_bind; [apply process_files_traced | intros voltime].
    apply postprocess_datasets_traced.
Qed.

Lemma main_run_safe p : safe (main_run p).
Proof.
  unfold main_run. case_bool_decide as Hn.
  - apply safe_quiet. intros w. rewrite bind_run.
    pose proof (no_volume_error_eq (p_masterdatatypedescr p) w) as Hw.
    by destruct (no_volume_error _ w) as [[e|e] w1]; simpl in *; subst w1.
  - apply safe_bind; [|intros _; apply safe_bind; [|intros voltime]].
    + apply safe_for_each. intros level. apply safe_for_each. intros dataset.
      apply safe_bind_quiet; [apply create_dscfg_dict_calls | intros _].
      apply safe_bind_quiet; [solve_writes | intros _].
      apply safe_bind_quiet; [solve_writes | intros _].
      apply safe_bind_then_quiet; [apply process_dataset_safe | intros; solve_writes].
    + apply safe_for_acc. intros _ masterfile. unfold process_file.
      apply safe_bind_quiet; [solve_writes | intros t].
      apply safe_bind_quiet; [solve_writes | intros radar].
      apply safe_bind_then_quiet; [|intros; solve_writes].
      apply safe_for_acc. intros r level. apply safe_for_acc. intros r' dataset.
      apply safe_bind_quiet; [solve_writes | intros _].
      apply safe_bind_then_quiet; [apply process_dataset_safe | intros []; solve_writes].
    + apply safe_for_each. intros level. apply safe_for_each. intros dataset.
      apply safe_bind_quiet; [solve_writes | intros _].
      apply safe_bind_then_quiet; [apply process_dataset_safe | intros; solve_writes].
Qed.
End process_dataset_calls.

(** ** Exceptions of transforms and of the volume reader *)

(** C1, as the specification states it, fails: with the datasets [f] and
    [a] and two volumes, the transform of [f] raises at the first volume;
    the run ends with that exception, [a] is never called with status 1,
    the second volume is not processed, and no warning is recorded
    besides those of the configuration defaults. *)
Lemma transform_failure_not_caught :
  (Runs.run Runs.failing_first).1 = Raise (Failure "transform") ∧
  key <$> calls (Runs.run Runs.failing_first).2 = [(0, "f"); (0, "a"); (1, "f")] ∧
  ((1, "a") ∉ key <$> calls (Runs.run Runs.failing_first).2) ∧
  warnings (Runs.run Runs.failing_first).2 = Runs.default_warnings.
Proof.
  assert (key <$> calls (Runs.run Runs.failing_first).2 = [(0, "f"); (0, "a"); (1, "f")])
    as Hk by (vm_compute; reflexivity).
  split; [vm_compute; reflexivity|].
  split; [exact Hk|].
  split; [|vm_compute; reflexivity].
  rewrite Hk. clear Hk. rewrite !not_elem_of_cons.
  repeat split; [done.. | apply not_elem_of_nil].
Qed.

(** C1 amended: an exception of a transform is not caught.  A transform
    call that raises is the last transform call of the run, [main] raises
    the same exception, and [main] records no warning after the
    configuration is read. *)
Theorem transform_exception_ends_run `{Imports} cfgfile starttime endtime w r w' i c e :
  calls w = [] →
  main cfgfile starttime endtime w = (r, w') →
  calls w' !! i = Some c →
  c_result c = Raise e →
  r = Raise e ∧ S i = length (calls w') ∧
  warnings w' = warnings (main_plan cfgfile starttime endtime w).2.
Proof.
  intros Hw Hmain Hi He. unfold main in Hmain. rewrite bind_run in Hmain.
  pose proof (main_plan_calls cfgfile starttime endtime w) as Hq.
  unfold same_calls in Hq. rewrite Hw in Hq.
  destruct (main_plan cfgfile starttime endtime w) as [[p|e0] w1]; simpl in *.
  - assert (all_ok (calls w1)) as Hok by (rewrite Hq; constructor).
    pose proof (main_run_safe p w1 Hok) as Hs.
    pose proof (main_run_warnings p w1) as Hwarn.
    rewrite Hmain in Hs, Hwarn. simpl in *.
    destruct (Hs i c e Hi He) as [-> ?]. done.
  - injection Hmain as <- <-. by rewrite Hq in Hi.
Qed.

Lemma transform_exception_ends_run_witness :
  (Runs.run Runs.failing_first).1 = Raise (Failure "transform") ∧
  3%nat = length (calls (Runs.run Runs.failing_first).2) ∧
  warnings (Runs.run Runs.failing_first).2 =
    warnings (@main_plan Runs.failing_first "main.cfg" 0 10 world0).2.
Proof.
  eapply (@transform_exception_ends_run Runs.failing_first "main.cfg" 0 10 world0 _ _ 2%nat).
  - reflexivity.
  - apply surjective_pairing.
  - vm_compute. reflexivity.
  - reflexivity.
Defined.


Section volume_reader.
Context `{Imports}.



End volume_reader.



(** ** No volume in the period *)

Section empty_timeline.
Context `{Imports}.

Lemma read_lift_inv {A} (f : value → result A) w a w' :
(Run.read_cfg ≫= λ c, Run.lift (f c)) w = (Ok a, w') → w' = w ∧ f (cfg w) = Ok a.
Proof. rewrite bind_run. simpl. by intros [= -> ->]. Qed.

Lemma item_lift_inv {A} path (f : value → result A) w a w' :
(Run.item path ≫= λ v, Run.lift (f v)) w = (Ok a, w') →
w' = w ∧ lookup_path path (cfg w) ≫= f = Ok a.
Proof.
rewrite bind_run, item_run. destruct (lookup_path path (cfg w)) as [v|e]; [|done].
simpl. by intros [= -> ->].
Qed.

Lemma main_plan_masterscan cfgfile starttime endtime w p w1 :
main_plan cfgfile starttime endtime w = (Ok p, w1) →
∃ masterscan, lookup_path ["ScanList"] (cfg w1) ≫= first = Ok masterscan.
Proof.
unfold main_plan. intros Hp.
apply bind_ok_inv in Hp as (_ & w0 & _ & Hp).
apply bind_ok_inv in Hp as (datacfg & ? & [-> _]%read_lift_inv & Hp).
apply bind_ok_inv in Hp as (dtd & ? & [-> _]%read_lift_inv & Hp).
apply bind_ok_inv in Hp as (dl & ? & [-> _]%read_lift_inv & Hp).
apply bind_ok_inv in Hp as (masterscan & ? & [-> Hscan]%item_lift_inv & Hp).
apply bind_ok_inv in Hp as ([fl md] & ? & Hfl & Hp).
unfold Run.lift in Hfl. injection Hfl as _ <-. injection Hp as _ <-. eauto.
Qed.
End empty_timeline.

(** C7: when the list of master files is empty, [main] raises before any
    transform is called.  The exception carries the message about the
    missing volumes (the concatenation of the message itself raises
    [TypeError] when the master data type is [None]). *)
Theorem empty_timeline_raises `{Imports} cfgfile starttime endtime w p w1 :
  main_plan cfgfile starttime endtime w = (Ok p, w1) →
  p_masterfilelist p = [] →
  ∃ masterscan,
    lookup_path ["ScanList"] (cfg w1) ≫= first = Ok masterscan ∧
    main cfgfile starttime endtime w =
      (Raise match p_masterdatatypedescr p with
             | Some d => Exception (no_volume_message masterscan d)
             | None => TypeError
             end, w1) ∧
    calls w1 = calls w.
Proof.
  intros Hp Hfiles.
  destruct (main_plan_masterscan _ _ _ _ _ _ Hp) as [masterscan Hscan].
  exists masterscan. split; [done|]. split.
  - unfold main. rewrite bind_run, Hp. unfold main_run. rewrite Hfiles. simpl.
    rewrite bind_run. unfold no_volume_error. rewrite bind_run.
    rewrite bind_run, item_run. simpl in Hscan |- *.
    destruct (getitem (cfg w1) "ScanList") as [l|e]; [|done]. simpl in Hscan |- *.
    rewrite Hscan. by destruct (p_masterdatatypedescr p).
  - pose proof (main_plan_calls cfgfile starttime endtime w) as Hq.
    by rewrite Hp in Hq.
Qed.

Lemma empty_timeline_raises_witness :
  ∃ masterscan,
    lookup_path ["ScanList"] (cfg (Runs.planned Runs.no_volume)) ≫= first = Ok masterscan ∧
    Runs.run Runs.no_volume =
      (Raise match p_masterdatatypedescr (Runs.plan_of Runs.no_volume) with
             | Some d => Exception (no_volume_message masterscan d)
             | None => TypeError
             end, Runs.planned Runs.no_volume) ∧
    calls (Runs.planned Runs.no_volume) = calls world0.
Proof.
  apply (@empty_timeline_raises Runs.no_volume "main.cfg" 0 10 world0).
  - vm_compute. reflexivity.
  - vm_compute. reflexivity.
Defined.

(** ** The number of calls of a complete run *)

Section counting.
Context `{Imports}.

Lemma main_ok_schedule cfgfile starttime endtime w p w1 w' :
calls w = [] →
main_plan cfgfile starttime endtime w = (Ok p, w1) →
main cfgfile starttime endtime w = (Ok (), w') →
key <$> calls w' = schedule (p_dataset_levels p) (p_masterfilelist p) ∧
p_masterfilelist p ≠ [].
Proof.
intros Hw Hp Hmain. unfold main in Hmain. rewrite bind_run, Hp in Hmain.
pose proof (main_plan_calls cfgfile starttime endtime w) as Hq.
rewrite Hp in Hq. unfold same_calls in Hq. simpl in Hq.
destruct (main_run_traced p w1) as (evs & E & K). rewrite Hmain in E, K. simpl in *.
rewrite E, Hq, Hw. split; [done|].
intros Hnil. unfold main_run in Hmain. rewrite Hnil in Hmain. simpl in Hmain.
rewrite bind_run in Hmain. by destruct (no_volume_error _ w1) as [[?|?] ?].
Qed.

Lemma filter_pass_length (P : Z * string → Prop) `{!∀ k, Decision (P k)} st dl :
length (filter P (pass st dl)) = length (filter (λ d, P (st, d)) (visit_order dl)).
Proof.
unfold pass. induction (visit_order dl) as [|d l IH]; [done|].
rewrite fmap_cons, !filter_cons. repeat case_decide; simpl; by rewrite ?IH.
Qed.

Lemma filter_repeat_length {A B} (P : B → Prop) `{!∀ k, Decision (P k)}
  (files : list A) (l : list B) :
length (filter P (files ≫= λ _, l)) = (length files * length (filter P l))%nat.
Proof.
induction files as [|f files IH]; [done|].
rewrite bind_cons, filter_app, length_app, IH. simpl. lia.
Qed.

Lemma schedule_ncalls (st : Z) dataset dl files :
length (filter ((st, dataset) =.) (schedule dl files)) =
  ((if decide (st = 0%Z) then 1 else 0) * occurrences dataset (visit_order dl) +
   (if decide (st = 1%Z) then length files else 0) * occurrences dataset (visit_order dl) +
   (if decide (st = 2%Z) then 1 else 0) * occurrences dataset (visit_order dl))%nat.
Proof.
unfold schedule, occurrences.
rewrite !filter_app, !length_app, filter_repeat_length, !filter_pass_length.
assert (∀ st' : Z, length (filter (λ d, (st, dataset) = (st', d)) (visit_order dl)) =
  ((if decide (st = st') then 1 else 0) *
    length (filter (dataset =.) (visit_order dl)))%nat) as Hc.
{ intros st'. destruct (decide (st = st')) as [->|Hne];
    induction (visit_order dl) as [|d l IH]; try done;
    rewrite !filter_cons; repeat case_decide; simplify_eq; simpl; rewrite ?IH; lia. }
rewrite !Hc. repeat case_decide; lia.
Qed.

Lemma schedule_ncalls_of dataset dl files :
length (filter (λ k, k.2 = dataset) (schedule dl files)) =
  ((length files + 2) * occurrences dataset (visit_order dl))%nat.
Proof.
unfold schedule, occurrences.
rewrite !filter_app, !length_app, filter_repeat_length, !filter_pass_length. simpl.
assert (length (filter (λ d, d = dataset) (visit_order dl)) =
        length (filter (dataset =.) (visit_order dl))) as ->.
{ induction (visit_order dl) as [|d l IH]; [done|].
  rewrite !filter_cons. repeat case_decide; simplify_eq; simpl; by rewrite ?IH. }
lia.
Qed.
End counting.

(** ** Merging the fields of a dataset into the radar volume *)

Lemma add_fields_union new_dataset radar :
  accepts radar new_dataset →
  add_fields new_dataset radar =
    Ok (mkRadar (nrays radar) (ngates radar) (fields new_dataset ∪ fields radar)).
Proof.
  unfold accepts, add_fields.
  apply (map_fold_weak_ind (λ acc (m : gmap string Field),
    (∀ name dic, m !! name = Some dic → f_shape dic = Some (nrays radar, ngates radar)) →
    acc = Ok (mkRadar (nrays radar) (ngates radar) (m ∪ fields radar)))).
  - intros _. rewrite (left_id_L ∅ (∪)). by destruct radar.
  - intros name dic m acc Hname IH Hshape. rewrite IH.
    2: { intros name' dic' Hl. apply (Hshape name'). rewrite lookup_insert_ne; [done|].
         intros ->. by rewrite Hname in Hl. }
    simpl. unfold add_field. simpl. rewrite andb_false_r.
    rewrite (Hshape name dic) by apply lookup_insert_eq.
    rewrite bool_decide_eq_true_2 by done. by rewrite insert_union_l.
Qed.

(** ** What a call of [_process_dataset] does *)

Lemma at_path_one_inv ds f c c' :
  at_path [ds] f c = Ok c' →
  ∃ d x x', c = VDict d ∧ Dict.get ds d = Some x ∧ f x = Ok x' ∧
            c' = VDict (Dict.set ds x' d).
Proof.
  simpl. destruct c as [| | | | |d|]; try done. simpl.
  destruct (Dict.get ds d) as [x|] eqn:E; [|done]. simpl.
  destruct (f x) as [x'|] eqn:E'; [|done]. simpl. intros [= <-]. eauto 10.
Qed.

Lemma lookup_path_set ds x d : lookup_path [ds] (VDict (Dict.set ds x d)) = Ok x.
Proof. simpl. by rewrite DictFacts.get_set_eq. Qed.

Lemma lookup_path_set_cons ds path x d :
  lookup_path (ds :: path) (VDict (Dict.set ds x d)) = lookup_path path x.
Proof. simpl. by rewrite DictFacts.get_set_eq. Qed.

Section process_dataset_outcome.
Context `{Imports}.

(** A call of [_process_dataset] that returns has called the transform of
  the dataset once, with the dataset configuration in which [timeinfo]
  is the volume time; the radar object it leaves is the one
  [_add_dataset] yields for the value of [MAKE_GLOBAL] in the dataset
  configuration after the transform. *)
Lemma process_dataset_returns dataset st radar voltime w ret radar' w' :
_process_dataset dataset st radar voltime w = (Ok (ret, radar'), w') →
∃ c f,
  calls w' = calls w ++ [c] ∧ key c = (st, dataset) ∧ c_radar c = radar ∧
  proc (c_func c) = Some f ∧
  c_result c = (f st (c_dscfg c) radar).1 ∧
  (∃ d0, lookup_path [dataset] (cfg w) = Ok (VDict d0) ∧
         c_dscfg c = VDict (Dict.set "timeinfo" (time_value voltime) d0)) ∧
  getitem (c_dscfg c) "timeinfo" = Ok (time_value voltime) ∧
  match c_result c with
  | Ok None => ret = None ∧ radar' = radar
  | Ok (Some new_dataset) =>
      ret = Some 0 ∧
      ∃ make_global r0,
        getitem (f st (c_dscfg c) radar).2 "MAKE_GLOBAL" = Ok make_global ∧
        _add_dataset new_dataset radar make_global = Ok (r0, radar')
  | Raise _ => False
  end.
Proof.
intros Hrun. unfold _process_dataset in Hrun.
apply bind_ok_inv in Hrun as ([] & w1 & Hset & Hrun).
apply bind_ok_inv in Hrun as ([name fmt] & ? & [-> Hty]%item_lift_inv & Hrun).
apply bind_ok_inv in Hrun as (f & ? & Hf & Hrun).
unfold Run.lift in Hf. injection Hf as Hf <-.
apply bind_ok_inv in Hrun as (nd & w2 & Hcall & Hrun).
pose proof (after_call_quiet dataset voltime fmt radar nd w2) as Hq.
rewrite Hrun in Hq. unfold same_calls in Hq. cbn [snd] in Hq.
unfold Run.setitem_at in Hset. rewrite mutate_run in Hset.
destruct (at_path [dataset] _ (cfg w)) as [c1|] eqn:Ec1; [|done].
injection Hset as <-.
apply at_path_one_inv in Ec1 as (c0 & x & x' & Hc0 & Hx & Hx' & ->).
destruct x as [| | | | |d0|]; try done. injection Hx' as <-.
rewrite call_proc_run in Hcall. cbn [cfg set_cfg] in Hcall.
rewrite lookup_path_set in Hcall.
destruct (at_path [dataset] _ _) as [c2|] eqn:Ec2 in Hcall; [|done].
injection Hcall as Hres <-. cbn [calls] in Hq.
apply at_path_one_inv in Ec2 as (c1 & y & y' & [= <-] & _ & [= <-] & ->).
eexists _, f. split; [exact Hq|]. cbn [c_result c_dscfg c_radar c_func key c_status c_dataset].
split; [done|]. split; [done|].
split. { destruct (proc name) as [g|]; [by injection Hf as -> | done]. }
split; [done|].
split. { exists d0. split; [|done]. rewrite Hc0. simpl. by rewrite Hx. }
split. { simpl. by rewrite DictFacts.get_set_eq. }
rewrite Hres. destruct nd as [new_dataset|].
- apply bind_ok_inv in Hrun as (mg & ? & Hmg & Hrun).
  rewrite item_run in Hmg. injection Hmg as Hmg <-.
  apply bind_ok_inv in Hrun as ([r0 radar1] & ? & Hadd & Hrun).
  unfold Run.lift in Hadd. injection Hadd as Hadd <-.
  apply bind_ok_inv in Hrun as (b & w3 & _ & Hrun).
  apply bind_ok_inv in Hrun as (? & w4 & _ & Hrun).
  injection Hrun as <- <- _. split; [done|]. exists mg, r0. split; [|done].
  rewrite DictFacts.get_set_eq in Hmg.
  cbn [Res.of_option mbind result_bind Res.bind] in Hmg.
  destruct (getitem _ "MAKE_GLOBAL") as [v|]; [by injection Hmg as -> | done].
- by injection Hrun as <- <-.
Qed.
End process_dataset_outcome.

(** ** Writes into the configuration dictionary *)

#[global] Instance same_item_po path : PreOrder (same_item path).
Proof. split; [done | intros x y z; unfold same_item; congruence]. Qed.

Lemma at_path_update_eq path k x c c' :
  at_path path (λ obj, update obj k x) c = Ok c' → lookup_path (path ++ [k]) c' = Ok x.
Proof.
  revert c c'. induction path as [|a path IH]; intros c c'.
  - simpl. destruct c; try done. intros [= <-]. simpl. by rewrite DictFacts.get_set_eq.
  - intros (d & y & y' & -> & Hy & Hy' & ->)%at_path_one_inv.
    rewrite <-app_comm_cons, lookup_path_set_cons. by eapply IH.
Qed.

Lemma at_path_update_ne path k k' x c c' :
  k ≠ k' → at_path path (λ obj, update obj k x) c = Ok c' →
  lookup_path (path ++ [k']) c' = lookup_path (path ++ [k']) c.
Proof.
  intros Hne. revert c c'. induction path as [|a path IH]; intros c c'.
  - simpl. destruct c; try done. intros [= <-]. simpl. by rewrite DictFacts.get_set_ne.
  - intros (d & y & y' & -> & Hy & Hy' & ->)%at_path_one_inv.
    rewrite <-app_comm_cons, lookup_path_set_cons. rewrite (IH _ _ Hy').
    simpl. by rewrite Hy.
Qed.

Lemma same_item_update_at path k k' arg :
  k ≠ k' → preserves (same_item (path ++ [k'])) arg →
  preserves (same_item (path ++ [k'])) (Run.update_at path k arg).
Proof.
  intros Hne Harg. unfold Run.update_at. solve_preserves.
  intros w. unfold same_item. rewrite mutate_run.
  destruct (at_path path _ (cfg w)) as [c'|] eqn:E; [|done].
  simpl. by eapply at_path_update_ne.
Qed.

Lemma update_at_sets path k (x : value) w w' :
  Run.update_at path k (mret x) w = (Ok (), w') → lookup_path (path ++ [k]) (cfg w') = Ok x.
Proof.
  unfold Run.update_at. intros Hu.
  apply bind_ok_inv in Hu as (obj & ? & [= _ <-] & Hu).
  apply bind_ok_inv in Hu as (? & ? & [= _ <-] & Hu).
  apply bind_ok_inv in Hu as (? & ? & [= <- <-] & Hu).
  rewrite mutate_run in Hu. destruct (at_path path _ (cfg w)) as [c'|] eqn:E; [|done].
  injection Hu as <-. simpl. by eapply at_path_update_eq.
Qed.

Lemma bind_ok_chain (R : relation world) `{!PreOrder R} {A B} (m : M A) (f : A → M B)
    w0 w b w' :
  R w0 w → preserves R m → (m ≫= f) w = (Ok b, w') →
  ∃ a w1, m w = (Ok a, w1) ∧ R w0 w1 ∧ f a w1 = (Ok b, w').
Proof.
  intros Hacc Hm (a & w1 & Hw1 & Hf)%bind_ok_inv. exists a, w1. split; [done|].
  split; [|done]. etrans; [done|]. specialize (Hm w). by rewrite Hw1 in Hm.
Qed.

(** Follow [n] statements of a sequence that all preserve [R]; [tac] shows
    that each of them does. *)
Tactic Notation "chain" integer(n) constr(R) ident(Hacc) ident(H) tactic3(tac) :=
  do n (
    match type of H with
    | (?m ≫= ?f) ?w = (Ok ?b, ?w') =>
        let Hp := fresh "Hp" in
        assert (preserves R m) as Hp by tac;
        let Hacc' := fresh "Hacc" in
        let Hm := fresh "Hm" in
        apply (bind_ok_chain R m f _ w b w' Hacc Hp) in H as (? & ? & Hm & Hacc' & H);
        clear Hp Hm Hacc; rename Hacc' into Hacc
    end).

(** Skip [n] statements of a sequence that returns. *)
Tactic Notation "skip_steps" integer(n) ident(H) :=
  do n (apply bind_ok_inv in H as (? & ? & _ & H)).

Ltac solve_same_item :=
  repeat first [ preserves_step | apply same_item_update_at; [done|] ]; auto with run.

Section make_global.
Context `{Imports}.

Lemma create_dscfg_dict_make_global dataset d w w' :
lookup_path [dataset] (cfg w) = Ok (VDict d) →
_create_dscfg_dict dataset w = (Ok (), w') →
lookup_path [dataset; "MAKE_GLOBAL"] (cfg w') =
  Ok (default (VInt 0) (Dict.get "MAKE_GLOBAL" d)).
Proof.
intros Hd Hrun. unfold _create_dscfg_dict in Hrun.
assert (same_item ([dataset] ++ ["MAKE_GLOBAL"]) w w) as Hacc by done.
chain 15 (same_item ([dataset] ++ ["MAKE_GLOBAL"])) Hacc Hrun solve_same_item.
apply bind_ok_inv in Hrun as (b & ? & Hb & Hrun).
unfold Run.contains_at in Hb. rewrite bind_run, item_run in Hb.
unfold same_item in Hacc. simpl in Hacc, Hd, Hb.
destruct (getitem (cfg w) dataset) as [obj|] eqn:E; [|done].
simpl in Hacc, Hd. injection Hd as ->. simpl in Hacc.
match type of Hb with context [getitem (cfg ?w1) dataset] =>
  destruct (getitem (cfg w1) dataset) as [obj1|] eqn:E1; [|done] end.
simpl in Hacc, Hb. injection Hb as Hb <-.
destruct obj1 as [| | | | |d1|]; simpl in Hacc, Hb;
  try (by destruct (Dict.get "MAKE_GLOBAL" d)).
injection Hb as <-. unfold Dict.mem in Hrun.
destruct (Dict.get "MAKE_GLOBAL" d1) as [v1|] eqn:Ev1;
  destruct (Dict.get "MAKE_GLOBAL" d) as [v|] eqn:Ev; simpl in Hacc; try done.
- injection Hacc as <-. injection Hrun as <-. simpl. rewrite E1. simpl.
  by rewrite ?Ev1.
- simpl in Hrun. apply update_at_sets in Hrun. exact Hrun.
Qed.
End make_global.

(** ** The configuration is written in place *)

Lemma differ_by_lookup path c c' r r' :
  lookup_path path c = r → lookup_path path c' = r' → r ≠ r' → c' ≠ c.
Proof. intros <- <- Hne ->. done. Qed.

(** C9, as the specification states it, fails: building the dataset
    configuration, building the product configuration and processing the
    dataset each change the configuration dictionary, in the entry of the
    dataset. *)
Lemma configuration_is_mutated :
  (_create_dscfg_dict "a" Runs.product_planned).1 = Ok () ∧
  (_create_prdcfg_dict "a" "p1" (Some 7) Runs.product_dscfg).1 = Ok () ∧
  (@_process_dataset Runs.with_product "a" 0 None (Some 7) Runs.product_dscfg).1 =
    Ok (None, None) ∧
  cfg Runs.product_dscfg ≠ cfg Runs.product_planned ∧
  cfg Runs.product_prdcfg ≠ cfg Runs.product_dscfg ∧
  cfg Runs.product_processed ≠ cfg Runs.product_dscfg.
Proof.
  split; [vm_compute; reflexivity|].
  split; [vm_compute; reflexivity|].
  split; [vm_compute; reflexivity|].
  split; [|split].
  - apply (differ_by_lookup ["a"; "dsname"] _ _ (Raise (KeyError "dsname")) (Ok (VStr "a")));
      [vm_compute; reflexivity | vm_compute; reflexivity | discriminate].
  - apply (differ_by_lookup ["a"; "products"; "p1"; "prdname"] _ _
             (Raise (KeyError "prdname")) (Ok (VStr "p1")));
      [vm_compute; reflexivity | vm_compute; reflexivity | discriminate].
  - apply (differ_by_lookup ["a"; "timeinfo"] _ _ (Ok VNone) (Ok (VTime 7)));
      [vm_compute; reflexivity | vm_compute; reflexivity | discriminate].
Qed.

(** From a statement sequence that returns, the relation [R] between the
    world it starts in and the world it ends in. *)
Ltac finish_same R H Hp :=
  match type of H with
  | ?m ?w = (_, _) =>
      assert (preserves R m) as Hp by solve_same_item;
      specialize (Hp w); rewrite H in Hp; unfold same_item in Hp; cbn [snd app] in Hp
  end.

Lemma create_dscfg_dict_sets dataset w w1 :
  _create_dscfg_dict dataset w = (Ok (), w1) →
  lookup_path [dataset; "dsname"] (cfg w1) = Ok (VStr dataset) ∧
  lookup_path [dataset; "timeinfo"] (cfg w1) = Ok VNone ∧
  lookup_path [dataset; "initialized"] (cfg w1) = Ok (VInt 0) ∧
  lookup_path [dataset; "global_data"] (cfg w1) = Ok VNone.
Proof.
  intros Hrun. unfold _create_dscfg_dict in Hrun.
  pose proof Hrun as H1. pose proof Hrun as H2. pose proof Hrun as H3.
  split_and!.
  - skip_steps 11 Hrun. apply bind_ok_inv in Hrun as ([] & ? & Hset%update_at_sets & Hrun).
    finish_same (same_item ([dataset] ++ ["dsname"])) Hrun Hp. by rewrite Hp.
  - skip_steps 12 H1. apply bind_ok_inv in H1 as ([] & ? & Hset%update_at_sets & H1).
    finish_same (same_item ([dataset] ++ ["timeinfo"])) H1 Hp. by rewrite Hp.
  - skip_steps 13 H2. apply bind_ok_inv in H2 as ([] & ? & Hset%update_at_sets & H2).
    finish_same (same_item ([dataset] ++ ["initialized"])) H2 Hp. by rewrite Hp.
  - skip_steps 14 H3. apply bind_ok_inv in H3 as ([] & ? & Hset%update_at_sets & H3).
    finish_same (same_item ([dataset] ++ ["global_data"])) H3 Hp. by rewrite Hp.
Qed.

Lemma create_prdcfg_dict_sets dataset product voltime w w1 :
  _create_prdcfg_dict dataset product voltime w = (Ok (), w1) →
  lookup_path [dataset; "products"; product; "dsname"] (cfg w1) = Ok (VStr dataset) ∧
  lookup_path [dataset; "products"; product; "prdname"] (cfg w1) = Ok (VStr product).
Proof.
  intros Hrun. unfold _create_prdcfg_dict, update_if_present in Hrun.
  pose proof Hrun as H1. split.
  - skip_steps 11 Hrun. apply bind_ok_inv in Hrun as ([] & ? & Hset%update_at_sets & Hrun).
    finish_same (same_item ([dataset; "products"; product] ++ ["dsname"])) Hrun Hp.
    by rewrite Hp.
  - skip_steps 13 H1. apply bind_ok_inv in H1 as ([] & ? & Hset%update_at_sets & H1).
    finish_same (same_item ([dataset; "products"; product] ++ ["prdname"])) H1 Hp.
    by rewrite Hp.
Qed.

(** C9 amended: the configuration dictionary is written in place.
    [_create_dscfg_dict] stores its entries in [cfg[dataset]] itself,
    [_create_prdcfg_dict] in [cfg[dataset]['products'][product]], and both
    leave the entries of [cfg] under every other key as they are;
    [_process_dataset] writes the volume time into [cfg[dataset]] and hands
    that dictionary to the transform. *)
Theorem configuration_written_in_place `{Imports} dataset product st radar voltime
    wa wa' wb wb' wc wc' ret radar' :
  _create_dscfg_dict dataset wa = (Ok (), wa') →
  _create_prdcfg_dict dataset product voltime wb = (Ok (), wb') →
  _process_dataset dataset st radar voltime wc = (Ok (ret, radar'), wc') →
  (lookup_path [dataset; "dsname"] (cfg wa') = Ok (VStr dataset) ∧
   lookup_path [dataset; "timeinfo"] (cfg wa') = Ok VNone ∧
   lookup_path [dataset; "initialized"] (cfg wa') = Ok (VInt 0) ∧
   lookup_path [dataset; "global_data"] (cfg wa') = Ok VNone) ∧
  same_outside [dataset] wa wa' ∧
  (lookup_path [dataset; "products"; product; "dsname"] (cfg wb') = Ok (VStr dataset) ∧
   lookup_path [dataset; "products"; product; "prdname"] (cfg wb') = Ok (VStr product)) ∧
  same_outside [dataset] wb wb' ∧
  ∃ c d0, calls wc' = calls wc ++ [c] ∧
    lookup_path [dataset] (cfg wc) = Ok (VDict d0) ∧
    c_dscfg c = VDict (Dict.set "timeinfo" (time_value voltime) d0).
Proof.
  intros Ha Hb Hc. split; [|split; [|split; [|split]]].
  - exact (create_dscfg_dict_sets _ _ _ Ha).
  - pose proof (create_dscfg_dict_outside dataset wa) as Hp. by rewrite Ha in Hp.
  - exact (create_prdcfg_dict_sets _ _ _ _ _ Hb).
  - pose proof (create_prdcfg_dict_outside dataset product voltime wb) as Hp.
    by rewrite Hb in Hp.
  - apply process_dataset_returns in Hc
      as (c & f & Hcalls & _ & _ & _ & _ & (d0 & Hd0 & Hc) & _). eauto.
Qed.

Lemma configuration_written_in_place_witness :
  lookup_path ["a"; "dsname"] (cfg Runs.product_dscfg) = Ok (VStr "a").
Proof.
  refine (proj1 (proj1 (@configuration_written_in_place Runs.with_product
    "a" "p1" 0 None (Some 7)
    Runs.product_planned Runs.product_dscfg
    Runs.product_dscfg Runs.product_prdcfg
    Runs.product_dscfg Runs.product_processed None None _ _ _))).
  - vm_compute. reflexivity.
  - vm_compute. reflexivity.
  - vm_compute. reflexivity.
Defined.

(** ** The master data type *)

(** C4, as the specification states it, fails in its last case: without
    any required descriptor the master data type stays [None], no error is
    raised, [get_file_list] is called with [None], and with a file list
    that answers the run completes. *)
Lemma unresolved_master_is_none :
  @masterdatatype Runs.no_datatype [] = Ok None ∧
  @_get_masterfile_list Runs.no_datatype "scan0" [] 0 10 VNone = Ok (["vol1"], None) ∧
  p_datatypesdescr (Runs.plan_of Runs.no_datatype) = [] ∧
  p_masterdatatypedescr (Runs.plan_of Runs.no_datatype) = None ∧
  (Runs.run Runs.no_datatype).1 = Ok ().
Proof. repeat split; vm_compute; reflexivity. Qed.

Section master.
Context `{Imports}.

Lemma first_radar_datatype_spec datatypesdescr groups :
Forall2 group_of datatypesdescr groups →
first_radar_datatype datatypesdescr =
  Ok (fst <$> head (filter (λ dg, auxiliary dg.2 = false) (zip datatypesdescr groups))).
Proof.
induction 1 as [|d g ds gs (a & b & c & Hd) _ IH]; [done|].
simpl. rewrite Hd. simpl. rewrite filter_cons. simpl.
replace (negb (String.eqb g "COSMO") && negb (String.eqb g "RAD4ALPCOSMO")
         && negb (String.eqb g "DEM") && negb (String.eqb g "RAD4ALPDEM"))
  with (negb (auxiliary g)).
- destruct (auxiliary g); simpl; [exact IH | done].
- unfold auxiliary.
  destruct (String.eqb_spec g "COSMO") as [->|?]; [done|].
  destruct (String.eqb_spec g "RAD4ALPCOSMO") as [->|?]; [done|].
  destruct (String.eqb_spec g "DEM") as [->|?]; [done|].
  destruct (String.eqb_spec g "RAD4ALPDEM") as [->|?]; [done|].
  simpl. rewrite bool_decide_eq_false_2; [done|].
  rewrite !elem_of_cons, elem_of_nil. by intros [?|[?|[?|[?|[]]]]].
Qed.

Lemma reference_datatype_spec datatypesdescr groups :
Forall2 group_of datatypesdescr groups →
filter (λ dg, auxiliary dg.2 = false) (zip datatypesdescr groups) = [] →
reference_datatype datatypesdescr = Ok (family_default <$> head groups).
Proof.
destruct 1 as [|d g ds gs (a & b & c & Hd) _]; [done|].
simpl. rewrite Hd. simpl. rewrite filter_cons. simpl.
case_decide as Haux; [done|]. intros _.
apply not_false_is_true in Haux. unfold auxiliary in Haux.
apply bool_decide_eq_true_1 in Haux. unfold family_default.
destruct (String.eqb_spec g "COSMO") as [->|?]; [done|].
destruct (String.eqb_spec g "RAD4ALPCOSMO") as [->|?]; [done|].
destruct (String.eqb_spec g "DEM") as [->|?]; [done|].
destruct (String.eqb_spec g "RAD4ALPDEM") as [->|?]; [done|].
rewrite !elem_of_cons, elem_of_nil in Haux. by destruct Haux as [?|[?|[?|[?|[]]]]].
Qed.
End master.

(** C4 amended: [masterdatatype] is the resolution the specification
    describes in its first two cases: the first descriptor whose group is
    not auxiliary, else the default of the family of the first
    descriptor.  The third case raises nothing: the master data type is
    [None] exactly when no descriptor is required, and
    [_get_masterfile_list] passes it to [get_file_list] as it is. *)
Theorem master_datatype_resolution `{Imports} datatypesdescr groups
    masterscan starttime endtime datacfg :
  Forall2 group_of datatypesdescr groups →
  masterdatatype datatypesdescr = Ok (spec_masterdatatype datatypesdescr groups) ∧
  _get_masterfile_list masterscan datatypesdescr starttime endtime datacfg =
    (masterfilelist ← get_file_list masterscan
        (spec_masterdatatype datatypesdescr groups) starttime endtime datacfg;
     Ok (masterfilelist, spec_masterdatatype datatypesdescr groups)) ∧
  (spec_masterdatatype datatypesdescr groups = None ↔ datatypesdescr = []).
Proof.
  intros Hg.
  assert (masterdatatype datatypesdescr = Ok (spec_masterdatatype datatypesdescr groups))
    as Hm.
  { unfold masterdatatype, spec_masterdatatype.
    rewrite (first_radar_datatype_spec _ _ Hg). simpl.
    destruct (filter _ _) as [|[d g] l] eqn:Ef; simpl; [|done].
    by apply reference_datatype_spec. }
  split; [done|]. split.
  - unfold _get_masterfile_list. by rewrite Hm.
  - unfold spec_masterdatatype. destruct Hg as [|d g ds gs _ _]; [done|].
    simpl. rewrite filter_cons. simpl. case_decide; simpl.
    + split; done.
    + destruct (head _) as [[??]|]; split; done.
Qed.

Lemma master_datatype_resolution_witness :
  @masterdatatype Runs.no_volume ["COSMO:TEMP"; "RAD4ALP:dBZ"; "RAINBOW:dBZ"] =
    Ok (Some "RAD4ALP:dBZ") ∧
  @masterdatatype Runs.no_volume ["RAD4ALPDEM:VIS"; "COSMO:TEMP"] = Ok (Some "RAD4ALP:dBZ").
Proof.
  split.
  - refine (proj1 (@master_datatype_resolution Runs.no_volume
      ["COSMO:TEMP"; "RAD4ALP:dBZ"; "RAINBOW:dBZ"] ["COSMO"; "RAD4ALP"; "RAINBOW"]
      "scan0" 0 10 VNone _)).
    repeat constructor; by eexists _, _, _.
  - refine (proj1 (@master_datatype_resolution Runs.no_volume
      ["RAD4ALPDEM:VIS"; "COSMO:TEMP"] ["RAD4ALPDEM"; "COSMO"]
      "scan0" 0 10 VNone _)).
    repeat constructor; by eexists _, _, _.
Defined.

(** ** The list of required data types *)

(** C8, as the specification states it, fails: two declarations of the
    same category and field that name different sources are two entries
    of the list (the set holds the descriptors, not their category and
    field). *)
Lemma same_category_and_field_kept_apart :
  Descr.get_datatype_fields "CFRADIAL:dBZ,a,p1" = Ok ("CFRADIAL", "dBZ", Some "a", Some "p1") ∧
  Descr.get_datatype_fields "CFRADIAL:dBZ,b,p2" = Ok ("CFRADIAL", "dBZ", Some "b", Some "p2") ∧
  @_get_datatype_list Runs.no_volume Runs.sources_cfg =
    Ok ["CFRADIAL:dBZ,a,p1"; "CFRADIAL:dBZ,b,p2"; "RAINBOW:dBZ"].
Proof. repeat split; vm_compute; reflexivity. Qed.

Section datatype_list.
Context `{Imports}.

Lemma for_fold_elem_of {A} (body : gset string → A → result (gset string))
  (P : A → string → Prop) :
(∀ acc a acc', body acc a = Ok acc' → ∀ x, x ∈ acc' ↔ x ∈ acc ∨ P a x) →
∀ l acc acc', Res.for_fold body l acc = Ok acc' →
  ∀ x, x ∈ acc' ↔ x ∈ acc ∨ ∃ a, a ∈ l ∧ P a x.
Proof.
intros Hbody l. induction l as [|a l IH]; intros acc acc' Hfold x.
- injection Hfold as <-. split; [by left|]. intros [?|(a & Ha & _)]; [done|].
  by apply elem_of_nil in Ha.
- simpl in Hfold. destruct (body acc a) as [acc1|] eqn:E; [|done]. simpl in Hfold.
  rewrite (IH _ _ Hfold x), (Hbody _ _ _ E x). split.
  + intros [[?|?]|(a' & Ha' & ?)]; [by left | right; exists a | right; exists a'].
    * split; [apply list_elem_of_here | done].
    * split; [by apply list_elem_of_further | done].
  + intros [?|(a' & Ha' & ?)]; [by left; left|].
    apply elem_of_cons in Ha' as [->|Ha']; [by left; right | right; eauto].
Qed.

Lemma add_unless_proc_elem_of acc d acc' :
add_unless_proc acc d = Ok acc' → ∀ x, x ∈ acc' ↔ x ∈ acc ∨ (x = d ∧ nonproc d).
Proof.
unfold add_unless_proc. intros Hadd x.
destruct (get_datatype_fields d) as [[[[g a] b] c]|] eqn:E; [|done]. simpl in Hadd.
destruct (String.eqb_spec g "PROC") as [->|Hg]; simpl in Hadd; injection Hadd as <-.
- split; [by left|]. intros [?|[_ (g & (a' & b' & c' & Hg) & Hne)]]; [done|].
  rewrite E in Hg. by injection Hg as <-.
- rewrite elem_of_union, elem_of_singleton. split.
  + intros [->|?]; [right | by left]. split; [done|]. exists g. split; [|done].
    by exists a, b, c.
  + intros [?|[-> _]]; [by right | by left].
Qed.

Lemma declared_by_iff cfg descr proclevel dataset ds datatype x :
get_dataset_fields descr = Ok (proclevel, dataset) →
getitem cfg dataset = Ok ds →
getitem ds "datatype" = Ok datatype →
declared_by cfg descr x ↔
  match datatype with
  | VStr s => x = s
  | _ => ∃ l, iter datatype = Ok l ∧ x ∈ l
  end.
Proof.
intros Ed Eds Edt. split.
- intros (p' & d' & ds' & dt' & H1 & H2 & H3 & H4).
  rewrite Ed in H1. injection H1 as <- <-.
  rewrite Eds in H2. injection H2 as <-.
  rewrite Edt in H3. by injection H3 as <-.
- intros Hx. by exists proclevel, dataset, ds, datatype.
Qed.

Lemma declared_by_datatype cfg descr proclevel dataset ds x :
get_dataset_fields descr = Ok (proclevel, dataset) →
getitem cfg dataset = Ok ds →
declared_by cfg descr x → contains "datatype" ds = Ok true.
Proof.
intros Ed Eds (p' & d' & ds' & dt' & H1 & H2 & H3 & _).
rewrite Ed in H1. injection H1 as <- <-.
rewrite Eds in H2. injection H2 as <-.
destruct ds as [| | | | |d|]; try done. simpl in *. unfold Dict.mem.
by destruct (Dict.get "datatype" d).
Qed.

Lemma for_fold_add_unless_proc l acc acc' :
Res.for_fold add_unless_proc l acc = Ok acc' →
∀ x, x ∈ acc' ↔ x ∈ acc ∨ (x ∈ l ∧ nonproc x).
Proof.
intros Hfold x.
rewrite (for_fold_elem_of _ (λ a x, x = a ∧ nonproc a)
           add_unless_proc_elem_of _ _ _ Hfold x).
split; (intros [?|Hx]; [by left | right]).
- by destruct Hx as (a & Ha & -> & ?).
- destruct Hx as [??]. by exists x.
Qed.

Lemma datatype_body_elem_of cfg acc descr acc' :
('(proclevel, dataset) ← get_dataset_fields descr;
 ds ← getitem cfg dataset;
 contains "datatype" ds ≫= λ b : bool,
 if b then
   datatype ← getitem ds "datatype";
   match datatype with
   | VStr d => add_unless_proc acc d
   | _ => l ← iter datatype; Res.for_fold add_unless_proc l acc
   end
 else Ok acc) = Ok acc' →
∀ x, x ∈ acc' ↔ x ∈ acc ∨ (declared_by cfg descr x ∧ nonproc x).
Proof.
intros Hbody x.
destruct (get_dataset_fields descr) as [[proclevel dataset]|] eqn:Ed; [|done].
simpl in Hbody. destruct (getitem cfg dataset) as [ds|] eqn:Eds; [|done].
simpl in Hbody. destruct (contains "datatype" ds) as [[]|] eqn:Ec; simpl in Hbody.
- destruct (getitem ds "datatype") as [datatype|] eqn:Edt; [|done]. simpl in Hbody.
  rewrite (declared_by_iff _ _ _ _ _ _ x Ed Eds Edt).
  destruct datatype as [| |s| |l|dd|]; simpl in Hbody; try done.
  + rewrite (add_unless_proc_elem_of _ _ _ Hbody x).
    split; (intros [?|[Hx ?]]; [by left | right]); by subst.
  + rewrite (for_fold_add_unless_proc _ _ _ Hbody x). split.
    * intros [?|[??]]; [by left | right]. split; [by exists l | done].
    * intros [?|[(l' & [= <-] & ?) ?]]; [by left | by right].
  + rewrite (for_fold_add_unless_proc _ _ _ Hbody x). split.
    * intros [?|[??]]; [by left | right]. split; [by exists (Dict.keys dd) | done].
    * intros [?|[(l' & [= <-] & ?) ?]]; [by left | by right].
- injection Hbody as <-. split; [by left|]. intros [?|[Hd _]]; [done|].
  pose proof (declared_by_datatype _ _ _ _ _ _ Ed Eds Hd) as Hc.
  rewrite Ec in Hc. discriminate.
- done.
Qed.

Lemma datatype_set_elem_of cfg s :
datatype_set cfg = Ok s → ∀ d, d ∈ s ↔ required cfg d.
Proof.
unfold datatype_set, required. intros Hs d.
destruct (getitem cfg "dataSetList" ≫= iter) as [dataSetList|] eqn:El; [|done].
simpl in Hs.
apply (for_fold_elem_of _ (λ descr x, declared_by cfg descr x ∧ nonproc x)) with (x := d)
  in Hs; [|intros acc a acc'; apply datatype_body_elem_of].
rewrite Hs. split.
- intros [Hd|(descr & ? & ? & ?)]; [by apply not_elem_of_empty in Hd|].
  by exists dataSetList, descr.
- intros (l & descr & [= <-] & ? & ? & ?). right. by exists descr.
Qed.
End datatype_list.

(** C8 amended: the list of required data type descriptors has no
    duplicates and holds exactly the descriptors the datasets declare
    that are not of the group ['PROC']: two declarations of the same
    descriptor are one entry (declarations that share category and field
    but not the source are not the same descriptor).  The order of the
    declarations does not matter for what the list holds: two
    configurations that require the same descriptors give the same list
    up to the order of its entries, which is that of the enumeration of a
    set. *)
Theorem datatype_list_is_a_set `{Imports} cfg l :
  _get_datatype_list cfg = Ok l →
  NoDup l ∧
  (∀ d, d ∈ l ↔ required cfg d) ∧
  (∀ d, d ∈ l → ¬ group_of d "PROC") ∧
  (∀ cfg' l', _get_datatype_list cfg' = Ok l' →
     (∀ d, required cfg' d ↔ required cfg d) → l' ≡ₚ l).
Proof.
  unfold _get_datatype_list. intros Hl.
  destruct (datatype_set cfg) as [s|] eqn:Es; [|done]. injection Hl as <-.
  pose proof (datatype_set_elem_of cfg s Es) as Hs.
  assert (∀ d, d ∈ set_to_list s ↔ d ∈ s) as Hin.
  { intros d. by rewrite set_to_list_elements, elem_of_elements. }
  split; [rewrite set_to_list_elements; apply NoDup_elements|]. split; [|split].
  - intros d. by rewrite Hin.
  - intros d Hd%Hin%Hs (a & b & c & Hproc).
    destruct Hd as (_ & _ & _ & _ & _ & g & (a' & b' & c' & Hg) & Hne).
    rewrite Hproc in Hg. by injection Hg as <-.
  - intros cfg' l' Hl' Hreq.
    destruct (datatype_set cfg') as [s'|] eqn:Es'; [|done]. injection Hl' as <-.
    pose proof (datatype_set_elem_of cfg' s' Es') as Hs'.
    rewrite !set_to_list_elements.
    assert (s' = s) as ->; [|done]. apply set_eq. intros d. by rewrite Hs, Hs'.
Qed.

Lemma datatype_list_is_a_set_witness :
  NoDup ["CFRADIAL:dBZ,a,p1"; "CFRADIAL:dBZ,b,p2"; "RAINBOW:dBZ"].
Proof.
  refine (proj1 (@datatype_list_is_a_set Runs.no_volume Runs.sources_cfg
    ["CFRADIAL:dBZ,a,p1"; "CFRADIAL:dBZ,b,p2"; "RAINBOW:dBZ"] _)).
  vm_compute. reflexivity.
Defined.

(** ** Levels and the order of the datasets *)

Section levels.
Context `{Imports}.

Lemma sorted_Sorted dl : Sorted String.le (sorted dl).
Proof. apply (Sorted_merge_sort String.le). Qed.

Lemma sorted_Permutation dl : sorted dl ≡ₚ (map_to_list dl).*1.
Proof. apply merge_sort_Permutation. Qed.

Lemma sorted_NoDup dl : NoDup (sorted dl).
Proof. rewrite sorted_Permutation. apply NoDup_fst_map_to_list. Qed.

Lemma elem_of_sorted dl level : level ∈ sorted dl ↔ level ∈ dom dl.
Proof.
rewrite sorted_Permutation, elem_of_dom, list_elem_of_fmap. split.
- intros ([k l] & -> & Hkl%elem_of_map_to_list). by exists l.
- intros [l Hl]. exists (level, l). split; [done|]. by apply elem_of_map_to_list.
Qed.

Lemma datasets_of_add dl p level :
datasets_of (add_dataset_level dl p) level =
  datasets_of dl level ++ (if decide (p.1 = level) then [p.2] else []).
Proof.
unfold add_dataset_level, datasets_of. case_decide as Hl.
- subst level. by rewrite lookup_insert_eq.
- rewrite lookup_insert_ne by done. by rewrite app_nil_r.
Qed.

Lemma datasets_of_foldl parsed dl level :
datasets_of (foldl add_dataset_level dl parsed) level =
  datasets_of dl level ++ declared_at level parsed.
Proof.
unfold declared_at. revert dl. induction parsed as [|p parsed IH]; intros dl; simpl.
- by rewrite app_nil_r.
- rewrite IH, datasets_of_add, filter_cons.
  case_decide; simpl; by rewrite <-?(assoc_L (++)), ?app_nil_r.
Qed.

Lemma dom_foldl parsed (dl : gmap string (list string)) :
dom (foldl add_dataset_level dl parsed) = dom dl ∪ list_to_set parsed.*1.
Proof.
revert dl. induction parsed as [|p parsed IH]; intros dl; simpl.
- by rewrite (right_id_L ∅ (∪)).
- rewrite IH. unfold add_dataset_level. rewrite dom_insert_L. simpl.
  by rewrite (comm_L (∪) {[p.1]} (dom dl)), <-(assoc_L (∪)).
Qed.

(** The dictionary of levels [_get_datasets_list] returns. *)
Lemma get_datasets_list_eq cfg dataSetList parsed :
getitem cfg "dataSetList" ≫= iter = Ok dataSetList →
parses dataSetList parsed →
_get_datasets_list cfg = Ok (foldl add_dataset_level {["l0" := []]} parsed).
Proof.
unfold _get_datasets_list. intros -> Hp. simpl.
generalize ({["l0" := []]} : gmap string (list string)).
induction Hp as [|descr p l ps Hd _ IH]; intros dl; [done|].
simpl. rewrite Hd. destruct p as [proclevel dataset]. simpl.
replace (match dl !! proclevel with
         | Some l0 => Ok (<[proclevel:=l0 ++ [dataset]]> dl)
         | None => Ok (<[proclevel:=[dataset]]> dl)
         end) with (Ok (add_dataset_level dl (proclevel, dataset)) : result _).
- simpl. apply IH.
- unfold add_dataset_level, datasets_of. simpl. by destruct (dl !! proclevel).
Qed.

Lemma filter_or_Permutation {A} (P Q : A → Prop) `{!∀ x, Decision (P x)}
  `{!∀ x, Decision (Q x)} (l : list A) :
(∀ x, P x → Q x → False) →
filter (λ x, P x ∨ Q x) l ≡ₚ filter P l ++ filter Q l.
Proof.
intros Hdisj. induction l as [|x l IH]; [done|].
rewrite !filter_cons.
destruct (decide (P x)) as [HP|HP], (decide (Q x)) as [HQ|HQ].
- by destruct (Hdisj x).
- rewrite decide_True by auto. simpl. by rewrite IH.
- rewrite decide_True by auto. rewrite IH. apply Permutation_middle.
- rewrite decide_False by tauto. done.
Qed.

Lemma filter_all {A} (P : A → Prop) `{!∀ x, Decision (P x)} (l : list A) :
(∀ x, x ∈ l → P x) → filter P l = l.
Proof.
induction l as [|x l IH]; intros Hall; [done|].
rewrite filter_cons, decide_True by (apply Hall, list_elem_of_here).
f_equal. apply IH. intros y Hy. by apply Hall, list_elem_of_further.
Qed.

Lemma bind_declared_at levels parsed :
NoDup levels →
levels ≫= (λ level, declared_at level parsed) ≡ₚ
  (filter (λ p, p.1 ∈ levels) parsed).*2.
Proof.
unfold declared_at. induction 1 as [|level levels Hnotin _ IH].
- simpl. induction parsed as [|p parsed IHp]; [done|].
  rewrite filter_cons. rewrite decide_False; [done|]. apply not_elem_of_nil.
- rewrite bind_cons, IH, <-fmap_app. apply fmap_Permutation.
  rewrite <-filter_or_Permutation by (by intros p <- Hin).
  apply reflexive_eq, list_filter_iff. intros p. by rewrite elem_of_cons.
Qed.

(** Every pass visits each declared dataset as often as it is declared. *)
Lemma visit_order_declared cfg dataSetList parsed dl :
getitem cfg "dataSetList" ≫= iter = Ok dataSetList →
parses dataSetList parsed →
_get_datasets_list cfg = Ok dl →
visit_order dl ≡ₚ parsed.*2.
Proof.
intros Hl Hp Hdl. rewrite (get_datasets_list_eq _ _ _ Hl Hp) in Hdl.
injection Hdl as <-. unfold visit_order.
set (dl := foldl add_dataset_level {["l0" := []]} parsed).
assert (sorted dl ≫= datasets_of dl =
        sorted dl ≫= (λ level, declared_at level parsed)) as ->.
{ generalize (sorted dl). intros levels. induction levels as [|level levels IH]; [done|].
  rewrite !bind_cons, IH. f_equal. unfold dl. rewrite datasets_of_foldl.
  unfold datasets_of. destruct (decide (level = "l0")) as [->|Hne].
  - by rewrite lookup_singleton_eq.
  - by rewrite lookup_singleton_ne. }
rewrite (bind_declared_at _ _ (sorted_NoDup dl)).
rewrite filter_all; [done|]. intros q Hq.
apply elem_of_sorted. unfold dl. rewrite dom_foldl.
apply elem_of_union_r, elem_of_list_to_set, list_elem_of_fmap. by exists q.
Qed.
End levels.

(** X1: What holds of the order of a pass for every configuration: the levels
    are visited in the increasing order of their keys, which are strings;
    the level ['l0'] is always there; within a level the datasets are
    visited as they are declared. *)
Lemma level_plan `{Imports} cfg dataSetList parsed dl :
  getitem cfg "dataSetList" ≫= iter = Ok dataSetList →
  parses dataSetList parsed →
  _get_datasets_list cfg = Ok dl →
  Sorted String.le (sorted dl) ∧
  (∀ level, level ∈ sorted dl ↔ level = "l0" ∨ level ∈ parsed.*1) ∧
  "l0" ∈ dom dl ∧
  (∀ level, datasets_of dl level = declared_at level parsed) ∧
  visit_order dl = sorted dl ≫= λ level, declared_at level parsed.
Proof.
  intros Hl Hp Hdl. rewrite (get_datasets_list_eq _ _ _ Hl Hp) in Hdl.
  injection Hdl as <-.
  assert (∀ level, datasets_of (foldl add_dataset_level {["l0" := []]} parsed) level =
                   declared_at level parsed) as Hof.
  { intros level. rewrite datasets_of_foldl. unfold datasets_of.
    destruct (decide (level = "l0")) as [->|Hne].
    - by rewrite lookup_singleton_eq.
    - by rewrite lookup_singleton_ne. }
  split; [apply sorted_Sorted|]. split; [|split; [|split]].
  - intros level. rewrite elem_of_sorted, dom_foldl, dom_singleton_L.
    rewrite elem_of_union, elem_of_singleton, elem_of_list_to_set. done.
  - rewrite dom_foldl, dom_singleton_L. apply elem_of_union_l. by apply elem_of_singleton.
  - done.
  - unfold visit_order. generalize (sorted (foldl add_dataset_level {["l0" := []]} parsed)).
    intros levels. induction levels as [|level levels IH]; [done|].
    by rewrite !bind_cons, IH, Hof.
Qed.

(** C3: the levels are not visited in the order of their numbers.  With a
    dataset [a] of level 2 and a dataset [b] of level 10, the sorted keys
    are ['l0'], ['l10'], ['l2'], and every pass of the run calls [b] before
    [a]. *)
Theorem level_10_visited_before_level_2 :
  sorted (p_dataset_levels (Runs.plan_of Runs.levels_2_10)) = ["l0"; "l10"; "l2"] ∧
  visit_order (p_dataset_levels (Runs.plan_of Runs.levels_2_10)) = ["b"; "a"] ∧
  (Runs.run Runs.levels_2_10).1 = Ok () ∧
  key <$> calls (Runs.run Runs.levels_2_10).2 =
    [(0, "b"); (0, "a"); (1, "b"); (1, "a"); (2, "b"); (2, "a")].
Proof. repeat split; vm_compute; reflexivity. Qed.

Section plan_levels.
Context `{Imports}.

Lemma main_plan_levels cfgfile starttime endtime w p w1 :
main_plan cfgfile starttime endtime w = (Ok p, w1) →
_get_datasets_list (cfg w1) = Ok (p_dataset_levels p).
Proof.
unfold main_plan. intros Hp.
apply bind_ok_inv in Hp as (_ & w0 & _ & Hp).
apply bind_ok_inv in Hp as (datacfg & ? & [-> _]%read_lift_inv & Hp).
apply bind_ok_inv in Hp as (dtd & ? & [-> _]%read_lift_inv & Hp).
apply bind_ok_inv in Hp as (dl & ? & [-> Hdl]%read_lift_inv & Hp).
apply bind_ok_inv in Hp as (masterscan & ? & [-> _]%item_lift_inv & Hp).
apply bind_ok_inv in Hp as ([fl md] & ? & Hfl & Hp).
unfold Run.lift in Hfl. injection Hfl as _ <-. by injection Hp as <- <-.
Qed.
End plan_levels.

(** * Further properties of the flow control *)

(** ** Levels *)

Lemma level_plan_witness :
  datasets_of Runs.sources_levels "l1" =
    declared_at "l1" [("l0", "a"); ("l1", "b"); ("l1", "c")].
Proof.
  refine (proj1 (proj2 (proj2 (proj2 (@level_plan Runs.no_volume Runs.sources_cfg
    ["l0:a"; "l1:b"; "l1:c"] [("l0", "a"); ("l1", "b"); ("l1", "c")]
    Runs.sources_levels _ _ _)))) "l1").
  - reflexivity.
  - repeat constructor.
  - vm_compute. reflexivity.
Defined.

Lemma level_key_le m n :
  (m < 10)%nat → (n < 10)%nat → String.le (level_key m) (level_key n) ↔ (m ≤ n)%nat.
Proof.
  intros Hm Hn.
  do 10 (destruct m as [|m]; [
    do 10 (destruct n as [|n]; [
      (split; intros Hle; first [lia | exact I | by vm_compute in Hle]) |]); lia |]).
  lia.
Qed.

Lemma level_keys_numbers l :
  Forall (λ level, ∃ n, (n < 10)%nat ∧ level = level_key n) l →
  Sorted String.le l →
  ∃ numbers, l = level_key <$> numbers ∧ Forall (λ n, (n < 10)%nat) numbers ∧
             Sorted le numbers.
Proof.
  induction l as [|level l IH]; intros Hall Hs.
  - exists []. split; [done|]. split; constructor.
  - apply Forall_cons in Hall as [(n & Hn & ->) Hall].
    apply Sorted_inv in Hs as [Hs Hhd].
    destruct (IH Hall Hs) as (numbers & -> & Hlt & Hnum).
    exists (n :: numbers). split; [reflexivity|]. split; [by constructor|].
    constructor; [exact Hnum|].
    destruct numbers as [|m numbers]; constructor.
    apply Forall_cons in Hlt as [Hm _]. apply HdRel_inv in Hhd.
    exact (proj1 (level_key_le n m Hn Hm) Hhd).
Qed.

(** X2: With level numbers below ten the string order of the level keys is
    the order of the numbers: [sorted] lists the keys of strictly
    increasing level numbers, all below ten, so a level of a smaller
    number is visited before a level of a larger one. *)
Theorem single_digit_levels_in_numeric_order (dl : gmap string (list string)) :
  (∀ level, level ∈ dom dl → ∃ n, (n < 10)%nat ∧ level = level_key n) →
  ∃ numbers, sorted dl = level_key <$> numbers ∧
    Forall (λ n, (n < 10)%nat) numbers ∧ Sorted lt numbers.
Proof.
  intros Hdom.
  destruct (level_keys_numbers (sorted dl)) as (numbers & Hs & Hlt & Hle);
    [|apply sorted_Sorted|].
  { apply Forall_forall. intros level Hl. by apply Hdom, elem_of_sorted. }
  exists numbers. split; [done|]. split; [done|].
  pose proof (sorted_NoDup dl) as Hnd. rewrite Hs in Hnd.
  apply NoDup_fmap_1 in Hnd. clear Hs Hlt.
  induction Hle as [|n numbers Hle IH Hhd]; [constructor|].
  apply NoDup_cons in Hnd as [Hn Hnd]. constructor; [by apply IH|].
  destruct Hhd as [|m numbers Hnm]; constructor.
  assert (n ≠ m); [|lia]. intros ->. apply Hn, list_elem_of_here.
Qed.

Lemma single_digit_levels_in_numeric_order_witness :
  ∃ numbers, sorted Runs.sources_levels = level_key <$> numbers ∧
    Forall (λ n, (n < 10)%nat) numbers ∧ Sorted lt numbers.
Proof.
  apply single_digit_levels_in_numeric_order.
  intros level Hl. unfold Runs.sources_levels in Hl.
  rewrite dom_insert_L, dom_singleton_L in Hl.
  apply elem_of_union in Hl as [->%elem_of_singleton| ->%elem_of_singleton].
  - exists 0%nat. split; [lia | reflexivity].
  - exists 1%nat. split; [lia | reflexivity].
Defined.

(** ** The arguments of the transform calls *)

Section each_call.
Context `{Imports}.

Lemma each_call_quiet {A} P (m : M A) : preserves same_calls m → each_call P m.
Proof. intros Hm w. exists []. by rewrite (Hm w), app_nil_r. Qed.

Lemma each_call_bind {A B} P (m : M A) (f : A → M B) :
each_call P m → (∀ a, each_call P (f a)) → each_call P (m ≫= f).
Proof.
intros Hm Hf w. rewrite bind_run. destruct (Hm w) as (evs1 & E1 & P1).
destruct (m w) as [[a|e] w1]; simpl in *; [|by exists evs1].
destruct (Hf a w1) as (evs2 & E2 & P2). exists (evs1 ++ evs2).
rewrite E2, E1, (assoc_L (++)). split; [done|]. by apply Forall_app.
Qed.

Lemma each_call_mono {A} (P Q : call → Prop) (m : M A) :
(∀ c, P c → Q c) → each_call P m → each_call Q m.
Proof.
intros HPQ Hm w. destruct (Hm w) as (evs & E & HP). exists evs. split; [done|].
by eapply Forall_impl.
Qed.

Lemma each_call_for_acc {A S} (P : A → call → Prop) (body : S → A → M S) l s :
(∀ s x, x ∈ l → each_call (P x) (body s x)) →
each_call (λ c, ∃ x, x ∈ l ∧ P x c) (Run.for_acc body l s).
Proof.
revert s. induction l as [|x l IH]; intros s Hb; simpl.
- apply each_call_quiet. intros w. done.
- apply each_call_bind.
  + eapply each_call_mono; [|apply Hb, list_elem_of_here].
    intros c Hc. exists x. split; [apply list_elem_of_here | done].
  + intros s'. eapply each_call_mono; [|apply IH].
    * intros c (y & Hy & Hc). exists y. split; [by apply list_elem_of_further | done].
    * intros s'' y Hy. by apply Hb, list_elem_of_further.
Qed.

Lemma each_call_for_each {A} (P : A → call → Prop) (body : A → M unit) l :
(∀ x, x ∈ l → each_call (P x) (body x)) →
each_call (λ c, ∃ x, x ∈ l ∧ P x c) (Run.for_each body l).
Proof. intros Hb. apply each_call_for_acc. intros _. apply Hb. Qed.

(** The one call of [_process_dataset]: its status, dataset and radar
  object are the arguments, and the dataset configuration carries the
  volume time. *)
Lemma process_dataset_call dataset st radar voltime :
each_call (λ c, c_status c = st ∧ c_dataset c = dataset ∧ c_radar c = radar ∧
                c_timeinfo c = Ok (time_value voltime))
  (_process_dataset dataset st radar voltime).
Proof.
intros w. unfold _process_dataset. rewrite bind_run.
unfold Run.setitem_at. rewrite mutate_run.
destruct (at_path [dataset] _ (cfg w)) as [c1|e] eqn:E1.
2: { exists []. by rewrite app_nil_r. }
apply at_path_one_inv in E1 as (c0 & x & x' & Hc0 & Hx & Hx' & ->).
destruct x as [| | | | |d0|]; try done. injection Hx' as <-.
rewrite bind_run, bind_run, item_run.
destruct (lookup_path [dataset; "type"] _) as [ty|e]; cbn [Run.lift].
2: { exists []. by rewrite app_nil_r. }
destruct (get_process_type ty) as [[name fmt]|e].
2: { exists []. by rewrite app_nil_r. }
rewrite bind_run. cbn [Run.lift].
destruct (Res.of_option _ (proc name)) as [f|e].
2: { exists []. by rewrite app_nil_r. }
rewrite bind_run, call_proc_run. cbn [cfg set_cfg]. rewrite lookup_path_set.
destruct (at_path [dataset] _ _) as [c2|e].
2: { exists []. by rewrite app_nil_r. }
set (c := mkCall dataset name st (VDict (Dict.set "timeinfo" (time_value voltime) d0))
            radar (f st (VDict (Dict.set "timeinfo" (time_value voltime) d0)) radar).1).
assert (c_status c = st ∧ c_dataset c = dataset ∧ c_radar c = radar ∧
        c_timeinfo c = Ok (time_value voltime)) as Hc.
{ unfold c_timeinfo. simpl. by rewrite DictFacts.get_set_eq. }
destruct (f st _ radar).1 as [nd|e] eqn:Ef.
- exists [c]. split; [|by constructor].
  match goal with
  | |- calls (_ ?w2).2 = _ =>
      exact (after_call_quiet dataset voltime fmt radar nd w2)
  end.
- exists [c]. split; [done | by constructor].
Qed.
End each_call.

Section run_calls.
Context `{Imports}.

Lemma each_call_pass {S} (P : call → Prop) dl (body : S → string → M S) s :
(∀ s dataset, each_call (λ c, c_dataset c = dataset ∧ P c) (body s dataset)) →
each_call (λ c, c_dataset c ∈ visit_order dl ∧ P c)
  (Run.for_acc (λ s level, Run.for_acc body (datasets_of dl level) s) (sorted dl) s).
Proof.
intros Hb.
eapply each_call_mono;
  [|apply (each_call_for_acc
      (λ level c, ∃ dataset, dataset ∈ datasets_of dl level ∧
                             c_dataset c = dataset ∧ P c))].
- intros c (level & Hl & dataset & Hd & <- & HP). split; [|done].
  unfold visit_order. apply list_elem_of_bind. eauto.
- intros s' level _.
  apply (each_call_for_acc (λ dataset c, c_dataset c = dataset ∧ P c)).
  intros. apply Hb.
Qed.

Lemma each_call_pass_each (P : call → Prop) dl (body : string → M unit) :
(∀ dataset, each_call (λ c, c_dataset c = dataset ∧ P c) (body dataset)) →
each_call (λ c, c_dataset c ∈ visit_order dl ∧ P c)
  (Run.for_each (λ level, Run.for_each body (datasets_of dl level)) (sorted dl)).
Proof.
intros Hb.
eapply each_call_mono;
  [|apply (each_call_for_each
      (λ level c, ∃ dataset, dataset ∈ datasets_of dl level ∧
                             c_dataset c = dataset ∧ P c))].
- intros c (level & Hl & dataset & Hd & <- & HP). split; [|done].
  unfold visit_order. apply list_elem_of_bind. eauto.
- intros level _.
  apply (each_call_for_each (λ dataset c, c_dataset c = dataset ∧ P c)).
  intros. apply Hb.
Qed.

Lemma init_datasets_calls dl :
each_call (λ c, c_dataset c ∈ visit_order dl ∧
                c_status c = 0 ∧ c_radar c = None ∧ c_timeinfo c = Ok VNone)
  (init_datasets dl).
Proof.
apply (each_call_pass_each
         (λ c, c_status c = 0 ∧ c_radar c = None ∧ c_timeinfo c = Ok VNone)).
intros dataset.
apply each_call_bind; [apply each_call_quiet, create_dscfg_dict_calls | intros _].
apply each_call_bind; [apply each_call_quiet; solve_writes | intros _].
apply each_call_bind; [apply each_call_quiet; solve_writes | intros _].
apply each_call_bind; [|intros; apply each_call_quiet; solve_writes].
eapply each_call_mono; [|apply process_dataset_call].
simpl. intros c (? & ? & ? & ?). done.
Qed.

Lemma process_datasets_calls dl radar voltime :
each_call (λ c, c_dataset c ∈ visit_order dl ∧
                c_status c = 1 ∧ c_timeinfo c = Ok (VTime voltime))
  (process_datasets dl radar voltime).
Proof.
apply (each_call_pass (λ c, c_status c = 1 ∧ c_timeinfo c = Ok (VTime voltime))).
intros r dataset.
apply each_call_bind; [apply each_call_quiet; solve_writes | intros _].
apply each_call_bind; [|intros []; apply each_call_quiet; solve_writes].
eapply each_call_mono; [|apply process_dataset_call].
simpl. intros c (? & ? & ? & ?). done.
Qed.

Lemma postprocess_datasets_calls dl voltime :
each_call (λ c, c_dataset c ∈ visit_order dl ∧
                c_status c = 2 ∧ c_radar c = None ∧
                c_timeinfo c = Ok (time_value voltime))
  (postprocess_datasets dl voltime).
Proof.
apply (each_call_pass_each
         (λ c, c_status c = 2 ∧ c_radar c = None ∧
               c_timeinfo c = Ok (time_value voltime))).
intros dataset.
apply each_call_bind; [apply each_call_quiet; solve_writes | intros _].
apply each_call_bind; [|intros; apply each_call_quiet; solve_writes].
eapply each_call_mono; [|apply process_dataset_call].
simpl. intros c (? & ? & ? & ?). done.
Qed.

Lemma process_file_calls dl dtd datacfg md masterfile :
each_call (λ c, c_dataset c ∈ visit_order dl ∧ c_status c = 1 ∧
                ∃ t, get_datetime masterfile md = Ok t ∧ c_timeinfo c = Ok (VTime t))
  (process_file dl dtd datacfg md masterfile).
Proof.
intros w. unfold process_file. rewrite bind_run. cbn [Run.lift].
destruct (get_datetime masterfile md) as [t|e] eqn:Et.
2: { exists []. by rewrite app_nil_r. }
revert w. change (each_call
  (λ c, c_dataset c ∈ visit_order dl ∧ c_status c = 1 ∧
        ∃ t0, Ok t = Ok t0 ∧ c_timeinfo c = Ok (VTime t0))
  (radar ← Run.lift (get_data t dtd datacfg);
   process_datasets dl radar t;; mret (Some t))).
apply each_call_bind; [apply each_call_quiet; solve_writes | intros radar].
apply each_call_bind; [|intros; apply each_call_quiet; solve_writes].
eapply each_call_mono; [|apply process_datasets_calls].
simpl. intros c (? & ? & ?). eauto.
Qed.

(** The loop over the master files leaves the time of the last one. *)
Lemma process_files_voltime dl dtd datacfg md files s w vt w' :
Run.for_acc (λ _ masterfile, process_file dl dtd datacfg md masterfile) files s w
  = (Ok vt, w') →
(files = [] ∧ vt = s) ∨
(∃ masterfile t, last files = Some masterfile ∧
                 get_datetime masterfile md = Ok t ∧ vt = Some t).
Proof.
revert s w. induction files as [|f files IH]; intros s w Hrun.
- left. by injection Hrun as <- _.
- right. simpl in Hrun. apply bind_ok_inv in Hrun as (v & w1 & Hf & Hrun).
  assert (∃ t, get_datetime f md = Ok t ∧ v = Some t) as (t & Ht & ->).
  { unfold process_file in Hf.
    apply bind_ok_inv in Hf as (t & ? & Ht & Hf). unfold Run.lift in Ht.
    injection Ht as Ht <-.
    apply bind_ok_inv in Hf as (radar & ? & _ & Hf).
    apply bind_ok_inv in Hf as (? & ? & _ & Hf). injection Hf as <- _. eauto. }
  apply IH in Hrun as [[-> ->]|(g & t' & Hlast & Hg & ->)].
  + by exists f, t.
  + exists g, t'. split; [|done]. destruct files; [done|]. exact Hlast.
Qed.
End run_calls.

(** X3: In every run, whether it completes or not, a transform is called for
    a dataset of the level dictionary only; with status 0 it gets no radar
    object and [timeinfo] is [None]; with status 1 [timeinfo] is the time
    of one of the master files; with status 2 it gets no radar object and
    [timeinfo] is the time of the last master file. *)
Theorem run_call_arguments `{Imports} (p : plan) w :
  ∃ evs, calls (main_run p w).2 = calls w ++ evs ∧ Forall (run_call p) evs.
Proof.
  unfold main_run. case_bool_decide as Hn.
  { exists []. rewrite app_nil_r. split; [|done]. rewrite bind_run.
    pose proof (no_volume_error_eq (p_masterdatatypedescr p) w) as Hw.
    by destruct (no_volume_error _ w) as [[e|e] w1]; simpl in *; subst w1. }
  rewrite bind_run.
  destruct (init_datasets_calls (p_dataset_levels p) w) as (evs0 & E0 & P0).
  assert (Forall (run_call p) evs0) as Q0.
  { eapply Forall_impl; [exact P0|]. intros c (? & ? & ? & ?). split; [done|]. by left. }
  destruct (init_datasets _ w) as [[[]|e] w0]; simpl in *; [|by exists evs0].
  rewrite bind_run.
  pose proof (each_call_for_acc
    (λ masterfile c, c_dataset c ∈ visit_order (p_dataset_levels p) ∧ c_status c = 1 ∧
       ∃ t, get_datetime masterfile (p_masterdatatypedescr p) = Ok t ∧
            c_timeinfo c = Ok (VTime t))
    (λ _ masterfile, process_file (p_dataset_levels p) (p_datatypesdescr p) (p_datacfg p)
                       (p_masterdatatypedescr p) masterfile)
    (p_masterfilelist p) None (λ _ f _, process_file_calls _ _ _ _ f) w0)
    as (evs1 & E1 & P1).
  assert (Forall (run_call p) evs1) as Q1.
  { eapply Forall_impl; [exact P1|]. intros c (f & Hf & ? & ? & t & ? & ?).
    split; [done|]. right. left. split; [done|]. by exists f, t. }
  pose proof (process_files_voltime (p_dataset_levels p) (p_datatypesdescr p) (p_datacfg p)
                (p_masterdatatypedescr p) (p_masterfilelist p) None w0) as Hvt.
  unfold process_files.
  destruct (Run.for_acc _ (p_masterfilelist p) None w0) as [[vt|e] w1]; simpl in *.
  2: { exists (evs0 ++ evs1). rewrite E1, E0, (assoc_L (++)). split; [done|].
       by apply Forall_app. }
  destruct (Hvt vt w1 eq_refl) as [[Hnil _]|(f & t & Hlast & Ht & ->)].
  { rewrite Hnil in Hn. done. }
  destruct (postprocess_datasets_calls (p_dataset_levels p) (Some t) w1)
    as (evs2 & E2 & P2).
  exists (evs0 ++ evs1 ++ evs2). rewrite E2, E1, E0, !(assoc_L (++)). split; [done|].
  rewrite !Forall_app. split; [done|].
  eapply Forall_impl; [exact P2|]. intros c (? & ? & ? & ?).
  split; [done|]. right. right. split; [done|]. split; [done|]. by exists f, t.
Qed.

(** X4: The transform calls of [main], in their order: none while the
    configuration is read; then a prefix of the schedule (the
    initialisation pass, one pass for each master file, the
    post-processing pass), and the whole schedule when [main] returns. *)
Theorem main_calls_follow_schedule `{Imports} cfgfile starttime endtime w :
  match (main_plan cfgfile starttime endtime w).1 with
  | Raise e =>
      (main cfgfile starttime endtime w).1 = Raise e ∧
      calls (main cfgfile starttime endtime w).2 = calls w
  | Ok p =>
      ∃ evs, calls (main cfgfile starttime endtime w).2 = calls w ++ evs ∧
        key <$> evs `prefix_of` schedule (p_dataset_levels p) (p_masterfilelist p) ∧
        ((main cfgfile starttime endtime w).1 = Ok () →
         key <$> evs = schedule (p_dataset_levels p) (p_masterfilelist p))
  end.
Proof.
  unfold main. rewrite bind_run.
  pose proof (main_plan_calls cfgfile starttime endtime w) as Hq. unfold same_calls in Hq.
  destruct (main_plan cfgfile starttime endtime w) as [[p|e] w1]; simpl in *; [|done].
  destruct (main_run_traced p w1) as (evs & E & K). exists evs.
  rewrite E, Hq. split; [done|].
  destruct (main_run p w1).1 as [[]|e]; simpl in K.
  - split; [by rewrite K | done].
  - split; [done | intros [=]].
Qed.

(** ** Merging a dataset into the volume *)

Lemma add_fields_inv new_dataset radar radar' :
  add_fields new_dataset radar = Ok radar' →
  accepts radar new_dataset ∧ nrays radar' = nrays radar ∧ ngates radar' = ngates radar.
Proof.
  unfold accepts, add_fields. revert radar'.
  apply (map_fold_weak_ind (λ acc (m : gmap string Field), ∀ radar',
    acc = Ok radar' →
    (∀ name dic, m !! name = Some dic → f_shape dic = Some (nrays radar, ngates radar)) ∧
    nrays radar' = nrays radar ∧ ngates radar' = ngates radar)).
  - intros radar' [= <-]. split; [|done]. intros name dic Hl. by rewrite lookup_empty in Hl.
  - intros name dic m acc Hname IH radar' Hadd.
    destruct acc as [r|e]; [|done]. destruct (IH r eq_refl) as (Hm & Hr & Hg).
    simpl in Hadd. unfold add_field in Hadd. rewrite andb_false_r in Hadd.
    destruct (f_shape dic) as [shape|] eqn:Es; [|done].
    case_bool_decide as Hshape; [|done]. injection Hadd as <-. simpl.
    split; [|done]. intros name' dic' Hl.
    destruct (decide (name = name')) as [<-|Hne].
    + rewrite lookup_insert_eq in Hl. injection Hl as <-. by rewrite Es, Hshape, Hr, Hg.
    + rewrite lookup_insert_ne in Hl by done. by eapply Hm.
Qed.

(** X5: With a volume and [make_global] set, [_add_dataset] returns exactly
    when every field of the new dataset has data of the shape of the
    volume, and raises otherwise: it never skips a field.  When it
    returns, the value is 0, the volume keeps its shape, holds every field
    of the new dataset, and keeps every field the new dataset does not
    have. *)
Theorem add_dataset_returns_iff_accepted new_dataset radar make_global :
  truthy make_global = true →
  (is_ok (_add_dataset new_dataset (Some radar) make_global) = true ↔
   accepts radar new_dataset) ∧
  ∀ ret radar',
    _add_dataset new_dataset (Some radar) make_global = Ok (ret, radar') →
    ret = Some 0 ∧
    ∃ r, radar' = Some r ∧ nrays r = nrays radar ∧ ngates r = ngates radar ∧
      (∀ name dic, fields new_dataset !! name = Some dic → fields r !! name = Some dic) ∧
      (∀ name, fields new_dataset !! name = None → fields r !! name = fields radar !! name).
Proof.
  intros Hg. unfold _add_dataset. rewrite Hg. simpl. split.
  - split.
    + destruct (add_fields new_dataset radar) as [r|e] eqn:Ea; [|done].
      intros _. by apply add_fields_inv in Ea as [? _].
    + intros Ha. by rewrite (add_fields_union _ _ Ha).
  - intros ret radar' Hadd.
    destruct (add_fields new_dataset radar) as [r|e] eqn:Ea; [|done].
    injection Hadd as <- <-. split; [done|]. exists r.
    pose proof Ea as [Ha _]%add_fields_inv.
    rewrite (add_fields_union _ _ Ha) in Ea. injection Ea as <-. simpl.
    split; [done|]. split; [done|]. split; [done|]. split.
    + intros name dic Hl. by apply lookup_union_Some_l.
    + intros name Hl. by apply lookup_union_r.
Qed.

Lemma add_dataset_returns_iff_accepted_witness :
  is_ok (_add_dataset (mkRadar 1 1 {["dBZ" := Sample.field_of 5]}) (Some Sample.empty_volume) (VInt 1)) = true ↔
  accepts Sample.empty_volume (mkRadar 1 1 {["dBZ" := Sample.field_of 5]}).
Proof.
  refine (proj1 (add_dataset_returns_iff_accepted (mkRadar 1 1 {["dBZ" := Sample.field_of 5]})
                   Sample.empty_volume (VInt 1) _)).
  reflexivity.
Defined.

(** ** The defaults of the configuration *)

Lemma with_default_getitem c kx c' k v :
  with_default c kx = Ok c' → getitem c k = Ok v → getitem c' k = Ok v.
Proof.
  destruct kx as [k0 x]. unfold with_default. destruct c as [| | | | |d|]; try done.
  simpl. unfold Dict.mem. destruct (Dict.get k0 d) as [v0|] eqn:E0; simpl.
  - by intros [= <-].
  - intros [= <-] Hk. simpl. rewrite DictFacts.get_set_ne; [done|].
    intros ->. by rewrite E0 in Hk.
Qed.

Lemma with_default_other c kx c' k :
  with_default c kx = Ok c' → k ≠ kx.1 →
  getitem c' k = getitem c k ∧ is_missing k c' = is_missing k c.
Proof.
  destruct kx as [k0 x]. unfold with_default, is_missing. simpl.
  destruct (contains k0 c) as [[]|] eqn:E0; simpl; [by intros [= <-]| |done].
  destruct c as [| | | | |d|]; try done. simpl. intros [= <-] Hne. simpl.
  unfold Dict.mem. by rewrite DictFacts.get_set_ne.
Qed.

Lemma with_default_contains c kx c' :
  with_default c kx = Ok c' →
  contains kx.1 c' = Ok true ∧ (is_missing kx.1 c = true → getitem c' kx.1 = Ok kx.2).
Proof.
  destruct kx as [k0 x]. unfold with_default, is_missing. simpl.
  destruct (contains k0 c) as [[]|] eqn:E0; simpl; [by intros [= <-]| |done].
  destruct c as [| | | | |d|]; try done. simpl. intros [= <-]. simpl.
  unfold Dict.mem. by rewrite DictFacts.get_set_eq.
Qed.

Lemma with_default_contains_mono c kx c' k :
  with_default c kx = Ok c' → contains k c = Ok true → contains k c' = Ok true.
Proof.
  destruct kx as [k0 x]. unfold with_default. simpl.
  destruct (contains k0 c) as [[]|] eqn:E0; simpl; [by intros [= <-]| |done].
  destruct c as [| | | | |d|]; try done. simpl. intros [= <-]. simpl.
  unfold Dict.mem. destruct (decide (k0 = k)) as [->|Hne].
  - by rewrite DictFacts.get_set_eq.
  - by rewrite DictFacts.get_set_ne.
Qed.

Lemma with_defaults_spec l c c' :
  Res.for_fold with_default l c = Ok c' →
  (∀ k v, getitem c k = Ok v → getitem c' k = Ok v) ∧
  (∀ k, contains k c = Ok true → contains k c' = Ok true) ∧
  (∀ k, k ∉ l.*1 → getitem c' k = getitem c k) ∧
  (∀ k x, (k, x) ∈ l → contains k c' = Ok true) ∧
  (NoDup l.*1 → ∀ k x, (k, x) ∈ l → is_missing k c = true → getitem c' k = Ok x).
Proof.
  revert c. induction l as [|kx l IH]; intros c Hf; simpl in Hf.
  - injection Hf as <-. split_and!; try done.
    + intros k x Hin. by apply elem_of_nil in Hin.
    + intros _ k x Hin. by apply elem_of_nil in Hin.
  - destruct (with_default c kx) as [c1|] eqn:E1; [|done]. simpl in Hf.
    destruct (IH c1 Hf) as (Hget & Hmono & Hother & Hin & Hmiss).
    split; [|split; [|split; [|split]]].
    + intros k v Hk. eapply Hget, with_default_getitem; done.
    + intros k Hk. eapply Hmono, with_default_contains_mono; done.
    + intros k Hk. rewrite fmap_cons, not_elem_of_cons in Hk. destruct Hk as [Hne Hk].
      rewrite (Hother k Hk). by apply (with_default_other c kx c1 k E1).
    + intros k x [<-|Hl]%elem_of_cons; [|by eapply Hin].
      apply Hmono. by apply (with_default_contains c (k, x) c1 E1).
    + intros Hnd k x Hkx Hk. rewrite fmap_cons in Hnd. apply NoDup_cons in Hnd as [Hhd Hnd].
      apply elem_of_cons in Hkx as [<-|Hl].
      * apply Hget. by apply (with_default_contains c (k, x) c1 E1).
      * apply (Hmiss Hnd k x Hl).
        assert (k ≠ kx.1) as Hne.
        { intros ->. apply Hhd, list_elem_of_fmap. by exists (kx.1, x). }
        by rewrite (proj2 (with_default_other c kx c1 k E1 Hne)).
Qed.

Section cfg_defaults.
Context `{Imports}.

Lemma update_at_top_inv k x w w' :
Run.update_at [] k (mret x) w = (Ok (), w') →
∃ c', update (cfg w) k x = Ok c' ∧ w' = set_cfg c' w.
Proof.
unfold Run.update_at. intros Hu.
apply bind_ok_inv in Hu as (obj & ? & [= <- <-] & Hu).
apply bind_ok_inv in Hu as (? & ? & [= _ <-] & Hu).
apply bind_ok_inv in Hu as (? & ? & [= <- <-] & Hu).
rewrite mutate_run in Hu. simpl in Hu.
destruct (update (cfg w) k x) as [c'|]; [|done]. injection Hu as <-. by exists c'.
Qed.

Lemma fill_default_inv k x w w' :
fill_default k x w = (Ok (), w') →
∃ c', with_default (cfg w) (k, x) = Ok c' ∧ w' = set_cfg c' w.
Proof.
unfold fill_default, with_default. intros Hf.
apply bind_ok_inv in Hf as (b & ? & Hb & Hf).
unfold Run.contains_at in Hb. apply bind_ok_inv in Hb as (obj & ? & [= <- <-] & Hb).
unfold Run.lift in Hb. injection Hb as Hb <-. simpl. rewrite Hb. simpl.
destruct b; simpl in Hf.
- injection Hf as <-. exists (cfg w). by destruct w.
- by apply update_at_top_inv.
Qed.

Lemma warn_default_inv k msg x w w' :
(Run.contains_at [] k ≫= λ b : bool,
   if negb b then Run.warn msg;; Run.update_at [] k (mret x) else mret ()) w
  = (Ok (), w') →
∃ c', with_default (cfg w) (k, x) = Ok c' ∧ cfg w' = c' ∧
  dscfg w' = dscfg w ∧ calls w' = calls w ∧ generated w' = generated w ∧
  warnings w' = warnings w ++ (if is_missing k (cfg w) then [msg] else []).
Proof.
unfold with_default, is_missing. intros Hf.
apply bind_ok_inv in Hf as (b & ? & Hb & Hf).
unfold Run.contains_at in Hb. apply bind_ok_inv in Hb as (obj & ? & [= <- <-] & Hb).
unfold Run.lift in Hb. injection Hb as Hb <-. simpl. rewrite Hb. simpl.
destruct b; simpl in Hf.
- injection Hf as <-. exists (cfg w). by rewrite app_nil_r.
- apply bind_ok_inv in Hf as ([] & ? & [= <-] & Hf).
  apply update_at_top_inv in Hf as (c' & Hc' & ->). by exists c'.
Qed.

Lemma read_config_into_inv k w w' :
read_config_into k w = (Ok (), w') →
∃ c', (file ← getitem (cfg w) k; read_config file (cfg w)) = Ok c' ∧ w' = set_cfg c' w.
Proof.
unfold read_config_into. intros Hr.
apply bind_ok_inv in Hr as (file & ? & Hfile & Hr). rewrite item_run in Hfile.
injection Hfile as Hfile <-. simpl in Hfile.
apply bind_ok_inv in Hr as (c & ? & [= <- <-] & Hr).
apply bind_ok_inv in Hr as (c' & ? & Hc' & Hr). unfold Run.lift in Hc'.
injection Hc' as Hc' <-. injection Hr as <-. exists c'. split; [|done].
destruct (getitem (cfg w) k) as [f|]; [|done]. injection Hfile as ->. done.
Qed.

Lemma bind_ok_intro {A B} (m : M A) (f : A → M B) w a w1 r :
m w = (Ok a, w1) → f a w1 = r → (m ≫= f) w = r.
Proof. intros Hm Hf. by rewrite bind_run, Hm. Qed.

Lemma create_cfg_dict_inv cfgfile w w' :
_create_cfg_dict cfgfile w = (Ok (), w') →
∃ config, read_configs cfgfile = Ok config ∧
  Res.for_fold with_default cfg_defaults config = Ok (cfg w') ∧
  dscfg w' = dscfg w ∧ calls w' = calls w ∧ generated w' = generated w ∧
  warnings w' = warnings w ++
    (filter (λ km, is_missing km.1 config = true) default_messages).*2.
Proof.
unfold _create_cfg_dict. intros Hrun.
apply bind_ok_inv in Hrun as ([] & ? & [= <-] & Hrun).
apply bind_ok_inv in Hrun as ([] & ? & (c1 & Hc1 & ->)%read_config_into_inv & Hrun).
apply bind_ok_inv in Hrun as ([] & ? & (c2 & Hc2 & ->)%read_config_into_inv & Hrun).
apply bind_ok_inv in Hrun as ([] & ? & (c3 & Hc3 & ->)%read_config_into_inv & Hrun).
cbn [cfg set_cfg] in *.
exists c3. split.
{ unfold read_configs. rewrite Hc1. simpl. rewrite Hc2. simpl. exact Hc3. }
do 15 (apply bind_ok_inv in Hrun as ([] & ? & (? & ? & ->)%fill_default_inv & Hrun);
       cbn [cfg set_cfg] in * ).
apply bind_ok_inv in Hrun as (b16 & ? & Hb16 & Hrun).
apply bind_ok_inv in Hrun as ([] & w16 & Hw16 & Hrun).
match type of Hw16 with
| (if negb _ then Run.warn ?msg ≫= _ else _) _ = _ =>
    pose proof (bind_ok_intro (Run.contains_at [] "ScanPeriod")
      (λ b : bool, if negb b
                   then Run.warn msg;; Run.update_at [] "ScanPeriod" (mret (VInt 5))
                   else mret ()) _ _ _ _ Hb16 Hw16) as Hs16
end.
apply warn_default_inv in Hs16 as (c16 & Hc16 & Hcfg16 & Hd16 & Hcalls16 & Hg16 & Hwarn16).
cbn [cfg set_cfg dscfg calls generated warnings] in Hc16, Hd16, Hcalls16, Hg16, Hwarn16.
clear Hb16 Hw16.
apply bind_ok_inv in Hrun as (b17 & ? & Hb17 & Hrun).
apply bind_ok_inv in Hrun as ([] & w17 & Hw17 & Hrun).
match type of Hw17 with
| (if negb _ then Run.warn ?msg ≫= _ else _) _ = _ =>
    pose proof (bind_ok_intro (Run.contains_at [] "CosmoRunFreq")
      (λ b : bool, if negb b
                   then Run.warn msg;; Run.update_at [] "CosmoRunFreq" (mret (VInt 3))
                   else mret ()) _ _ _ _ Hb17 Hw17) as Hs17
end.
apply warn_default_inv in Hs17 as (c17 & Hc17 & Hcfg17 & Hd17 & Hcalls17 & Hg17 & Hwarn17).
clear Hb17 Hw17.
apply warn_default_inv in Hrun as (c18 & Hc18 & Hcfg18 & Hd18 & Hcalls18 & Hg18 & Hwarn18).
rewrite Hcfg17 in Hc18, Hwarn18. rewrite Hcfg16 in Hc17, Hwarn17.
assert (∀ k c kx c', with_default c kx = Ok c' → k ≠ kx.1 →
          is_missing k c' = is_missing k c) as Hm.
{ intros k c kx c' Hd Hne. by apply (with_default_other c kx c' k Hd Hne). }
split.
{ unfold cfg_defaults. simpl.
  repeat match goal with
  | Hd : with_default ?c _ = Ok _ |- context [with_default ?c _] => rewrite Hd; simpl
  end. by rewrite Hcfg18. }
split; [congruence|]. split; [congruence|]. split; [congruence|].
rewrite Hwarn18, Hwarn17, Hwarn16. rewrite <-!(assoc_L (++)). f_equal.
unfold default_messages. rewrite !filter_cons, filter_nil. cbn [fst snd].
rewrite (Hm "CosmoForecasted" _ _ _ Hc17), (Hm "CosmoForecasted" _ _ _ Hc16) by done.
rewrite (Hm "CosmoRunFreq" _ _ _ Hc16) by done.
repeat match goal with
| Hd : with_default ?c (?k0, ?x0) = Ok ?c' |- context [is_missing ?k ?c'] =>
    rewrite (Hm k c (k0, x0) c' Hd) by done
end.
repeat case_decide; destruct (is_missing "ScanPeriod" c3);
  destruct (is_missing "CosmoRunFreq" c3); destruct (is_missing "CosmoForecasted" c3);
  done.
Qed.
End cfg_defaults.

(** X6: When [_create_cfg_dict] returns, the configuration dictionary is what
    the three configuration files give, completed: a value the files give
    is never replaced; each of the eighteen keys with a default is in the
    dictionary, with its default when the files do not give it; every
    other key is as the files leave it; and one warning is recorded for
    each of ['ScanPeriod'], ['CosmoRunFreq'] and ['CosmoForecasted'] the
    files do not give, in this order. *)
Theorem create_cfg_dict_defaults `{Imports} cfgfile w w' :
  _create_cfg_dict cfgfile w = (Ok (), w') →
  ∃ config, read_configs cfgfile = Ok config ∧
    (∀ k v, getitem config k = Ok v → getitem (cfg w') k = Ok v) ∧
    (∀ k x, (k, x) ∈ cfg_defaults →
       contains k (cfg w') = Ok true ∧
       (is_missing k config = true → getitem (cfg w') k = Ok x)) ∧
    (∀ k, k ∉ cfg_defaults.*1 → getitem (cfg w') k = getitem config k) ∧
    warnings w' = warnings w ++
      (filter (λ km, is_missing km.1 config = true) default_messages).*2 ∧
    calls w' = calls w.
Proof.
  intros (config & Hconfig & Hfold & _ & Hcalls & _ & Hwarn)%create_cfg_dict_inv.
  exists config. split; [done|].
  destruct (with_defaults_spec _ _ _ Hfold) as (Hget & _ & Hother & Hin & Hmiss).
  split; [done|]. split; [|done].
  intros k x Hkx. split; [by eapply Hin|]. apply Hmiss; [|done].
  unfold cfg_defaults. simpl. apply (bool_decide_unpack _). vm_compute. reflexivity.
Qed.

Lemma create_cfg_dict_defaults_witness :
  ∃ config, @read_configs Runs.no_volume "main.cfg" = Ok config ∧
    (∀ k v, getitem config k = Ok v → getitem (cfg (Runs.configured Runs.no_volume)) k = Ok v) ∧
    (∀ k x, (k, x) ∈ cfg_defaults →
       contains k (cfg (Runs.configured Runs.no_volume)) = Ok true ∧
       (is_missing k config = true →
        getitem (cfg (Runs.configured Runs.no_volume)) k = Ok x)) ∧
    (∀ k, k ∉ cfg_defaults.*1 →
       getitem (cfg (Runs.configured Runs.no_volume)) k = getitem config k) ∧
    warnings (Runs.configured Runs.no_volume) = warnings world0 ++
      (filter (λ km, is_missing km.1 config = true) default_messages).*2 ∧
    calls (Runs.configured Runs.no_volume) = calls world0.
Proof.
  apply (@create_cfg_dict_defaults Runs.no_volume "main.cfg" world0).
  vm_compute. reflexivity.
Defined.

(** ** The data configuration *)

Section datacfg.
Context `{Imports}.

Ltac datacfg_steps Hd :=
repeat match type of Hd with
| context [getitem ?c ?k] =>
    let E := fresh "E" in
    destruct (getitem c k) as [?|] eqn:E; [|done]; simpl in Hd
| context [int ?v] =>
    let E := fresh "I" in
    destruct (int v) as [?|] eqn:E; [|done]; simpl in Hd
end.

Lemma create_datacfg_dict_inv c datacfg :
_create_datacfg_dict c = Ok datacfg →
∃ d, datacfg = VDict d ∧
  Dict.keys d = datacfg_copied ++ datacfg_periods ∧
  (∀ k, k ∈ datacfg_copied → getitem c k = Res.of_option (KeyError k) (Dict.get k d)) ∧
  (∀ k, k ∈ datacfg_periods →
     ∃ v z, getitem c k = Ok v ∧ int v = Ok z ∧ Dict.get k d = Some (VInt z)).
Proof.
unfold _create_datacfg_dict, copy_key, copy_int. intros Hd.
datacfg_steps Hd. injection Hd as <-. eexists. split; [reflexivity|].
split; [reflexivity|]. split.
- intros k Hk. unfold datacfg_copied in Hk.
  repeat (apply elem_of_cons in Hk as [->|Hk]; [done|]). by apply elem_of_nil in Hk.
- intros k Hk. unfold datacfg_periods in Hk.
  repeat (apply elem_of_cons in Hk as [->|Hk]; [by eexists _, _|]).
  by apply elem_of_nil in Hk.
Qed.
End datacfg.

(** X7: When [_create_datacfg_dict] returns, the data configuration is a new
    dictionary of eleven keys: eight hold the value the configuration has
    under the same key, and ['ScanPeriod'], ['CosmoRunFreq'] and
    ['CosmoForecasted'] hold the integer [int] makes of the value of the
    configuration.  So it raises when the configuration lacks one of the
    keys or [int] refuses one of the three values. *)
Theorem datacfg_holds_the_run_settings `{Imports} c datacfg :
  _create_datacfg_dict c = Ok datacfg →
  (∃ keys, iter datacfg = Ok keys ∧ keys = datacfg_copied ++ datacfg_periods) ∧
  (∀ k, k ∈ datacfg_copied → getitem datacfg k = getitem c k) ∧
  (∀ k, k ∈ datacfg_periods →
     ∃ v z, getitem c k = Ok v ∧ int v = Ok z ∧ getitem datacfg k = Ok (VInt z)).
Proof.
  intros (d & -> & Hkeys & Hcopied & Hint)%create_datacfg_dict_inv. simpl.
  split; [by exists (Dict.keys d)|]. split.
  - intros k Hk. by rewrite (Hcopied k Hk).
  - intros k Hk. destruct (Hint k Hk) as (v & z & ? & ? & Hd). exists v, z.
    by rewrite Hd.
Qed.

Lemma datacfg_holds_the_run_settings_witness :
  getitem (p_datacfg (Runs.plan_of Runs.no_volume)) "datapath" =
  getitem (cfg (Runs.configured Runs.no_volume)) "datapath".
Proof.
  refine (proj1 (proj2 (@datacfg_holds_the_run_settings Runs.no_volume
    (cfg (Runs.configured Runs.no_volume)) (p_datacfg (Runs.plan_of Runs.no_volume)) _))
    "datapath" _).
  - vm_compute. reflexivity.
  - apply list_elem_of_here.
Defined.

(** X8: After [_create_cfg_dict], [_create_datacfg_dict] needs nothing of the
    configuration files but ['datapath'] and ['ScanList'], and periods
    that [int] accepts: every other key it reads has a default. *)
Theorem datacfg_needs_datapath_and_scanlist `{Imports} cfgfile w w' datapath scanlist :
  _create_cfg_dict cfgfile w = (Ok (), w') →
  getitem (cfg w') "datapath" = Ok datapath →
  getitem (cfg w') "ScanList" = Ok scanlist →
  (∀ k v, k ∈ datacfg_periods → getitem (cfg w') k = Ok v → is_ok (int v) = true) →
  is_ok (_create_datacfg_dict (cfg w')) = true.
Proof.
  intros Hcfg Hpath Hscan Hint.
  apply create_cfg_dict_inv in Hcfg as (config & _ & Hfold & _).
  destruct (with_defaults_spec _ _ _ Hfold) as (_ & _ & _ & Hin & _).
  destruct (cfg w') as [| | | | |d|] eqn:Ec; try done.
  assert (∀ k, k ∈ cfg_defaults.*1 → ∃ v, getitem (VDict d) k = Ok v) as Hhas.
  { intros k ([k' x] & -> & Hkx)%list_elem_of_fmap. apply Hin in Hkx. simpl in *.
    unfold Dict.mem in Hkx. destruct (Dict.get k' d) as [v|]; [by exists v | done]. }
  assert (∀ k, k ∈ datacfg_periods → ∃ v z, getitem (VDict d) k = Ok v ∧ int v = Ok z)
    as Hper.
  { intros k Hk. destruct (Hhas k) as [v Hv].
    { unfold datacfg_periods in Hk. unfold cfg_defaults. simpl.
      repeat (apply elem_of_cons in Hk as [->|Hk];
              [apply (bool_decide_unpack _); vm_compute; reflexivity|]).
      by apply elem_of_nil in Hk. }
    specialize (Hint k v Hk Hv). destruct (int v) as [z|] eqn:Ez; [by exists v, z | done]. }
  unfold _create_datacfg_dict, copy_key, copy_int.
  rewrite Hpath. cbn [mbind result_bind Res.bind]. rewrite Hscan.
  cbn [mbind result_bind Res.bind].
  destruct (Hhas "cosmopath") as [? ->]; [apply (bool_decide_unpack _); vm_compute; reflexivity|].
  cbn [mbind result_bind Res.bind].
  destruct (Hhas "dempath") as [? ->]; [apply (bool_decide_unpack _); vm_compute; reflexivity|].
  cbn [mbind result_bind Res.bind].
  destruct (Hhas "loadbasepath") as [? ->]; [apply (bool_decide_unpack _); vm_compute; reflexivity|].
  cbn [mbind result_bind Res.bind].
  destruct (Hhas "loadname") as [? ->]; [apply (bool_decide_unpack _); vm_compute; reflexivity|].
  cbn [mbind result_bind Res.bind].
  destruct (Hhas "RadarName") as [? ->]; [apply (bool_decide_unpack _); vm_compute; reflexivity|].
  cbn [mbind result_bind Res.bind].
  destruct (Hhas "RadarRes") as [? ->]; [apply (bool_decide_unpack _); vm_compute; reflexivity|].
  cbn [mbind result_bind Res.bind].
  destruct (Hper "ScanPeriod") as (? & ? & -> & Hi1);
    [apply (bool_decide_unpack _); vm_compute; reflexivity|].
  cbn [mbind result_bind Res.bind]. rewrite Hi1. cbn [mbind result_bind Res.bind].
  destruct (Hper "CosmoRunFreq") as (? & ? & -> & Hi2);
    [apply (bool_decide_unpack _); vm_compute; reflexivity|].
  cbn [mbind result_bind Res.bind]. rewrite Hi2. cbn [mbind result_bind Res.bind].
  destruct (Hper "CosmoForecasted") as (? & ? & -> & Hi3);
    [apply (bool_decide_unpack _); vm_compute; reflexivity|].
  cbn [mbind result_bind Res.bind]. rewrite Hi3. done.
Qed.

Lemma datacfg_needs_datapath_and_scanlist_witness :
  is_ok (@_create_datacfg_dict Runs.no_volume (cfg (Runs.configured Runs.no_volume))) = true.
Proof.
  apply (@datacfg_needs_datapath_and_scanlist Runs.no_volume "main.cfg" world0
           (Runs.configured Runs.no_volume) (VStr "/data/") (VList ["scan0"])).
  - vm_compute. reflexivity.
  - vm_compute. reflexivity.
  - vm_compute. reflexivity.
  - intros k v Hk. unfold datacfg_periods in Hk.
    repeat (apply elem_of_cons in Hk as [->|Hk];
            [vm_compute; intros [= <-]; reflexivity|]).
    exfalso. exact (proj1 (elem_of_nil k) Hk).
Defined.

(** ** The dataset configuration *)

Lemma update_at_item_sets path k src w w' :
  Run.update_at path k (Run.item src) w = (Ok (), w') →
  ∃ x, lookup_path src (cfg w) = Ok x ∧ lookup_path (path ++ [k]) (cfg w') = Ok x.
Proof.
  unfold Run.update_at. intros Hu.
  apply bind_ok_inv in Hu as (obj & ? & [= _ <-] & Hu).
  apply bind_ok_inv in Hu as (? & ? & [= _ <-] & Hu).
  apply bind_ok_inv in Hu as (v & ? & Hx & Hu).
  rewrite item_run in Hx. injection Hx as Hx <-.
  rewrite mutate_run in Hu. destruct (at_path path _ (cfg w)) as [c'|] eqn:E; [|done].
  injection Hu as <-. exists v. split; [done|]. simpl. by eapply at_path_update_eq.
Qed.

Lemma lookup_path_one k c : lookup_path [k] c = getitem c k.
Proof. simpl. by destruct (getitem c k). Qed.

Lemma lookup_path_app path path' c :
  lookup_path (path ++ path') c = lookup_path path c ≫= lookup_path path'.
Proof.
  revert c. induction path as [|k path IH]; intros c; [done|].
  simpl. destruct (getitem c k) as [x|]; [apply IH | done].
Qed.

#[global] Instance both_po R1 R2 `{!PreOrder R1, !PreOrder R2} : PreOrder (both R1 R2).
Proof.
  split.
  - intros w. split; reflexivity.
  - intros x y z [??] [??]. split; etrans; done.
Qed.

Lemma preserves_both R1 R2 {A} (m : M A) :
  preserves R1 m → preserves R2 m → preserves (both R1 R2) m.
Proof. intros H1 H2 w. split; [apply H1 | apply H2]. Qed.

(** Follow the statements of a sequence up to the [update] of the key
    [k], keeping the relation [R]. *)
Ltac upto_update k R Hacc H tac :=
  repeat lazymatch type of H with
  | (Run.update_at _ k _ ≫= _) _ = _ => fail
  | (_ ≫= _) _ = _ => chain 1 R Hacc H tac
  end.

Ltac copied_entry dataset path k H Hne :=
  lazymatch type of H with
  | _ ?w = _ =>
      let Hacc := fresh "Hacc" in
      assert (same_outside [dataset] w w) as Hacc by done;
      upto_update k (same_outside [dataset]) Hacc H solve_writes;
      let Hstep := fresh "Hstep" in
      let Hsrc := fresh "Hsrc" in
      let Hset := fresh "Hset" in
      let Hp := fresh "Hp" in
      apply bind_ok_inv in H as ([] & ? & Hstep & H);
      apply update_at_item_sets in Hstep as (? & Hsrc & Hset);
      rewrite lookup_path_one in Hsrc;
      finish_same (same_item (path ++ [k])) H Hp;
      eexists; split;
        [etrans; [|exact Hsrc]; symmetry; apply Hacc;
         rewrite list_elem_of_singleton; exact Hne
        |rewrite Hp; exact Hset]
  end.

(** X9: When [_create_dscfg_dict] returns, the dataset configuration, which
    is the entry of the dataset in the configuration dictionary, holds
    under ['basepath'] the value of ['saveimgbasepath'], under
    ['procname'] the value of ['name'], and the eight run-wide settings
    under their own keys; so the function raises when one of them is not
    in the configuration.  Every entry of the dataset under another key
    than the fifteen the function writes is left as it was. *)
Theorem dscfg_takes_the_run_settings dataset w w' :
  _create_dscfg_dict dataset w = (Ok (), w') →
  (∀ k src, (k, src) ∈ dscfg_copies → src ≠ dataset →
     ∃ x, getitem (cfg w) src = Ok x ∧ lookup_path [dataset; k] (cfg w') = Ok x) ∧
  (∀ k, k ∉ dscfg_written →
     lookup_path [dataset; k] (cfg w') = lookup_path [dataset; k] (cfg w)).
Proof.
  intros Hrun. unfold _create_dscfg_dict in Hrun. split.
  - intros k src Hin Hne. unfold dscfg_copies in Hin.
    repeat (apply elem_of_cons in Hin as [[= -> ->]|Hin];
            [lazymatch goal with
             | |- ∃ x, _ ∧ lookup_path [_; ?key] _ = _ =>
                 copied_entry dataset [dataset] key Hrun Hne
             end|]).
    exfalso. exact (proj1 (elem_of_nil _) Hin).
  - intros k Hk. unfold dscfg_written, dscfg_copies in Hk. simpl in Hk.
    rewrite !not_elem_of_cons in Hk. destruct_and!.
    assert (preserves (same_item ([dataset] ++ [k])) (_create_dscfg_dict dataset)) as Hp.
    { unfold _create_dscfg_dict.
      repeat first [ preserves_step
                   | apply same_item_update_at; [by apply not_eq_sym|] ];
        auto with run. }
    specialize (Hp w). unfold _create_dscfg_dict in Hp. rewrite Hrun in Hp. exact Hp.
Qed.

Lemma dscfg_takes_the_run_settings_witness :
  ∃ x, getitem (cfg Runs.product_planned) "saveimgbasepath" = Ok x ∧
       lookup_path ["a"; "basepath"] (cfg Runs.product_dscfg) = Ok x.
Proof.
  refine (proj1 (dscfg_takes_the_run_settings "a" Runs.product_planned Runs.product_dscfg _)
            "basepath" "saveimgbasepath" _ _).
  - vm_compute. reflexivity.
  - unfold dscfg_copies. rewrite !elem_of_cons. do 8 right. left. reflexivity.
  - intros [=].
Defined.

(** ** The product configuration *)

Lemma at_path_sibling a b b' path f c c' :
  b ≠ b' → at_path (a :: b :: path) f c = Ok c' →
  lookup_path [a; b'] c' = lookup_path [a; b'] c.
Proof.
  intros Hne (d & y & y' & -> & Hy & Hy' & ->)%at_path_one_inv.
  rewrite (lookup_path_set_cons a [b']). simpl. rewrite Hy. simpl.
  apply at_path_one_inv in Hy' as (dy & z & z' & -> & Hz & Hz' & ->). simpl.
  by rewrite DictFacts.get_set_ne.
Qed.

Lemma same_item_sibling a b b' path k arg :
  b ≠ b' → preserves (same_item [a; b']) arg →
  preserves (same_item [a; b']) (Run.update_at (a :: b :: path) k arg).
Proof.
  intros Hne Harg. unfold Run.update_at. solve_preserves.
  intros w. unfold same_item. rewrite mutate_run.
  destruct (at_path _ _ (cfg w)) as [c'|] eqn:E; [|done].
  cbn [snd cfg]. by eapply at_path_sibling.
Qed.

Lemma update_if_present_sets path k w w1 :
  update_if_present path k w = (Ok (), w1) →
  match getitem (cfg w) k with
  | Ok x => lookup_path (path ++ [k]) (cfg w1) = Ok x
  | Raise _ => w1 = w
  end.
Proof.
  unfold update_if_present. intros Hu.
  apply bind_ok_inv in Hu as (b & ? & Hb & Hu).
  unfold Run.contains_at in Hb. rewrite bind_run, item_run in Hb. simpl in Hb.
  injection Hb as Hb <-. destruct b.
  - apply update_at_item_sets in Hu as (x & Hx & Hset).
    rewrite lookup_path_one in Hx. rewrite Hx. exact Hset.
  - injection Hu as <-. destruct (cfg w) as [| | | | |d|]; try done.
    simpl in *. injection Hb as Hb. unfold Dict.mem in Hb.
    by destruct (Dict.get k d).
Qed.

Lemma create_prdcfg_dict_timeinfo dataset product t w w' :
  _create_prdcfg_dict dataset product (Some t) w = (Ok (), w') →
  lookup_path [dataset; "products"; product; "timeinfo"] (cfg w') = Ok (VTime t).
Proof.
  intros Hrun. unfold _create_prdcfg_dict in Hrun.
  skip_steps 14 Hrun. by apply update_at_sets in Hrun.
Qed.

Ltac solve_same_sibling :=
  repeat first [ preserves_step | apply same_item_sibling; [done|] ]; auto with run.

(** Follow a sequence up to the test of the key [k] of the
    configuration, keeping the entries outside the dataset and the entry
    of the product under [k]. *)
Ltac optional_entry dataset path k H Hout :=
  lazymatch type of H with
  | _ ?w = _ =>
      let Hacc := fresh "Hacc" in
      assert (both (same_outside [dataset]) (same_item (path ++ [k])) w w) as Hacc
        by (split; reflexivity);
      repeat lazymatch type of H with
      | ((Run.contains_at [] k ≫= _) ≫= _) _ = _ => fail
      | (_ ≫= _) _ = _ =>
          chain 1 (both (same_outside [dataset]) (same_item (path ++ [k]))) Hacc H
            (apply preserves_both; [solve_writes | solve_same_item])
      end;
      let Hstep := fresh "Hstep" in
      let Hp := fresh "Hp" in
      apply bind_ok_inv in H as ([] & ? & Hstep & H);
      apply (update_if_present_sets path k) in Hstep;
      finish_same (same_item (path ++ [k])) H Hp;
      destruct Hacc as [Hacc1 Hacc2];
      rewrite (Hacc1 k Hout) in Hstep; rewrite Hp;
      destruct (getitem (cfg w) k); [exact Hstep | rewrite Hstep; exact Hacc2]
  end.

(** X10: When [_create_prdcfg_dict] returns, the product configuration, which
    is the entry of the product in the configuration dictionary, holds
    the seven run-wide settings of the configuration; an image
    configuration when the configuration has one, and otherwise what the
    product had under that key; under ['dstype'] the type of the dataset;
    and under ['timeinfo'] the volume time when one is given.  Without a
    volume time ['timeinfo'] is not written: the product keeps the time
    of an earlier call, or has none. *)
Theorem prdcfg_takes_the_run_settings dataset product voltime w w' :
  _create_prdcfg_dict dataset product voltime w = (Ok (), w') →
  (∀ k src, (k, src) ∈ prdcfg_copies → src ≠ dataset →
     ∃ x, getitem (cfg w) src = Ok x ∧
          lookup_path [dataset; "products"; product; k] (cfg w') = Ok x) ∧
  (∀ k, k ∈ prdcfg_optional → k ≠ dataset →
     lookup_path [dataset; "products"; product; k] (cfg w') =
       match getitem (cfg w) k with
       | Ok x => Ok x
       | Raise _ => lookup_path [dataset; "products"; product; k] (cfg w)
       end) ∧
  (∃ x, lookup_path [dataset; "type"] (cfg w) = Ok x ∧
        lookup_path [dataset; "products"; product; "dstype"] (cfg w') = Ok x) ∧
  lookup_path [dataset; "products"; product; "timeinfo"] (cfg w') =
    match voltime with
    | Some t => Ok (VTime t)
    | None => lookup_path [dataset; "products"; product; "timeinfo"] (cfg w)
    end.
Proof.
  intros Hrun. pose proof Hrun as Hrun0.
  unfold _create_prdcfg_dict, update_if_present in Hrun.
  split; [|split; [|split]].
  - intros k src Hin Hne. unfold prdcfg_copies in Hin.
    repeat (apply elem_of_cons in Hin as [[= -> ->]|Hin];
            [lazymatch goal with
             | |- ∃ x, _ ∧ lookup_path [_; _; _; ?key] _ = _ =>
                 copied_entry dataset [dataset; "products"; product] key Hrun Hne
             end|]).
    exfalso. exact (proj1 (elem_of_nil _) Hin).
  - intros k Hin Hne. unfold prdcfg_optional in Hin.
    assert (k ∉ [dataset]) as Hout by (by rewrite list_elem_of_singleton).
    repeat (apply elem_of_cons in Hin as [->|Hin];
      [lazymatch goal with
       | |- lookup_path [_; _; _; ?key] _ = _ =>
           optional_entry dataset [dataset; "products"; product] key Hrun Hout
       end|]).
    exfalso. exact (proj1 (elem_of_nil _) Hin).
  - assert (same_item [dataset; "type"] w w) as Hacc by done.
    upto_update "dstype" (same_item [dataset; "type"]) Hacc Hrun solve_same_sibling.
    apply bind_ok_inv in Hrun as ([] & ? & Hstep & Hrun).
    apply update_at_item_sets in Hstep as (ty & Hsrc & Hset).
    finish_same (same_item ([dataset; "products"; product] ++ ["dstype"])) Hrun Hp.
    exists ty. split; [by rewrite <-Hacc | by rewrite Hp].
  - destruct voltime as [t|].
    + by apply (create_prdcfg_dict_timeinfo dataset product t w w' Hrun0).
    + finish_same (same_item ([dataset; "products"; product] ++ ["timeinfo"])) Hrun Hp.
      exact Hp.
Qed.

Lemma prdcfg_takes_the_run_settings_witness :
  lookup_path ["a"; "products"; "p1"; "timeinfo"] (cfg Runs.product_prdcfg) = Ok (VTime 7).
Proof.
  refine (proj2 (proj2 (proj2 (prdcfg_takes_the_run_settings "a" "p1" (Some 7)
    Runs.product_dscfg Runs.product_prdcfg _)))).
  vm_compute. reflexivity.
Defined.

(** ** The products of a dataset *)

#[global] Instance same_generated_po : PreOrder same_generated.
Proof. split; [done | intros x y z; unfold same_generated; congruence]. Qed.

Section generated_primitives.
Lemma generated_write_cfg c : preserves same_generated (Run.write_cfg c).
Proof. done. Qed.
Lemma generated_warn msg : preserves same_generated (Run.warn msg).
Proof. done. Qed.
Lemma generated_log_call c : preserves same_generated (Run.log_call c).
Proof. done. Qed.
Lemma generated_bind_dscfg d : preserves same_generated (Run.bind_dscfg d).
Proof. done. Qed.
End generated_primitives.

#[global] Hint Resolve generated_write_cfg generated_warn generated_log_call
  generated_bind_dscfg : run.

Section products.
Context `{Imports}.

Lemma create_prdcfg_dict_generated dataset product voltime :
preserves same_generated (_create_prdcfg_dict dataset product voltime).
Proof. unfold _create_prdcfg_dict, update_if_present. solve_writes. Qed.


Lemma call_prod_run name f nd path w :
call_prod name f nd path w =
  match lookup_path path (cfg w) with
  | Raise e => (Raise e, w)
  | Ok prdcfg =>
      ((f nd prdcfg).1,
       mkWorld (cfg w) (dscfg w) (calls w)
         (generated w ++ [mkGenCall name nd prdcfg (f nd prdcfg).2]) (warnings w))
  end.
Proof.
unfold call_prod. rewrite bind_run, item_run.
destruct (lookup_path path (cfg w)) as [prdcfg|e]; [|done].
destruct (f nd prdcfg) as [[[]|e] ws]; done.
Qed.

(** The loop over the products of a dataset: one generator call for each
  product, in the order of the loop. *)
Lemma product_loop dataset voltime dsformat new_dataset products w w' :
Run.for_each (λ product,
  dsname ← Run.item [dataset; "dsname"] ≫= λ n, Run.lift (as_key n);
  _create_prdcfg_dict dsname product voltime;;
  prod_func_name ← Run.lift (get_product_type dsformat);
  prod_func ← Run.lift (Res.of_option (AttributeError prod_func_name)
                          (prod prod_func_name));
  call_prod prod_func_name prod_func new_dataset [dsname; "products"; product])
  products w = (Ok (), w') →
∃ gs, generated w' = generated w ++ gs ∧ calls w' = calls w ∧
      Forall2 (product_call new_dataset dsformat voltime) gs products.
Proof.
revert w. induction products as [|product products IH]; intros w Hrun.
- injection Hrun as <-. exists []. by rewrite app_nil_r.
- unfold Run.for_each in Hrun. simpl in Hrun.
  apply bind_ok_inv in Hrun as ([] & w5 & Hbody & Hrun).
  apply IH in Hrun as (gs & Hgs & Hcalls & Hall). clear IH.
  apply bind_ok_inv in Hbody as (dsname & w1 & Hds & Hbody).
  assert (w1 = w) as ->.
  { apply bind_ok_inv in Hds as (? & ? & [= _ <-] & Hds). by injection Hds as _ <-. }
  apply bind_ok_inv in Hbody as ([] & w2 & Hprd & Hbody).
  apply bind_ok_inv in Hbody as (name & ? & [= Hname <-] & Hbody).
  apply bind_ok_inv in Hbody as (f & ? & [= Hf <-] & Hbody).
  rewrite call_prod_run in Hbody.
  destruct (lookup_path [dsname; "products"; product] (cfg w2)) as [prdcfg|] eqn:Ep;
    [|done].
  injection Hbody as _ <-. cbn [generated calls] in Hgs, Hcalls.
  pose proof (create_prdcfg_dict_generated dsname product voltime w) as Hg.
  pose proof (create_prdcfg_dict_calls dsname product voltime w) as Hc.
  rewrite Hprd in Hg, Hc. unfold same_generated, same_calls in Hg, Hc. cbn [snd] in Hg, Hc.
  exists (mkGenCall name new_dataset prdcfg (f new_dataset prdcfg).2 :: gs).
  split; [by rewrite Hgs, Hg, <-(assoc_L (++))|]. split; [by rewrite Hcalls|].
  constructor; [|done]. split; [done|]. split; [done|]. split; [|split].
  + simpl. destruct (prod name); [by eexists | done].
  + simpl. apply create_prdcfg_dict_sets in Hprd as [_ Hn].
    change [dsname; "products"; product; "prdname"]
      with ([dsname; "products"; product] ++ ["prdname"]) in Hn.
    rewrite lookup_path_app, Ep in Hn. cbn [mbind result_bind Res.bind] in Hn.
    by rewrite lookup_path_one in Hn.
  + simpl. intros t ->. apply create_prdcfg_dict_timeinfo in Hprd.
    change [dsname; "products"; product; "timeinfo"]
      with ([dsname; "products"; product] ++ ["timeinfo"]) in Hprd.
    rewrite lookup_path_app, Ep in Hprd. cbn [mbind result_bind Res.bind] in Hprd.
    by rewrite lookup_path_one in Hprd.
Qed.
End products.

Lemma item_inv path w x w1 :
  Run.item path w = (Ok x, w1) → w1 = w ∧ lookup_path path (cfg w) = Ok x.
Proof. rewrite item_run. by intros [= ? ?]. Qed.

(** X11: A call of [_process_dataset] that returns has generated products
    only if the transform returned a dataset: then it returns 0 and the
    generator of the dataset format was called once for each product of
    the dataset configuration as the transform left it, in the order of
    that dictionary, each time with the dataset of the transform and the
    configuration of the product.  When the transform returned [None],
    [_process_dataset] returns [None] and no generator was called. *)
Theorem products_follow_the_transform `{Imports} dataset st radar voltime w ret radar' w' :
  _process_dataset dataset st radar voltime w = (Ok (ret, radar'), w') →
  ∃ c f ty dsformat,
    calls w' = calls w ++ [c] ∧ proc (c_func c) = Some f ∧
    getitem (c_dscfg c) "type" = Ok ty ∧
    get_process_type ty = Ok (c_func c, dsformat) ∧
    match c_result c with
    | Ok (Some new_dataset) =>
        ret = Some 0 ∧
        ∃ products gs,
          products_of (f st (c_dscfg c) radar).2 products ∧
          generated w' = generated w ++ gs ∧
          Forall2 (product_call new_dataset dsformat voltime) gs products
    | _ => ret = None ∧ generated w' = generated w
    end.
Proof.
  intros Hrun. unfold _process_dataset in Hrun.
  apply bind_ok_inv in Hrun as ([] & w1 & Hset & Hrun).
  apply bind_ok_inv in Hrun as ([name fmt] & ? & Hty & Hrun).
  apply bind_ok_inv in Hty as (ty & ? & Hitem & Hty).
  apply item_inv in Hitem as [-> Hitem].
  unfold Run.lift in Hty. injection Hty as Hty <-.
  apply bind_ok_inv in Hrun as (f & ? & Hf & Hrun).
  unfold Run.lift in Hf. injection Hf as Hf <-.
  apply bind_ok_inv in Hrun as (nd & w2 & Hcall & Hrun).
  unfold Run.setitem_at in Hset. rewrite mutate_run in Hset.
  destruct (at_path [dataset] _ (cfg w)) as [c1|] eqn:Ec1; [|done].
  injection Hset as <-.
  apply at_path_one_inv in Ec1 as (c0 & x & x' & Hc0 & Hx & Hx' & ->).
  destruct x as [| | | | |d0|]; try done. injection Hx' as <-.
  cbn [cfg set_cfg] in Hitem.
  change [dataset; "type"] with ([dataset] ++ ["type"]) in Hitem.
  rewrite lookup_path_app, lookup_path_set in Hitem.
  cbn [mbind result_bind Res.bind] in Hitem. rewrite lookup_path_one in Hitem.
  rewrite call_proc_run in Hcall. cbn [cfg set_cfg] in Hcall.
  rewrite lookup_path_set in Hcall.
  destruct (at_path [dataset] _ _) as [c2|] eqn:Ec2 in Hcall; [|done].
  injection Hcall as Hres <-.
  apply at_path_one_inv in Ec2 as (c1 & y & y' & [= <-] & _ & [= <-] & ->).
  set (dscfg0 := VDict (Dict.set "timeinfo" (time_value voltime) d0)) in *.
  eexists (mkCall dataset name st dscfg0 radar (f st dscfg0 radar).1), f, ty, fmt.
  cbn [c_func c_dscfg c_result].
  assert (proc name = Some f) as Hproc.
  { destruct (proc name) as [g|]; [by injection Hf as -> | done]. }
  rewrite Hres. destruct nd as [new_dataset|].
  - apply bind_ok_inv in Hrun as (mg & ? & Hmg & Hrun).
    rewrite item_run in Hmg. injection Hmg as _ <-.
    apply bind_ok_inv in Hrun as ([r0 radar1] & ? & Hadd & Hrun).
    unfold Run.lift in Hadd. injection Hadd as _ <-.
    apply bind_ok_inv in Hrun as (b & ? & Hb & Hrun).
    unfold Run.contains_at in Hb. rewrite bind_run, item_run in Hb.
    cbn [cfg] in Hb. rewrite lookup_path_set in Hb. unfold Run.lift in Hb.
    injection Hb as Hb <-.
    apply bind_ok_inv in Hrun as ([] & w4 & Hloop & Hrun).
    injection Hrun as <- _ <-.
    destruct b.
    + apply bind_ok_inv in Hloop as (products & ? & Hproducts & Hloop).
      apply bind_ok_inv in Hproducts as (p & ? & Hp & Hproducts).
      apply item_inv in Hp as [-> Hp]. cbn [cfg] in Hp.
      change [dataset; "products"] with ([dataset] ++ ["products"]) in Hp.
      rewrite lookup_path_app, lookup_path_set in Hp.
      cbn [mbind result_bind Res.bind] in Hp. rewrite lookup_path_one in Hp.
      unfold Run.lift in Hproducts. injection Hproducts as Hproducts <-.
      apply product_loop in Hloop as (gs & Hgs & Hcalls & Hall).
      cbn [generated calls] in Hgs, Hcalls.
      split; [by rewrite Hcalls, Hres|].
      split; [done|]. split; [done|]. split; [done|]. split; [done|].
      exists products, gs. split; [|done].
      right. split; [done|]. rewrite Hp. exact Hproducts.
    + injection Hloop as <-. cbn [generated calls].
      split; [by rewrite Hres|].
      split; [done|]. split; [done|]. split; [done|]. split; [done|].
      exists [], []. split; [by left|]. split; [by rewrite app_nil_r | constructor].
  - injection Hrun as <- _ <-. cbn [generated calls]. by rewrite Hres.
Qed.

Lemma products_follow_the_transform_witness :
  ∃ c f ty dsformat,
    calls Runs.product_volume = calls Runs.product_dscfg ++ [c] ∧
    @proc Runs.with_product (c_func c) = Some f ∧
    getitem (c_dscfg c) "type" = Ok ty ∧
    @get_process_type Runs.with_product ty = Ok (c_func c, dsformat) ∧
    match c_result c with
    | Ok (Some new_dataset) =>
        Some 0 = Some 0 ∧
        ∃ products gs,
          products_of (f 1 (c_dscfg c) (Some Sample.empty_volume)).2 products ∧
          generated Runs.product_volume = generated Runs.product_dscfg ++ gs ∧
          Forall2 (@product_call Runs.with_product new_dataset dsformat (Some 7)) gs products
    | _ => Some 0 = None ∧ generated Runs.product_volume = generated Runs.product_dscfg
    end.
Proof.
  apply (@products_follow_the_transform Runs.with_product "a" 1 (Some Sample.empty_volume)
           (Some 7) Runs.product_dscfg (Some 0) (Some Sample.empty_volume)
           Runs.product_volume).
  vm_compute. reflexivity.
Defined.

(** ** The sections of the datasets *)




(** ** The radar object during a pass *)

#[global] Instance extends_po : PreOrder extends.
Proof.
  split.
  - intros [r|]; simpl; [|done]. split; [done|]. split; [done|]. done.
  - intros [a|] [b|] [c|]; simpl; try done.
    intros (? & ? & ?) (? & ? & ?). split; [congruence|]. split; [congruence|].
    by etrans.
Qed.

Lemma add_dataset_extends new_dataset radar make_global ret radar' :
  _add_dataset new_dataset radar make_global = Ok (ret, radar') → extends radar radar'.
Proof.
  unfold _add_dataset. destruct radar as [r|]; [|by intros [= <- <-]].
  destruct (truthy make_global); simpl.
  - destruct (add_fields new_dataset r) as [r'|] eqn:Ea; [|done].
    intros [= <- <-]. simpl.
    pose proof Ea as (Ha & Hr & Hg)%add_fields_inv.
    rewrite (add_fields_union _ _ Ha) in Ea. injection Ea as <-. simpl.
    split; [done|]. split; [done|]. rewrite dom_union. apply union_subseteq_r.
  - intros [= <- <-]. simpl. split; [done|]. split; done.
Qed.

Lemma for_acc_ok_rel {A S} (R : relation S) `{!PreOrder R} (body : S → A → M S) l s w s' w' :
  (∀ s x w s' w', body s x w = (Ok s', w') → R s s') →
  Run.for_acc body l s w = (Ok s', w') → R s s'.
Proof.
  intros Hbody. revert s w. induction l as [|x l IH]; intros s w Hrun.
  - injection Hrun as <- _. reflexivity.
  - simpl in Hrun. apply bind_ok_inv in Hrun as (s1 & w1 & Hx & Hrun).
    etrans; [by eapply Hbody | by eapply IH].
Qed.

(** X13: During the pass over a volume the radar object is only added to:
    when [process_datasets] returns, the volume has the shape it had and
    every field it had, whatever the datasets merged into it; and without
    a volume there is none afterwards. *)
Theorem volume_only_grows `{Imports} dl radar voltime w radar' w' :
  process_datasets dl radar voltime w = (Ok radar', w') → extends radar radar'.
Proof.
  unfold process_datasets. apply for_acc_ok_rel; [apply _|].
  intros r level w1 r1 w2. apply for_acc_ok_rel; [apply _|].
  clear. intros r dataset w r' w' Hbody.
  apply bind_ok_inv in Hbody as ([] & w1 & _ & Hbody).
  apply bind_ok_inv in Hbody as ([ret r1] & w2 & Hp & Hbody).
  injection Hbody as <- _.
  apply process_dataset_returns in Hp as (c & f & _ & _ & _ & _ & _ & _ & _ & Hres).
  destruct (c_result c) as [[nd|]|]; [| |done].
  - destruct Hres as (_ & mg & r0 & _ & Hadd). by eapply add_dataset_extends.
  - destruct Hres as [_ ->]. reflexivity.
Qed.

Lemma volume_only_grows_witness :
  extends (Some Sample.empty_volume)
    (Some (mkRadar 1 1 {["dBZ" := Sample.field_of 2]})).
Proof.
  apply (@volume_only_grows Runs.two_global (p_dataset_levels (Runs.plan_of Runs.two_global))
           (Some Sample.empty_volume) 1 (Runs.initialised Runs.two_global)
           (Some (mkRadar 1 1 {["dBZ" := Sample.field_of 2]}))
           (Runs.after_volume Runs.two_global).2).
  vm_compute. reflexivity.
Defined.

(** ** Warnings *)

Section warns.
Context `{Imports}.






End warns.

(** ** The search for the master data type *)

Section master_search.
Context `{Imports}.

Lemma radar_test_auxiliary g :
negb (String.eqb g "COSMO") && negb (String.eqb g "RAD4ALPCOSMO")
  && negb (String.eqb g "DEM") && negb (String.eqb g "RAD4ALPDEM") = negb (auxiliary g).
Proof.
unfold auxiliary.
destruct (String.eqb_spec g "COSMO") as [->|?]; [done|].
destruct (String.eqb_spec g "RAD4ALPCOSMO") as [->|?]; [done|].
destruct (String.eqb_spec g "DEM") as [->|?]; [done|].
destruct (String.eqb_spec g "RAD4ALPDEM") as [->|?]; [done|].
simpl. rewrite bool_decide_eq_false_2; [done|].
rewrite !elem_of_cons, elem_of_nil. by intros [?|[?|[?|[?|[]]]]].
Qed.

Lemma first_radar_datatype_app pre groups rest :
Forall2 group_of pre groups → Forall (λ g, auxiliary g = true) groups →
first_radar_datatype (pre ++ rest) = first_radar_datatype rest.
Proof.
induction 1 as [|d g ds gs (a & b & c & Hd) _ IH]; intros Haux; [done|].
apply Forall_cons in Haux as [Hg Haux].
simpl. rewrite Hd. simpl. rewrite radar_test_auxiliary, Hg. simpl. by apply IH.
Qed.
End master_search.

(** X15: The search for the master data type stops at the first descriptor
    that is not of an auxiliary group: with auxiliary descriptors before
    it, that descriptor is the master data type and the one passed to
    [get_file_list], whatever follows it in the list, even descriptors
    that do not parse; and when the descriptor itself does not parse,
    [_get_masterfile_list] raises the error of [get_datatype_fields]. *)
Theorem master_search_stops_at_the_first `{Imports} pre groups d post
    masterscan starttime endtime datacfg :
  Forall2 group_of pre groups →
  Forall (λ g, auxiliary g = true) groups →
  match get_datatype_fields d with
  | Ok (g, _, _, _) =>
      auxiliary g = false →
      masterdatatype (pre ++ d :: post) = Ok (Some d) ∧
      _get_masterfile_list masterscan (pre ++ d :: post) starttime endtime datacfg =
        (masterfilelist ← get_file_list masterscan (Some d) starttime endtime datacfg;
         Ok (masterfilelist, Some d))
  | Raise e =>
      _get_masterfile_list masterscan (pre ++ d :: post) starttime endtime datacfg = Raise e
  end.
Proof.
  intros Hpre Haux. unfold _get_masterfile_list, masterdatatype.
  rewrite (first_radar_datatype_app pre groups (d :: post) Hpre Haux). simpl.
  destruct (get_datatype_fields d) as [[[[g a] b] c]|e]; simpl; [|done].
  intros Hg. by rewrite radar_test_auxiliary, Hg.
Qed.

Lemma master_search_stops_at_the_first_witness :
  @masterdatatype Runs.no_volume ["COSMO:TEMP"; "RAINBOW:dBZ"; "no descriptor"] =
    Ok (Some "RAINBOW:dBZ").
Proof.
  refine (proj1 (@master_search_stops_at_the_first Runs.no_volume
    ["COSMO:TEMP"] ["COSMO"] "RAINBOW:dBZ" ["no descriptor"] "scan0" 0 10 VNone _ _ _)).
  - repeat constructor. by eexists _, _, _.
  - repeat constructor.
  - reflexivity.
Defined.

(** ** What the dataset and product configurations need *)

Lemma at_path_progress path f c x x' :
  lookup_path path c = Ok x → f x = Ok x' →
  ∃ c', at_path path f c = Ok c' ∧ lookup_path path c' = Ok x'.
Proof.
  revert c. induction path as [|k path IH]; intros c Hx Hf.
  - injection Hx as ->. by exists x'.
  - simpl in Hx. destruct c as [| | | | |d|]; try done. simpl in Hx.
    destruct (Dict.get k d) as [y|] eqn:Ey; [|done]. simpl in Hx.
    destruct (IH y Hx Hf) as (y' & Hy' & Hl). exists (VDict (Dict.set k y' d)).
    simpl. rewrite Ey. simpl. rewrite Hy'. simpl. split; [done|].
    by rewrite DictFacts.get_set_eq.
Qed.

Lemma at_path_top a path f c c' s :
  at_path (a :: path) f c = Ok c' → is_ok (getitem c' s) = is_ok (getitem c s).
Proof.
  intros (d & y & y' & -> & Hy & Hy' & ->)%at_path_one_inv. simpl.
  destruct (decide (a = s)) as [->|Hne].
  - by rewrite DictFacts.get_set_eq, Hy.
  - by rewrite DictFacts.get_set_ne.
Qed.

Lemma at_path_beside path src f c c' :
  beside path src → at_path path f c = Ok c' →
  is_ok (lookup_path src c') = is_ok (lookup_path src c).
Proof.
  destruct path as [|a [|b path]], src as [|a' [|b' [|??]]]; cbn [beside]; try done.
  - intros _ Hat. rewrite !lookup_path_one. by eapply at_path_top.
  - intros _ Hat. rewrite !lookup_path_one. by eapply at_path_top.
  - intros [<- Hne] Hat. by rewrite (at_path_sibling a b b' path f c c' Hne Hat).
Qed.

Lemma succeeds_ret I {A} (a : A) : succeeds I (mret a).
Proof. intros w Hw. by exists a, w. Qed.

Lemma succeeds_bind I {A B} (m : M A) (f : A → M B) :
  succeeds I m → (∀ a, succeeds I (f a)) → succeeds I (m ≫= f).
Proof.
  intros Hm Hf w Hw. destruct (Hm w Hw) as (a & w1 & E1 & Hw1).
  destruct (Hf a w1 Hw1) as (b & w2 & E2 & Hw2). exists b, w2.
  by rewrite bind_run, E1.
Qed.

Lemma succeeds_item path srcs src :
  src ∈ srcs → succeeds (ready path srcs) (Run.item src).
Proof.
  intros Hsrc w Hw. rewrite item_run. destruct Hw as [Hd Hs].
  pose proof (Hs src Hsrc) as Hok.
  destruct (lookup_path src (cfg w)) as [x|] eqn:E; [|done].
  exists x, w. by split.
Qed.

Lemma succeeds_item_path path srcs : succeeds (ready path srcs) (Run.item path).
Proof.
  intros w Hw. rewrite item_run. destruct Hw as [[d Hd] Hs].
  exists (VDict d), w. rewrite Hd. split; [done|]. split; [by exists d | done].
Qed.

Lemma update_at_succeeds path srcs k arg w x :
  Forall (beside path) srcs → ready path srcs w → arg w = (Ok x, w) →
  ∃ w', Run.update_at path k arg w = (Ok (), w') ∧ ready path srcs w'.
Proof.
  intros Hbeside [[d Hd] Hs] Hx.
  destruct (at_path_progress path (λ obj, update obj k x) (cfg w) (VDict d)
              (VDict (Dict.set k x d)) Hd eq_refl) as (c' & Hc' & Hl).
  exists (set_cfg c' w). split.
  - unfold Run.update_at. rewrite bind_run, item_run, Hd.
    rewrite bind_run. cbn [Run.lift update]. rewrite bind_run, Hx.
    by rewrite mutate_run, Hc'.
  - split; [by eexists|]. intros src Hsrc. cbn [cfg set_cfg].
    rewrite (at_path_beside path src (λ obj, update obj k x) (cfg w) c');
      [by apply Hs | | done].
    by eapply Forall_forall in Hbeside.
Qed.

Lemma succeeds_update_at path srcs k arg :
  Forall (beside path) srcs →
  (∀ w, ready path srcs w → ∃ x, arg w = (Ok x, w)) →
  succeeds (ready path srcs) (Run.update_at path k arg).
Proof.
  intros Hbeside Harg w Hw. destruct (Harg w Hw) as [x Hx].
  destruct (update_at_succeeds path srcs k arg w x Hbeside Hw Hx) as (w' & E & Hw').
  by exists (), w'.
Qed.

Lemma succeeds_update_item path srcs k src :
  Forall (beside path) srcs → src ∈ srcs →
  succeeds (ready path srcs) (Run.update_at path k (Run.item src)).
Proof.
  intros Hbeside Hsrc. apply succeeds_update_at; [done|].
  intros w Hw. destruct (succeeds_item path srcs src Hsrc w Hw) as (x & w1 & E & _).
  exists x. rewrite item_run in E |- *. by injection E as -> _.
Qed.

Lemma succeeds_update_const path srcs k x :
  Forall (beside path) srcs →
  succeeds (ready path srcs) (Run.update_at path k (mret x)).
Proof. intros Hbeside. apply succeeds_update_at; [done|]. intros w _. by exists x. Qed.

Lemma succeeds_contains_path path srcs k :
  succeeds (ready path srcs) (Run.contains_at path k).
Proof.
  intros w Hw. unfold Run.contains_at. rewrite bind_run, item_run.
  destruct Hw as [[d Hd] Hs]. rewrite Hd. cbn [Run.lift contains].
  eexists _, w. split; [done|]. split; [by exists d | done].
Qed.

Lemma succeeds_update_if_present path srcs k :
  path ≠ [] → Forall (beside path) srcs →
  succeeds (ready path srcs) (update_if_present path k).
Proof.
  intros Hpath Hbeside w Hw. unfold update_if_present. rewrite bind_run.
  unfold Run.contains_at. rewrite bind_run, item_run. cbn [lookup_path Run.lift].
  pose proof Hw as [[d Hd] Hs].
  assert (∃ c, cfg w = VDict c) as [c Ec].
  { destruct path as [|a path]; [done|]. simpl in Hd.
    destruct (cfg w) as [| | | | |c|]; try done. by exists c. }
  rewrite Ec. cbn [contains]. unfold Dict.mem.
  destruct (Dict.get k c) as [x|] eqn:Ek.
  - destruct (update_at_succeeds path srcs k (Run.item [k]) w x Hbeside Hw)
      as (w' & E & Hw').
    { rewrite item_run, Ec. simpl. by rewrite Ek. }
    by exists (), w'.
  - by exists (), w.
Qed.

Ltac succeeds_step :=
  lazymatch goal with
  | |- succeeds _ (_ ≫= _) => apply succeeds_bind; [|intros ?]
  | |- succeeds _ (mret _) => apply succeeds_ret
  | |- succeeds _ (Run.update_at _ _ (Run.item _)) =>
      apply succeeds_update_item;
        [repeat constructor; done | rewrite !elem_of_cons; tauto]
  | |- succeeds _ (Run.update_at _ _ (mret _)) =>
      apply succeeds_update_const; repeat constructor; done
  | |- succeeds _ (update_if_present _ _) =>
      apply succeeds_update_if_present; [done | repeat constructor; done]
  | |- succeeds _ (Run.contains_at _ _) => apply succeeds_contains_path
  | |- succeeds _ (Run.item _) => apply succeeds_item_path
  | |- succeeds _ (if ?b then _ else _) => destruct b; simpl
  | |- succeeds _ (match ?v with _ => _ end) => destruct v
  end.

Lemma create_dscfg_dict_succeeds dataset :
  succeeds (ready [dataset] ((λ ks, [ks.2]) <$> dscfg_copies)) (_create_dscfg_dict dataset).
Proof.
  unfold _create_dscfg_dict, dscfg_copies. simpl fmap.
  repeat succeeds_step.
Qed.

Lemma create_prdcfg_dict_succeeds dataset product voltime :
  succeeds (ready [dataset; "products"; product]
              ([dataset; "type"] :: ((λ ks, [ks.2]) <$> prdcfg_copies)))
    (_create_prdcfg_dict dataset product voltime).
Proof.
  unfold _create_prdcfg_dict, prdcfg_copies. simpl fmap.
  repeat succeeds_step.
Qed.

Section needs.
Context `{Imports}.

(** After [_create_cfg_dict] every key with a default can be read. *)
Lemma create_cfg_dict_has cfgfile w w' k v :
_create_cfg_dict cfgfile w = (Ok (), w') →
getitem (cfg w') k = Ok v →
∀ k', k' ∈ cfg_defaults.*1 → is_ok (getitem (cfg w') k') = true.
Proof.
intros Hcfg Hk k' Hk'.
apply create_cfg_dict_inv in Hcfg as (config & _ & Hfold & _).
destruct (with_defaults_spec _ _ _ Hfold) as (_ & _ & _ & Hin & _).
apply list_elem_of_fmap in Hk' as ([k0 x0] & -> & Hkx). apply Hin in Hkx.
destruct (cfg w') as [| | | | |c|]; try done. simpl in *.
unfold Dict.mem in Hkx. by destruct (Dict.get k0 c).
Qed.
End needs.

(** X16: After [_create_cfg_dict], [_create_dscfg_dict] returns for every
    dataset that has a dictionary in the configuration as soon as the
    configuration files give ['configpath'], ['saveimgbasepath'] and
    ['name']: the other settings it copies have a default. *)
Theorem dscfg_needs_three_settings `{Imports} cfgfile w w' dataset d :
  _create_cfg_dict cfgfile w = (Ok (), w') →
  getitem (cfg w') dataset = Ok (VDict d) →
  (∀ k, k ∈ ["configpath"; "saveimgbasepath"; "name"] →
     is_ok (getitem (cfg w') k) = true) →
  is_ok (_create_dscfg_dict dataset w').1 = true.
Proof.
  intros Hcfg Hds Hgiven.
  pose proof (create_cfg_dict_has cfgfile w w' dataset (VDict d) Hcfg Hds) as Hdef.
  destruct (create_dscfg_dict_succeeds dataset w') as (a & w'' & -> & _); [|done].
  split; [exists d; by rewrite lookup_path_one|].
  intros src Hsrc. unfold dscfg_copies in Hsrc. simpl in Hsrc.
  repeat (apply elem_of_cons in Hsrc as [->|Hsrc];
    [rewrite lookup_path_one;
     first [ apply Hgiven; rewrite !elem_of_cons; tauto
           | apply Hdef; apply (bool_decide_unpack _); vm_compute; reflexivity ]|]).
  exfalso. exact (proj1 (elem_of_nil _) Hsrc).
Qed.

Lemma dscfg_needs_three_settings_witness :
  is_ok (_create_dscfg_dict "a" (Runs.configured Runs.no_volume)).1 = true.
Proof.
  apply (@dscfg_needs_three_settings Runs.no_volume "main.cfg" world0
           (Runs.configured Runs.no_volume) "a"
           [("type", VStr "A"); ("datatype", VStr "RAINBOW:dBZ")]).
  - vm_compute. reflexivity.
  - vm_compute. reflexivity.
  - intros k Hk.
    repeat (apply elem_of_cons in Hk as [->|Hk]; [vm_compute; reflexivity|]).
    exfalso. exact (proj1 (elem_of_nil _) Hk).
Defined.

(** X17: After [_create_cfg_dict], [_create_prdcfg_dict] returns for every
    product that has a dictionary under ['products'] of a dataset with a
    ['type'] as soon as the configuration files give ['name'],
    ['saveimgbasepath'], ['imgformat'] and ['convertformat'], with or
    without a volume time: the other settings it copies have a default,
    and the image configurations are optional. *)
Theorem prdcfg_needs_four_settings `{Imports} cfgfile w w' dataset product voltime pd :
  _create_cfg_dict cfgfile w = (Ok (), w') →
  lookup_path [dataset; "products"; product] (cfg w') = Ok (VDict pd) →
  is_ok (lookup_path [dataset; "type"] (cfg w')) = true →
  (∀ k, k ∈ ["name"; "saveimgbasepath"; "imgformat"; "convertformat"] →
     is_ok (getitem (cfg w') k) = true) →
  is_ok (_create_prdcfg_dict dataset product voltime w').1 = true.
Proof.
  intros Hcfg Hprd Hty Hgiven.
  assert (∃ v, getitem (cfg w') dataset = Ok v) as [v Hds].
  { simpl in Hprd. destruct (getitem (cfg w') dataset) as [v|]; [by exists v | done]. }
  pose proof (create_cfg_dict_has cfgfile w w' dataset v Hcfg Hds) as Hdef.
  destruct (create_prdcfg_dict_succeeds dataset product voltime w') as (a & w'' & -> & _);
    [|done].
  split; [by exists pd|].
  intros src Hsrc. unfold prdcfg_copies in Hsrc. simpl in Hsrc.
  apply elem_of_cons in Hsrc as [->|Hsrc]; [exact Hty|].
  repeat (apply elem_of_cons in Hsrc as [->|Hsrc];
    [rewrite lookup_path_one;
     first [ apply Hgiven; rewrite !elem_of_cons; tauto
           | apply Hdef; apply (bool_decide_unpack _); vm_compute; reflexivity ]|]).
  exfalso. exact (proj1 (elem_of_nil _) Hsrc).
Qed.

Lemma prdcfg_needs_four_settings_witness :
  is_ok (_create_prdcfg_dict "a" "p1" None (Runs.configured Runs.with_product)).1 = true.
Proof.
  apply (@prdcfg_needs_four_settings Runs.with_product "main.cfg" world0
           (Runs.configured Runs.with_product) "a" "p1" None
           [("type", VStr "PPI_IMAGE")]).
  - vm_compute. reflexivity.
  - vm_compute. reflexivity.
  - vm_compute. reflexivity.
  - intros k Hk.
    repeat (apply elem_of_cons in Hk as [->|Hk]; [vm_compute; reflexivity|]).
    exfalso. exact (proj1 (elem_of_nil _) Hk).
Defined.

(** * Invocations, merges and defaults over a run *)

(** ** Every call is an invocation of a transform *)

Section invocations.
Context `{Imports}.

Lemma each_call_loop {A S} (P : call → Prop) (body : S → A → M S) l s :
(∀ s x, each_call P (body s x)) → each_call P (Run.for_acc body l s).
Proof.
intros Hb. eapply each_call_mono; [|apply (each_call_for_acc (λ _, P))].
- by intros c (_ & _ & Hc).
- intros. apply Hb.
Qed.

Lemma process_dataset_invokes dataset st radar voltime :
each_call invoked (_process_dataset dataset st radar voltime).
Proof.
intros w. unfold _process_dataset. rewrite bind_run.
unfold Run.setitem_at. rewrite mutate_run.
destruct (at_path [dataset] _ (cfg w)) as [c1|e] eqn:E1.
2: { exists []. by rewrite app_nil_r. }
apply at_path_one_inv in E1 as (c0 & x & x' & Hc0 & Hx & Hx' & ->).
destruct x as [| | | | |d0|]; try done. injection Hx' as <-.
rewrite bind_run, bind_run, item_run. cbn [cfg set_cfg].
change [dataset; "type"] with ([dataset] ++ ["type"]).
rewrite lookup_path_app, lookup_path_set. cbn [mbind result_bind Res.bind].
rewrite lookup_path_one.
destruct (getitem _ "type") as [ty|e] eqn:Ety; cbn [Run.lift].
2: { exists []. by rewrite app_nil_r. }
destruct (get_process_type ty) as [[name fmt]|e] eqn:Ept.
2: { exists []. by rewrite app_nil_r. }
rewrite bind_run. cbn [Run.lift].
destruct (proc name) as [f|] eqn:Ef; cbn [Res.of_option].
2: { exists []. by rewrite app_nil_r. }
rewrite bind_run, call_proc_run. cbn [cfg set_cfg]. rewrite lookup_path_set.
destruct (at_path [dataset] _ _) as [c2|e].
2: { exists []. by rewrite app_nil_r. }
set (c := mkCall dataset name st (VDict (Dict.set "timeinfo" (time_value voltime) d0))
            radar (f st (VDict (Dict.set "timeinfo" (time_value voltime) d0)) radar).1).
assert (invoked c) as Hc by (by exists f, ty, fmt).
destruct (f st _ radar).1 as [nd|e] eqn:Eres.
- exists [c]. split; [|by constructor].
  match goal with
  | |- calls (_ ?w2).2 = _ =>
      exact (after_call_quiet dataset voltime fmt radar nd w2)
  end.
- exists [c]. split; [done | by constructor].
Qed.

Lemma main_run_invokes p : each_call invoked (main_run p).
Proof.
unfold main_run. case_bool_decide as Hn.
{ apply each_call_quiet. intros w. unfold same_calls. rewrite bind_run.
  pose proof (no_volume_error_eq (p_masterdatatypedescr p) w) as Hw.
  by destruct (no_volume_error _ w) as [[e|e] w1]; simpl in *; subst w1. }
apply each_call_bind; [|intros _; apply each_call_bind; [|intros voltime]].
- apply each_call_loop. intros _ level. apply each_call_loop. intros _ dataset.
  apply each_call_bind; [apply each_call_quiet, create_dscfg_dict_calls | intros _].
  apply each_call_bind; [apply each_call_quiet; solve_writes | intros _].
  apply each_call_bind; [apply each_call_quiet; solve_writes | intros _].
  apply each_call_bind; [apply process_dataset_invokes|].
  intros. apply each_call_quiet. solve_writes.
- apply each_call_loop. intros _ masterfile. unfold process_file.
  apply each_call_bind; [apply each_call_quiet; solve_writes | intros t].
  apply each_call_bind; [apply each_call_quiet; solve_writes | intros radar].
  apply each_call_bind; [|intros; apply each_call_quiet; solve_writes].
  apply each_call_loop. intros r level. apply each_call_loop. intros r' dataset.
  apply each_call_bind; [apply each_call_quiet; solve_writes | intros _].
  apply each_call_bind; [apply process_dataset_invokes|].
  intros []. apply each_call_quiet. solve_writes.
- apply each_call_loop. intros _ level. apply each_call_loop. intros _ dataset.
  apply each_call_bind; [apply each_call_quiet; solve_writes | intros _].
  apply each_call_bind; [apply process_dataset_invokes|].
  intros. apply each_call_quiet. solve_writes.
Qed.

Lemma prefix_filter_length {A} (P : A → Prop) `{!∀ x, Decision (P x)} (l1 l2 : list A) :
l1 `prefix_of` l2 → (length (filter P l1) ≤ length (filter P l2))%nat.
Proof. intros [k ->]. rewrite filter_app, length_app. lia. Qed.
End invocations.

(** C5, as the specification states it, fails: the number of calls of a
    declared dataset is not [N + 2] in every run with [N ≥ 1] master
    files.  With two master files and a transform of the dataset [f] that
    raises at the first volume, the dataset [a] is called once; and a
    dataset declared at two levels is called [2 * (N + 2)] times by a run
    that completes. *)
Lemma declared_dataset_not_called_n_plus_2_times :
  length (p_masterfilelist (Runs.plan_of Runs.failing_first)) = 2%nat ∧
  visit_order (p_dataset_levels (Runs.plan_of Runs.failing_first)) = ["f"; "a"] ∧
  ncalls_of "a" (calls (Runs.run Runs.failing_first).2) = 1%nat ∧
  length (p_masterfilelist (Runs.plan_of Runs.declared_twice)) = 1%nat ∧
  (Runs.run Runs.declared_twice).1 = Ok () ∧
  ncalls_of "a" (calls (Runs.run Runs.declared_twice).2) = 6%nat.
Proof. repeat split; vm_compute; reflexivity. Qed.

(** C5 amended: every call of a run is an invocation of the transform of
    its dataset, and a dataset is never called more often than its number
    of declarations times [N + 2], where [N] is the number of master
    files.  In a run that completes, [N ≥ 1] and a dataset is called,
    for each of its declarations, once with status 0, once for each
    master file with status 1 and once with status 2: [N + 2] times when
    it is declared once. *)
Theorem lifecycle_call_counts `{Imports} cfgfile starttime endtime w p w1
    dataSetList parsed dataset :
  calls w = [] →
  main_plan cfgfile starttime endtime w = (Ok p, w1) →
  getitem (cfg w1) "dataSetList" ≫= iter = Ok dataSetList →
  parses dataSetList parsed →
  let n := length (p_masterfilelist p) in
  let k := occurrences dataset parsed.*2 in
  let run := main cfgfile starttime endtime w in
  Forall invoked (calls run.2) ∧
  (ncalls_of dataset (calls run.2) ≤ (n + 2) * k)%nat ∧
  (run.1 = Ok () →
   (1 ≤ n)%nat ∧
   ncalls 0 dataset (calls run.2) = k ∧
   ncalls 1 dataset (calls run.2) = (n * k)%nat ∧
   ncalls 2 dataset (calls run.2) = k ∧
   ncalls_of dataset (calls run.2) = ((n + 2) * k)%nat).
Proof.
  intros Hw Hp Hl Hparsed n k run.
  assert (run = main_run p w1) as Hrun.
  { unfold run, main. by rewrite bind_run, Hp. }
  pose proof (main_plan_calls cfgfile starttime endtime w) as Hq.
  rewrite Hp in Hq. unfold same_calls in Hq. simpl in Hq. rewrite Hw in Hq.
  assert (occurrences dataset (visit_order (p_dataset_levels p)) = k) as Hocc.
  { unfold k, occurrences.
    by rewrite (visit_order_declared _ _ _ _ Hl Hparsed (main_plan_levels _ _ _ _ _ _ Hp)). }
  destruct (main_run_invokes p w1) as (evs' & E' & Hinv).
  destruct (main_run_traced p w1) as (evs & E & K).
  rewrite <-Hrun in E', E, K. rewrite Hq in E', E. simpl in E', E.
  assert (key <$> calls run.2 `prefix_of`
            schedule (p_dataset_levels p) (p_masterfilelist p)) as Hpre.
  { rewrite E. destruct (is_ok run.1); [by rewrite K | done]. }
  split; [by rewrite E'|]. split.
  - unfold ncalls_of.
    etrans; [apply (prefix_filter_length (λ k0 : Z * string, k0.2 = dataset) _ _ Hpre)|].
    rewrite schedule_ncalls_of, Hocc. done.
  - intros Hok. rewrite Hok in K. simpl in K.
    unfold ncalls, ncalls_of. rewrite E, K, !schedule_ncalls, schedule_ncalls_of, Hocc.
    assert (p_masterfilelist p ≠ []) as Hne.
    { intros Hnil. rewrite Hrun in Hok. unfold main_run in Hok. rewrite Hnil in Hok.
      simpl in Hok. rewrite bind_run in Hok.
      by destruct (no_volume_error _ w1) as [[?|?] ?]. }
    subst n. destruct (p_masterfilelist p); [done|]. simpl. repeat split; lia.
Qed.

Lemma lifecycle_call_counts_witness :
  let n := length (p_masterfilelist (Runs.plan_of Runs.two_global)) in
  let k := occurrences "a" [("l0", "a"); ("l0", "b")].*2 in
  let run := @main Runs.two_global "main.cfg" 0 10 world0 in
  Forall (@invoked Runs.two_global) (calls run.2) ∧
  (ncalls_of "a" (calls run.2) ≤ (n + 2) * k)%nat ∧
  (run.1 = Ok () →
   (1 ≤ n)%nat ∧
   ncalls 0 "a" (calls run.2) = k ∧
   ncalls 1 "a" (calls run.2) = (n * k)%nat ∧
   ncalls 2 "a" (calls run.2) = k ∧
   ncalls_of "a" (calls run.2) = ((n + 2) * k)%nat).
Proof.
  apply (@lifecycle_call_counts Runs.two_global "main.cfg" 0 10 world0
           (Runs.plan_of Runs.two_global) (Runs.planned Runs.two_global)
           ["l0:a"; "l0:b"] [("l0", "a"); ("l0", "b")] "a").
  - reflexivity.
  - vm_compute. reflexivity.
  - vm_compute. reflexivity.
  - repeat constructor.
Defined.

(** ** The radar volume through a pass *)

Section threading.
Context `{Imports}.

Lemma volume_after_nil radar : volume_after radar [] = radar.
Proof. by destruct radar as [[]|]. Qed.

Lemma volume_after_app radar evs1 evs2 :
volume_after radar (evs1 ++ evs2) = volume_after (volume_after radar evs1) evs2.
Proof. destruct radar as [r|]; [|done]. simpl. by rewrite foldl_app. Qed.

Lemma threads_nil radar : threads radar [] radar.
Proof.
split; [constructor|]. split; [|by rewrite volume_after_nil].
intros i c Hi. by rewrite lookup_nil in Hi.
Qed.

Lemma threads_app radar evs1 radar1 evs2 radar2 :
threads radar evs1 radar1 → threads radar1 evs2 radar2 →
threads radar (evs1 ++ evs2) radar2.
Proof.
intros (Hi1 & Ht1 & ->) (Hi2 & Ht2 & ->). split; [by apply Forall_app|]. split.
- intros i c Hi. destruct (decide (i < length evs1)%nat) as [Hlt|Hge].
  + rewrite lookup_app_l in Hi by done. rewrite take_app_le by lia. by apply Ht1.
  + rewrite lookup_app_r in Hi by lia. rewrite take_app_ge by lia.
    rewrite volume_after_app. by apply Ht2.
- by rewrite volume_after_app.
Qed.

Lemma for_acc_threads {A} (body : option Radar → A → M (option Radar)) l :
(∀ s x w s' w', body s x w = (Ok s', w') →
   ∃ evs, calls w' = calls w ++ evs ∧ threads s evs s') →
∀ s w s' w', Run.for_acc body l s w = (Ok s', w') →
  ∃ evs, calls w' = calls w ++ evs ∧ threads s evs s'.
Proof.
intros Hbody. induction l as [|x l IH]; intros s w s' w' Hrun.
- injection Hrun as <- <-. exists []. rewrite app_nil_r. split; [done|].
  apply threads_nil.
- simpl in Hrun. apply bind_ok_inv in Hrun as (s1 & w1 & Hx & Hrun).
  destruct (Hbody _ _ _ _ _ Hx) as (evs1 & E1 & T1).
  destruct (IH _ _ _ _ Hrun) as (evs2 & E2 & T2).
  exists (evs1 ++ evs2). rewrite E2, E1, (assoc_L (++)). split; [done|].
  by eapply threads_app.
Qed.

(** One call of [_process_dataset] that returns. *)
Lemma process_dataset_threads dataset st radar voltime w ret radar' w' :
_process_dataset dataset st radar voltime w = (Ok (ret, radar'), w') →
∃ c, calls w' = calls w ++ [c] ∧ key c = (st, dataset) ∧ c_radar c = radar ∧
     threads radar [c] radar' ∧
     (∃ d0, lookup_path [dataset] (cfg w) = Ok (VDict d0) ∧
            c_dscfg c = VDict (Dict.set "timeinfo" (time_value voltime) d0)).
Proof.
intros Hrun.
destruct (process_dataset_invokes dataset st radar voltime w) as (evs & E & Hinv).
rewrite Hrun in E. simpl in E.
apply process_dataset_returns in Hrun
  as (c & f & Hcalls & Hkey & Hradar & Hproc & Hres & Hd0 & _ & Hout).
rewrite Hcalls in E. apply app_inv_head in E as <-.
exists c. split; [done|]. split; [done|]. split; [done|]. split; [|done].
split; [done|]. split.
{ intros [|i] c' Hi; [|by destruct i]. injection Hi as <-.
  by rewrite volume_after_nil. }
injection Hkey as Hst Hds.
assert (dscfg_after c = (f st (c_dscfg c) radar).2) as Hafter.
{ unfold dscfg_after. by rewrite Hproc, Hst, Hradar. }
unfold volume_after, merged_fields. simpl. rewrite Hafter.
destruct (c_result c) as [[nd|]|]; [| |done].
- destruct Hout as (_ & mg & r0 & -> & Hadd). unfold _add_dataset in Hadd.
  destruct radar as [r|]; [|by injection Hadd as _ <-].
  destruct (truthy mg); simpl in Hadd.
  + destruct (add_fields nd r) as [r'|] eqn:Ea; [|done]. injection Hadd as _ <-.
    pose proof Ea as [Ha _]%add_fields_inv.
    rewrite (add_fields_union _ _ Ha) in Ea. by injection Ea as <-.
  + injection Hadd as _ <-. simpl. rewrite (left_id_L ∅ (∪)). by destruct r.
- destruct Hout as [_ ->]. destruct radar as [r|]; [|done]. simpl.
  rewrite (left_id_L ∅ (∪)). by destruct r.
Qed.

Lemma process_datasets_threads dl radar voltime w radar' w' :
process_datasets dl radar voltime w = (Ok radar', w') →
∃ evs, calls w' = calls w ++ evs ∧ threads radar evs radar'.
Proof.
unfold process_datasets. apply for_acc_threads.
intros r level w1 r1 w2. apply for_acc_threads.
clear. intros r dataset w r' w' Hbody.
apply bind_ok_inv in Hbody as ([] & w1 & Hderef & Hbody).
assert (calls w1 = calls w) as Hc.
{ unfold Run.deref_dscfg in Hderef. by injection Hderef as _ <-. }
apply bind_ok_inv in Hbody as ([ret r1] & w2 & Hp & Hbody).
injection Hbody as <- <-.
apply process_dataset_threads in Hp as (c & E & _ & _ & T & _).
exists [c]. by rewrite E, Hc.
Qed.

Lemma foldl_union_lookup {A} (g : A → gmap string Field) (m : gmap string Field) l name :
foldl (λ acc c, g c ∪ acc) m l !! name =
  from_option Some (m !! name) (last (omap (λ c, g c !! name) l)).
Proof.
induction l as [|c l IH] using rev_ind; [done|].
rewrite foldl_app, omap_app. simpl. rewrite lookup_union.
destruct (g c !! name) as [v|] eqn:Ev; simpl.
- rewrite last_snoc. simpl. by destruct (foldl _ _ _ !! name).
- rewrite app_nil_r, <-IH. by destruct (foldl _ _ _ !! name).
Qed.

Lemma foldl_union_empty {A} (g : A → gmap string Field) (m : gmap string Field) l :
Forall (λ c, g c = ∅) l → foldl (λ acc c, g c ∪ acc) m l = m.
Proof.
revert m. induction l as [|c l IH]; intros m Hall; [done|].
apply Forall_cons in Hall as [Hc Hall]. simpl. rewrite Hc, (left_id_L ∅ (∪)).
by apply IH.
Qed.
End threading.

(** C6, as the specification states it, fails: a dataset that has
    ['MAKE_GLOBAL'] set and whose transform returns a dataset while there
    is a volume does not always get its fields into the volume.  The
    field of the dataset [m] has not the shape of the volume: [add_field]
    refuses it, [_add_dataset] raises, and the run ends there, without
    post-processing. *)
Lemma misshapen_field_is_not_added :
  lookup_path ["m"; "MAKE_GLOBAL"] (cfg (Runs.initialised Runs.misshapen_global)) =
    Ok (VInt 1) ∧
  (c_result <$> last (calls (Runs.run Runs.misshapen_global).2)) =
    Some (Ok (Some (mkRadar 2 2 {["dBZ" := mkField (Some (2%nat, 2%nat)) 4]}))) ∧
  (c_radar <$> last (calls (Runs.run Runs.misshapen_global).2)) =
    Some (Some Sample.empty_volume) ∧
  (Runs.run Runs.misshapen_global).1 = Raise ValueError ∧
  key <$> calls (Runs.run Runs.misshapen_global).2 = [(0, "m"); (1, "m")].
Proof. repeat split; vm_compute; reflexivity. Qed.

(** C6 amended: when the pass over a volume returns, the datasets were
    called in the order of the pass, each call being an invocation of the
    transform of its dataset that received the volume as the calls before
    it left it.  A call whose transform returned a dataset and left
    ['MAKE_GLOBAL'] true in the dataset configuration wrote every field
    of that dataset into the volume, over a field of the same name; any
    other call wrote nothing.  So the volume keeps its shape, a field
    has the value of the last call that wrote it, or the value it had
    when no call wrote it, and without any such call the volume is what
    it was; without a volume there is none afterwards. *)
Theorem later_dataset_wins_in_the_volume `{Imports} dl radar voltime w radar' w' :
  process_datasets dl radar voltime w = (Ok radar', w') →
  ∃ evs,
    calls w' = calls w ++ evs ∧
    key <$> evs = pass 1 dl ∧
    Forall invoked evs ∧
    (∀ i c, evs !! i = Some c → c_radar c = volume_after radar (take i evs)) ∧
    radar' = volume_after radar evs ∧
    (radar = None → radar' = None) ∧
    (∀ r, radar = Some r →
       ∃ r', radar' = Some r' ∧ nrays r' = nrays r ∧ ngates r' = ngates r ∧
         (∀ name, fields r' !! name =
            from_option Some (fields r !! name)
              (last (omap (λ c, merged_fields c !! name) evs))) ∧
         (Forall (λ c, merged_fields c = ∅) evs → r' = r)).
Proof.
  intros Hrun.
  pose proof (process_datasets_traced dl radar voltime w) as (evs' & E' & K).
  rewrite Hrun in E', K. simpl in E', K.
  apply process_datasets_threads in Hrun as (evs & E & Hinv & Hthread & ->).
  rewrite E in E'. apply app_inv_head in E' as <-.
  exists evs. split; [done|]. split; [done|]. split; [done|]. split; [done|].
  split; [done|]. split; [by intros ->|].
  intros r ->. simpl. eexists. split; [done|]. simpl. split; [done|]. split; [done|].
  split.
  - intros name. apply foldl_union_lookup.
  - intros Hall. rewrite (foldl_union_empty _ _ _ Hall). by destruct r.
Qed.

Lemma later_dataset_wins_in_the_volume_witness :
  ∃ evs,
    calls (Runs.after_volume Runs.two_global).2 =
      calls (Runs.initialised Runs.two_global) ++ evs ∧
    key <$> evs = pass 1 (p_dataset_levels (Runs.plan_of Runs.two_global)) ∧
    Forall (@invoked Runs.two_global) evs ∧
    (∀ i c, evs !! i = Some c →
       c_radar c = @volume_after Runs.two_global (Some Sample.empty_volume) (take i evs)) ∧
    Some (mkRadar 1 1 {["dBZ" := Sample.field_of 2]}) =
      @volume_after Runs.two_global (Some Sample.empty_volume) evs ∧
    (Some Sample.empty_volume = None →
     Some (mkRadar 1 1 {["dBZ" := Sample.field_of 2]}) = None) ∧
    (∀ r, Some Sample.empty_volume = Some r →
       ∃ r', Some (mkRadar 1 1 {["dBZ" := Sample.field_of 2]}) = Some r' ∧
         nrays r' = nrays r ∧ ngates r' = ngates r ∧
         (∀ name, fields r' !! name =
            from_option Some (fields r !! name)
              (last (omap (λ c, @merged_fields Runs.two_global c !! name) evs))) ∧
         (Forall (λ c, @merged_fields Runs.two_global c = ∅) evs → r' = r)).
Proof.
  apply (@later_dataset_wins_in_the_volume Runs.two_global
    (p_dataset_levels (Runs.plan_of Runs.two_global)) (Some Sample.empty_volume) 1
    (Runs.initialised Runs.two_global)
    (Some (mkRadar 1 1 {["dBZ" := Sample.field_of 2]}))
    (Runs.after_volume Runs.two_global).2).
  vm_compute. reflexivity.
Defined.

(** ** The default of [MAKE_GLOBAL] and the merge *)

(** C10, as the specification states it, fails in its second half: that
    the configuration of a dataset omits ['MAKE_GLOBAL'] does not keep its
    fields out of the volume.  The merge is decided on the dataset
    configuration after the transform call, and the transform of the
    dataset [g] sets ['MAKE_GLOBAL'] there: its field is in the volume
    that the next dataset receives. *)
Lemma default_overridden_by_transform :
  (getitem (cfg (Runs.configured Runs.self_global)) "g" ≫=
     λ section, contains "MAKE_GLOBAL" section) = Ok false ∧
  lookup_path ["g"; "MAKE_GLOBAL"] (cfg (Runs.initialised Runs.self_global)) =
    Ok (VInt 0) ∧
  (Runs.run Runs.self_global).1 = Ok () ∧
  (λ c, (key c, c_radar c)) <$> calls (Runs.after_volume Runs.self_global).2 =
    [((0, "g"), None); ((0, "a"), None);
     ((1, "g"), Some Sample.empty_volume);
     ((1, "a"), Some (mkRadar 1 1 {["dBZ" := Sample.field_of 3]}))].
Proof. repeat split; vm_compute; reflexivity. Qed.

(** C10 amended: when the configuration of a dataset has no
    ['MAKE_GLOBAL'], [_create_dscfg_dict] sets it to 0, and a value given
    in the configuration is kept.  [_process_dataset] decides the merge on
    the value the dataset configuration has after the transform call:
    the radar object changes only when the transform returned a dataset
    and ['MAKE_GLOBAL'] is true then, whether the configuration or the
    transform set it.  So with the default still in place when the
    dataset is processed and a transform that leaves the key as it is,
    nothing is merged. *)
Theorem make_global_defaults_to_zero `{Imports} dataset d wb wb'
    st radar voltime w ret radar' w' :
  lookup_path [dataset] (cfg wb) = Ok (VDict d) →
  _create_dscfg_dict dataset wb = (Ok (), wb') →
  _process_dataset dataset st radar voltime w = (Ok (ret, radar'), w') →
  lookup_path [dataset; "MAKE_GLOBAL"] (cfg wb') =
    Ok (default (VInt 0) (Dict.get "MAKE_GLOBAL" d)) ∧
  ∃ c, calls w' = calls w ++ [c] ∧ key c = (st, dataset) ∧ c_radar c = radar ∧
    invoked c ∧
    getitem (c_dscfg c) "MAKE_GLOBAL" = lookup_path [dataset; "MAKE_GLOBAL"] (cfg w) ∧
    radar' = volume_after radar [c] ∧
    (radar' ≠ radar →
       ∃ new_dataset make_global,
         c_result c = Ok (Some new_dataset) ∧
         getitem (dscfg_after c) "MAKE_GLOBAL" = Ok make_global ∧
         truthy make_global = true) ∧
    (Dict.get "MAKE_GLOBAL" d = None →
     lookup_path [dataset; "MAKE_GLOBAL"] (cfg w) =
       lookup_path [dataset; "MAKE_GLOBAL"] (cfg wb') →
     getitem (dscfg_after c) "MAKE_GLOBAL" = getitem (c_dscfg c) "MAKE_GLOBAL" →
     radar' = radar).
Proof.
  intros Hd Hbuild Hrun.
  pose proof (create_dscfg_dict_make_global dataset d wb wb' Hd Hbuild) as Hmg.
  split; [done|].
  apply process_dataset_threads in Hrun
    as (c & E & Hkey & Hradar & (Hinv & _ & Hvol) & (d0 & Hd0 & Hdscfg)).
  exists c. split; [done|]. split; [done|]. split; [done|].
  split; [by apply Forall_inv in Hinv|].
  assert (getitem (c_dscfg c) "MAKE_GLOBAL" =
          lookup_path [dataset; "MAKE_GLOBAL"] (cfg w)) as Hbefore.
  { change [dataset; "MAKE_GLOBAL"] with ([dataset] ++ ["MAKE_GLOBAL"]).
    rewrite lookup_path_app, Hd0, Hdscfg. cbn [mbind result_bind Res.bind].
    rewrite lookup_path_one. simpl. by rewrite DictFacts.get_set_ne. }
  split; [done|]. split; [done|].
  assert (merged_fields c = ∅ → radar' = radar) as Hnone.
  { intros Hm. rewrite Hvol. unfold volume_after. simpl. rewrite Hm.
    destruct radar as [[]|]; [|done]. simpl. by rewrite (left_id_L ∅ (∪)). }
  split.
  - intros Hne. unfold merged_fields in Hnone.
    destruct (c_result c) as [[nd|]|]; [|by destruct Hne; apply Hnone..].
    destruct (getitem (dscfg_after c) "MAKE_GLOBAL") as [mg|];
      [|by destruct Hne; apply Hnone].
    destruct (truthy mg) eqn:Et; [by exists nd, mg | by destruct Hne; apply Hnone].
  - intros Hnot Hsame Hleft. apply Hnone. unfold merged_fields.
    rewrite Hleft, Hbefore, Hsame, Hmg, Hnot. simpl.
    by destruct (c_result c) as [[nd|]|].
Qed.

Lemma make_global_defaults_to_zero_witness :
  lookup_path ["a"; "MAKE_GLOBAL"] (cfg Runs.product_dscfg) = Ok (VInt 0).
Proof.
  refine (proj1 (@make_global_defaults_to_zero Runs.with_product "a"
    [("type", VStr "A"); ("datatype", VStr "RAINBOW:dBZ");
     ("products", VDict [("p1", VDict [("type", VStr "PPI_IMAGE")])])]
    Runs.product_planned Runs.product_dscfg
    1 (Some Sample.empty_volume) (Some 7) Runs.product_dscfg
    (Some 0) (Some Sample.empty_volume) Runs.product_volume _ _ _)).
  - vm_compute. reflexivity.
  - vm_compute. reflexivity.
  - vm_compute. reflexivity.
Defined.

(** ** Warnings *)

Section generator_calls.
Context `{Imports}.







End generator_calls.

